(** * Inverted-Index-Generator: the indexer (index.py) and the query engine
      (query.py), embedded as executable Rocq functions.

    Conventions of the embedding.
    - A Python [str] is a Rocq [string]; a character is read as the code
      point U+0000..U+00FF it denotes, and the classification tables below
      ([is_space], [is_word], [lower]) are CPython's for that range.
    - A Python [int] is a [Z]; a document identifier that may still be
      [None] is an [option Z].
    - A [dict] is an association list in insertion order with pairwise
      distinct keys ([dict_set] replaces in place or appends).
    - A raised exception (including [SystemExit] from [sys.exit()]) is the
      [Raise] branch of [result]; text printed before it is not kept.
    - A [float] is a primitive binary64 float. *)

From Stdlib Require Import ZArith NArith Bool List Lia.
From Stdlib Require Import Strings.Ascii Strings.String.
From Stdlib Require Import Numbers.DecimalString.
From Stdlib Require Numbers.DecimalPos.
From Stdlib Require Import Sorting.Sorted Sorting.Permutation.
From Stdlib Require Floats.PrimFloat Floats.SpecFloat Floats.FloatOps Floats.FloatAxioms.
From Stdlib Require Numbers.Cyclic.Int63.Uint63.
Import ListNotations.

Open Scope string_scope.
Open Scope list_scope.
Open Scope Z_scope.

(** ** Exceptions and results *)

Inductive exn : Type :=
| SystemExit
| TypeError
| ValueError
| AttributeError
| IndexError
| KeyError
| ZeroDivisionError
| OSError.

Inductive result (A : Type) : Type :=
| Ok (a : A)
| Raise (e : exn).

Arguments Ok {A} a.
Arguments Raise {A} e.

Definition bind {A B : Type} (r : result A) (k : A -> result B) : result B :=
  match r with
  | Ok a => k a
  | Raise e => Raise e
  end.

Notation "x <- r ;; k" := (bind r (fun x => k))
  (at level 61, r at next level, right associativity).
Notation "' p <- r ;; k" := (bind r (fun x => let p := x in k))
  (at level 61, p pattern, r at next level, right associativity).

Definition is_ok {A : Type} (r : result A) : bool :=
  match r with Ok _ => true | Raise _ => false end.

(** ** Characters *)

Definition code (c : ascii) : N := N_of_ascii c.

Definition in_range (lo hi : N) (c : ascii) : bool :=
  ((lo <=? code c) && (code c <=? hi))%N.

Definition is_code (n : N) (c : ascii) : bool := (code c =? n)%N.

(** [str.isspace], which is also the regular expression class [\s] and the
    separator set of [str.split()] and [str.strip()]. *)
Definition is_space (c : ascii) : bool :=
  in_range 9 13 c || in_range 28 32 c || is_code 133 c || is_code 160 c.

(** [str.isalnum]: letters and numeric characters. *)
Definition is_alnum (c : ascii) : bool :=
  in_range 48 57 c || in_range 65 90 c || in_range 97 122 c
  || is_code 170 c || in_range 178 179 c || is_code 181 c
  || in_range 185 186 c || in_range 188 190 c
  || in_range 192 214 c || in_range 216 246 c || in_range 248 255 c.

(** The regular expression class [\w]: alphanumerics and the underscore. *)
Definition is_word (c : ascii) : bool := is_alnum c || is_code 95 c.

(** [str.lower] on one character. *)
Definition lower (c : ascii) : ascii :=
  if in_range 65 90 c || in_range 192 214 c || in_range 216 222 c
  then ascii_of_N (code c + 32)
  else c.

Definition is_digit (c : ascii) : bool := in_range 48 57 c.

(** The blanks [int()] skips around a numeral. *)
Definition is_int_space (c : ascii) : bool :=
  in_range 9 13 c || is_code 32 c || is_code 133 c || is_code 160 c.

Definition tab : ascii := ascii_of_N 9.
Definition nl : ascii := ascii_of_N 10.
Definition cr : ascii := ascii_of_N 13.
Definition colon : ascii := ":"%char.

(** ** Strings *)

Definition str1 (c : ascii) : string := String c EmptyString.

Fixpoint str_filter (f : ascii -> bool) (s : string) : string :=
  match s with
  | EmptyString => EmptyString
  | String c s' => if f c then String c (str_filter f s') else str_filter f s'
  end.

Fixpoint str_map (f : ascii -> ascii) (s : string) : string :=
  match s with
  | EmptyString => EmptyString
  | String c s' => String (f c) (str_map f s')
  end.

Fixpoint str_forallb (f : ascii -> bool) (s : string) : bool :=
  match s with
  | EmptyString => true
  | String c s' => f c && str_forallb f s'
  end.

Definition str_len (s : string) : Z := Z.of_nat (String.length s).

Definition str_is_empty (s : string) : bool :=
  match s with EmptyString => true | String _ _ => false end.

(** A finished word, if any. *)
Definition flush (w : string) : list string :=
  match w with
  | EmptyString => []
  | String _ _ => [w]
  end.

(** [s.split()]: maximal runs of non-blank characters, [w] being the run
    under construction. *)
Fixpoint split_ws (w s : string) : list string :=
  match s with
  | EmptyString => flush w
  | String c s' =>
      if is_space c then flush w ++ split_ws EmptyString s'
      else split_ws (w ++ str1 c) s'
  end.

Definition py_split (s : string) : list string := split_ws EmptyString s.

Fixpoint lstrip_by (f : ascii -> bool) (s : string) : string :=
  match s with
  | EmptyString => EmptyString
  | String c s' => if f c then lstrip_by f s' else s
  end.

Fixpoint rstrip_by (f : ascii -> bool) (s : string) : string :=
  match s with
  | EmptyString => EmptyString
  | String c s' =>
      match rstrip_by f s' with
      | EmptyString => if f c then EmptyString else str1 c
      | String _ _ as r => String c r
      end
  end.

(** [s.strip()]. *)
Definition py_strip (s : string) : string := rstrip_by is_space (lstrip_by is_space s).

(** [s.split(sep)] for a non-empty separator: [skip] counts the characters
    of a separator occurrence still to be consumed, [w] is the field under
    construction. *)
Fixpoint split_sep_go (sep : string) (skip : nat) (w s : string) : list string :=
  match s with
  | EmptyString => [w]
  | String c s' =>
      match skip with
      | S k => split_sep_go sep k w s'
      | O =>
          if String.prefix sep s
          then w :: split_sep_go sep (Nat.pred (String.length sep)) EmptyString s'
          else split_sep_go sep O (w ++ str1 c) s'
      end
  end.

Definition py_split_sep (sep s : string) : list string :=
  split_sep_go sep O EmptyString s.

(** Normalisation of one bound of a slice [s[a:b]]. *)
Definition slice_bound (len i : Z) : Z :=
  if i <? 0 then Z.max (i + len) 0 else Z.min i len.

(** [s[a:b]]. *)
Definition py_slice (s : string) (a b : Z) : string :=
  let len := str_len s in
  let a' := slice_bound len a in
  let b' := slice_bound len b in
  if b' <=? a' then EmptyString
  else String.substring (Z.to_nat a') (Z.to_nat (b' - a')) s.

(** [s[i]]. *)
Definition py_index (s : string) (i : Z) : result ascii :=
  let len := str_len s in
  let i' := if i <? 0 then i + len else i in
  if (i' <? 0) || (len <=? i') then Raise IndexError
  else match String.get (Z.to_nat i') s with
       | Some c => Ok c
       | None => Raise IndexError
       end.

(** [sub in s]. *)
Fixpoint py_contains (sub s : string) : bool :=
  String.prefix sub s ||
  match s with
  | EmptyString => false
  | String _ s' => py_contains sub s'
  end.

(** The concatenation of a list of strings. *)
Fixpoint str_concat (l : list string) : string :=
  match l with
  | [] => EmptyString
  | x :: l' => x ++ str_concat l'
  end.

Fixpoint str_join (sep : string) (l : list string) : string :=
  match l with
  | [] => EmptyString
  | [x] => x
  | x :: l' => x ++ sep ++ str_join sep l'
  end.

(** ** Integers and their text *)

(** [str(z)]. *)
Definition py_str (z : Z) : string := NilZero.string_of_int (Z.to_int z).

(** [str(d)] for an identifier that may be [None]. *)
Definition py_str_id (d : option Z) : string :=
  match d with
  | Some z => py_str z
  | None => "None"
  end.

(** [str(l)] for a list of identifiers. *)
Definition py_str_ids (l : list (option Z)) : string :=
  "[" ++ str_join ", " (map py_str_id l) ++ "]".

Definition digit_val (c : ascii) : Z := Z.of_N (code c) - 48.

(** Digits of a numeral, single underscores allowed between digits;
    [prev] tells whether the previous character was a digit. *)
Fixpoint parse_digits (acc : Z) (prev : bool) (s : string) : option Z :=
  match s with
  | EmptyString => if prev then Some acc else None
  | String c s' =>
      if is_digit c then parse_digits (10 * acc + digit_val c) true s'
      else if is_code 95 c && prev then parse_digits acc false s'
      else None
  end.

(** [int(s)] for a string [s]. *)
Definition py_int_str (s : string) : result Z :=
  let body := rstrip_by is_int_space (lstrip_by is_int_space s) in
  let signed :=
    match body with
    | String "-"%char r => option_map Z.opp (parse_digits 0 false r)
    | String "+"%char r => parse_digits 0 false r
    | _ => parse_digits 0 false body
    end in
  match signed with
  | Some z => Ok z
  | None => Raise ValueError
  end.

(** ** Dictionaries and sorting *)

Section Dict.
Context {K V : Type} (keq : K -> K -> bool).

Fixpoint dict_get (k : K) (d : list (K * V)) : option V :=
  match d with
  | [] => None
  | (k', v) :: d' => if keq k k' then Some v else dict_get k d'
  end.

Fixpoint dict_set (k : K) (v : V) (d : list (K * V)) : list (K * V) :=
  match d with
  | [] => [(k, v)]
  | (k', v') :: d' =>
      if keq k k' then (k, v) :: d' else (k', v') :: dict_set k v d'
  end.

Definition dict_keys (d : list (K * V)) : list K := map fst d.
End Dict.

Section Sort.
Context {A : Type} (leb : A -> A -> bool).

Fixpoint insert_by (x : A) (l : list A) : list A :=
  match l with
  | [] => [x]
  | y :: l' => if leb x y then x :: l else y :: insert_by x l'
  end.

(** A stable sort: an element stays in front of the later elements it is
    not greater than. *)
Definition sort_by (l : list A) : list A := fold_right insert_by [] l.
End Sort.

(** [sorted(l)] on integers. *)
Definition sorted_Z (l : list Z) : list Z := sort_by Z.leb l.

Definition id_eqb (a b : option Z) : bool :=
  match a, b with
  | Some x, Some y => x =? y
  | None, None => true
  | _, _ => false
  end.

(** [d in l]. *)
Definition id_mem (d : option Z) (l : list (option Z)) : bool := existsb (id_eqb d) l.

Definition Z_mem (z : Z) (l : list Z) : bool := existsb (Z.eqb z) l.

Fixpoint all_ints (l : list (option Z)) : option (list Z) :=
  match l with
  | [] => Some []
  | Some z :: l' => option_map (cons z) (all_ints l')
  | None :: _ => None
  end.

(** [l.sort()] on a postings list: with two or more elements every element
    takes part in a comparison, and comparing [None] raises [TypeError]. *)
Definition py_sort_ids (l : list (option Z)) : result (list (option Z)) :=
  match l with
  | [] | [_] => Ok l
  | _ =>
      match all_ints l with
      | Some zs => Ok (map Some (sorted_Z zs))
      | None => Raise TypeError
      end
  end.

(** ** index.py: the data model *)

(** A JSON value of a document field, as [json.load] delivers it: [null],
    an integer or a string (the values a corpus of identifiers and texts
    holds; other JSON values are not part of the model). *)
Inductive json : Type :=
| JNull
| JInt (z : Z)
| JStr (s : string).

(** A document is the item list of its [dict], in field order. *)
Definition document : Type := list (string * json).
Definition corpus : Type := list document.

(** The value [{"DF": df, "postings": ps}] of one term. *)
Record entry : Type := mkEntry { DF : Z; postings : list (option Z) }.

Definition index_t : Type := list (string * entry).
Definition docindex_t : Type := list (Z * string).

Definition get_entry (t : string) (index : index_t) : option entry :=
  dict_get String.eqb t index.

Definition set_entry (t : string) (e : entry) (index : index_t) : index_t :=
  dict_set String.eqb t e index.

(** [int(v)] on a field value. *)
Definition py_int (v : json) : result Z :=
  match v with
  | JNull => Raise TypeError
  | JInt z => Ok z
  | JStr s => py_int_str s
  end.

(** [v == None or v == ""]. *)
Definition is_empty_content (v : json) : bool :=
  match v with
  | JNull => true
  | JStr s => str_is_empty s
  | JInt _ => false
  end.

(** [v.split()] on a field value; only strings have the method. *)
Definition py_split_json (v : json) : result (list string) :=
  match v with
  | JStr s => Ok (py_split s)
  | _ => Raise AttributeError
  end.

(** ** index.py: [generateIndex] *)

(** [re.sub(r'[^\w\s]', '', token).lower()] (line 54), on text of code points
    up to U+00FF: there [\w] is [is_word], [\s] is [is_space], and
    [str.lower] maps every character to one character of the range, given
    by [lower]. Beyond the range [str.lower] can give a character for
    several (U+0130 becomes [i] and the combining mark U+0307, which is not
    in [\w]); such text is outside the embedding. *)
Definition normalize (token : string) : string :=
  str_map lower (str_filter (fun c => is_word c || is_space c) token).

(** Lines 59-66: the update of the postings of [token] for [docId]. *)
Definition generateIndex_posting (docId : option Z) (token : string)
    (index : index_t) : result index_t :=
  match get_entry token index with
  | Some e =>
      if negb (id_mem docId (postings e)) then
        ps <- py_sort_ids (postings e ++ [docId]) ;;
        Ok (set_entry token (mkEntry (DF e + 1) ps) index)
      else Ok index
  | None => Ok (set_entry token (mkEntry 1 [docId]) index)
  end.

(** Lines 53-66: the loop over the words of one zone; the state is the
    document string and the index. *)
Fixpoint generateIndex_zone (docId : option Z) (words : list string)
    (docString : string) (index : index_t) : result (string * index_t) :=
  match words with
  | [] => Ok (docString, index)
  | word :: rest =>
      let token := normalize word in
      if negb (str_is_empty token) then
        index' <- generateIndex_posting docId token index ;;
        generateIndex_zone docId rest (docString ++ token ++ " ") index'
      else generateIndex_zone docId rest docString index
  end.

(** The variables live across the fields of one document. *)
Record doc_state : Type := mkDocState {
  ds_docId : option Z;
  ds_docString : string;
  ds_docIDs : list Z;
  ds_index : index_t
}.

(** Lines 37-66: the loop over the fields of one document. *)
Fixpoint generateIndex_fields (fields : document) (st : doc_state) : result doc_state :=
  match fields with
  | [] => Ok st
  | (key, v) :: rest =>
      if is_empty_content v then Raise SystemExit
      else if String.eqb key "doc_id" then
        docId <- py_int v ;;
        if Z_mem docId (ds_docIDs st) then Raise SystemExit
        else generateIndex_fields rest
               (mkDocState (Some docId) (ds_docString st)
                  (ds_docIDs st ++ [docId]) (ds_index st))
      else
        words <- py_split_json v ;;
        ' (docString, index) <- generateIndex_zone (ds_docId st) words
                                  (ds_docString st) (ds_index st) ;;
        generateIndex_fields rest
          (mkDocState (ds_docId st) docString (ds_docIDs st) index)
  end.

(** The variables live across the documents of the corpus. *)
Record build_state : Type := mkBuildState {
  bs_docIDs : list Z;
  bs_index : index_t;
  bs_docIndex : docindex_t
}.

(** Lines 28-72: one document. *)
Definition generateIndex_doc (doc : document) (st : build_state) : result build_state :=
  if (Z.of_nat (List.length doc) <=? 1) then Raise SystemExit
  else
    ds <- generateIndex_fields doc
            (mkDocState None "" (bs_docIDs st) (bs_index st)) ;;
    match ds_docId ds with
    | None => Raise SystemExit
    | Some docId =>
        Ok (mkBuildState (ds_docIDs ds) (ds_index ds)
              (dict_set Z.eqb docId (ds_docString ds) (bs_docIndex st)))
    end.

(** Lines 27-72: the loop over the corpus. *)
Fixpoint generateIndex_docs (c : corpus) (st : build_state) : result build_state :=
  match c with
  | [] => Ok st
  | doc :: rest =>
      st' <- generateIndex_doc doc st ;;
      generateIndex_docs rest st'
  end.

Definition key_leb {V : Type} (a b : string * V) : bool := String.leb (fst a) (fst b).
Definition id_leb {V : Type} (a b : Z * V) : bool := fst a <=? fst b.

(** [generateIndex(corpus)]; lines 75-76 sort both dictionaries by key (the
    keys of a dictionary differ, so the values are never compared). *)
Definition generateIndex (c : corpus) : result (index_t * docindex_t) :=
  st <- generateIndex_docs c (mkBuildState [] [] []) ;;
  Ok (sort_by key_leb (bs_index st), sort_by id_leb (bs_docIndex st)).

(** The words of a zone that reach the index: line 53-55. *)
Definition tokens_of (text : string) : list string :=
  filter (fun t => negb (str_is_empty t)) (map normalize (py_split text)).

(** ** index.py: [generateIndexFiles] and [buildIndex] *)

(** The part of the file system the programs touch: paths that exist, each a
    directory or a text file with its content. The content of a file is its
    decoded text, a line written by Python ending in one newline (where the
    platform writes a newline as carriage return and newline, reading hands
    it over as one newline again, so the two views agree on every text
    without carriage return). Reading translates line ends, see
    [lines_go]. *)
Inductive node : Type :=
| Dir
| File (content : string).

Definition filesystem : Type := list (string * node).

Definition fs_get (path : string) (fs : filesystem) : option node :=
  dict_get String.eqb path fs.

Definition fs_set (path : string) (n : node) (fs : filesystem) : filesystem :=
  dict_set String.eqb path n fs.

(** Line 113: one line of docIndex.tsv. *)
Definition docIndex_line (doc : Z * string) : string :=
  py_str (fst doc) ++ str1 tab ++ snd doc ++ str1 nl.

(** Line 118: one line of index.tsv. *)
Definition index_line (item : string * entry) : string :=
  fst item ++ str1 tab ++ py_str (DF (snd item)) ++ str1 tab
  ++ py_str_ids (postings (snd item)) ++ str1 nl.

Definition write_lines {A : Type} (line : A -> string) (l : list A) : string :=
  str_concat (map line l).

(** [generateIndexFiles(indexFileLoc, indexes)]: an existing index folder is
    reported and nothing is written (lines 92-96); otherwise the folder is
    made, both files are opened for writing, and the document index is
    written before the inverted index. The function gives the file system
    after a call in which the operating system carries out [os.mkdir] and
    both [open]: a failure other than the existing folder (a missing parent
    directory, a refused permission) raises an exception the function does
    not catch, writes nothing, and is not part of the model. *)
Definition generateIndexFiles (indexFileLoc : string)
    (indexes : index_t * docindex_t) (fs : filesystem) : filesystem :=
  let loc := (indexFileLoc ++ "\index")%string in
  match fs_get loc fs with
  | Some _ => fs
  | None =>
      let fs1 := fs_set loc Dir fs in
      let fs2 := fs_set (loc ++ "\index.tsv") (File "") fs1 in
      let fs3 := fs_set (loc ++ "\docIndex.tsv") (File "") fs2 in
      let fs4 := fs_set (loc ++ "\docIndex.tsv")
                   (File (write_lines docIndex_line (snd indexes))) fs3 in
      fs_set (loc ++ "\index.tsv") (File (write_lines index_line (fst indexes))) fs4
  end.

(** [buildIndex(corpusPath, indexPath)], the corpus file already parsed:
    [None] stands for a corpus file that is not found (lines 134-138).
    Line 144 evaluates [generateIndex(corpus)], which touches no file, before
    it calls [generateIndexFiles]; the result is the outcome of the run and
    the file system it leaves. *)
Definition buildIndex (corpusFile : option corpus) (indexPath : string)
    (fs : filesystem) : result unit * filesystem :=
  match corpusFile with
  | None => (Ok tt, fs)
  | Some c =>
      match generateIndex c with
      | Ok indexes => (Ok tt, generateIndexFiles indexPath indexes fs)
      | Raise e => (Raise e, fs)
      end
  end.

(** ** query.py: [buildIndexes] *)

(** Iteration over a text file opened with the default [newline=None]: a
    line ends at a newline, at a carriage return or at a carriage return
    followed by a newline, and each of them is handed over as one newline;
    a last line without line end is handed over as it is. *)
Fixpoint lines_go (cur s : string) : list string :=
  match s with
  | EmptyString => flush cur
  | String c s' =>
      if Ascii.eqb c nl then (cur ++ str1 nl)%string :: lines_go EmptyString s'
      else if Ascii.eqb c cr then
        match s' with
        | String c' s'' =>
            if Ascii.eqb c' nl then (cur ++ str1 nl)%string :: lines_go EmptyString s''
            else (cur ++ str1 nl)%string :: lines_go EmptyString s'
        | EmptyString => [(cur ++ str1 nl)%string]
        end
      else lines_go (cur ++ str1 c) s'
  end.

Definition file_lines (content : string) : list string := lines_go EmptyString content.

Fixpoint map_result {A B : Type} (f : A -> result B) (l : list A) : result (list B) :=
  match l with
  | [] => Ok []
  | x :: l' =>
      y <- f x ;;
      ys <- map_result f l' ;;
      Ok (y :: ys)
  end.

(** Lines 132-139: one line of index.tsv. *)
Definition buildIndexes_index_line (line : string) (index : index_t) : result index_t :=
  match py_split_sep (str1 tab) line with
  | [token; df; ps] =>
      let ps' := py_split_sep ", " (py_slice ps 1 (str_len ps - 2)) in
      postingsInt <- map_result py_int_str ps' ;;
      df' <- py_int_str df ;;
      Ok (set_entry token (mkEntry df' (map Some postingsInt)) index)
  | _ => Raise ValueError
  end.

(** Lines 143-145: one line of docIndex.tsv. *)
Definition buildIndexes_doc_line (line : string) (docIndex : docindex_t) : result docindex_t :=
  match py_split_sep (str1 tab) line with
  | [docId; docString] =>
      docId' <- py_int_str docId ;;
      Ok (dict_set Z.eqb docId' (py_slice docString 0 (str_len docString - 2)) docIndex)
  | _ => Raise ValueError
  end.

Fixpoint fold_result {A S : Type} (f : A -> S -> result S) (l : list A) (s : S) : result S :=
  match l with
  | [] => Ok s
  | x :: l' =>
      s' <- f x s ;;
      fold_result f l' s'
  end.

(** [open(path, "r")] and the reading of the whole file; a missing file is
    reported and ends the program (lines 119-128), a directory cannot be
    opened. *)
Definition read_file (path : string) (fs : filesystem) : result string :=
  match fs_get path fs with
  | Some (File content) => Ok content
  | Some Dir => Raise OSError
  | None => Raise SystemExit
  end.

(** [buildIndexes(indexPath)]. *)
Definition buildIndexes (indexPath : string) (fs : filesystem)
    : result (index_t * docindex_t) :=
  indexFile <- read_file (indexPath ++ "\index.tsv") fs ;;
  docIndexFile <- read_file (indexPath ++ "\docIndex.tsv") fs ;;
  index <- fold_result buildIndexes_index_line (file_lines indexFile) [] ;;
  docIndex <- fold_result buildIndexes_doc_line (file_lines docIndexFile) [] ;;
  Ok (index, docIndex).

(** The text of the two files for a pair of indexes, and the indexes read
    back from the text of two files. *)
Definition serialize (indexes : index_t * docindex_t) : string * string :=
  (write_lines index_line (fst indexes), write_lines docIndex_line (snd indexes)).

Definition deserialize (files : string * string) : result (index_t * docindex_t) :=
  index <- fold_result buildIndexes_index_line (file_lines (fst files)) [] ;;
  docIndex <- fold_result buildIndexes_doc_line (file_lines (snd files)) [] ;;
  Ok (index, docIndex).


(** ** query.py: [parseQuery] *)

(** The variables of the loop of [parseQuery]. *)
Record parse_state : Type := mkParseState {
  keywords : list string;
  phrases : list string;
  phrase : string;
  isPhrase : bool
}.

(** Lines 170-179: a term that starts with the delimiter toggles the flag,
    closes the phrase under construction when the flag falls, and ends the
    program when it is the delimiter alone. *)
Definition parseQuery_toggle (term : string) (st : parse_state) : result parse_state :=
  c <- py_index term 0 ;;
  if Ascii.eqb c colon then
    let flag := negb (isPhrase st) in
    let st1 :=
      if negb flag
      then mkParseState (keywords st) (phrases st ++ [py_strip (phrase st)]) "" flag
      else mkParseState (keywords st) (phrases st) (phrase st) flag in
    if str_len term =? 1 then Raise SystemExit else Ok st1
  else Ok st.

(** Lines 180-201. *)
Definition parseQuery_collect (term : string) (st : parse_state) : result parse_state :=
  if isPhrase st then
    c <- py_index term 0 ;;
    if Ascii.eqb c colon then
      d <- py_index term (str_len term - 1) ;;
      if Ascii.eqb d colon then
        let p := py_slice term 1 (str_len term - 1) in
        Ok (mkParseState (keywords st) (phrases st ++ [py_strip p]) "" (isPhrase st))
      else
        Ok (mkParseState (keywords st) (phrases st)
              (phrase st ++ py_slice term 1 (str_len term) ++ " ") (isPhrase st))
    else
      d <- py_index term (str_len term - 1) ;;
      if Ascii.eqb d colon then
        let p := (phrase st ++ py_slice term 0 (str_len term - 1) ++ " ")%string in
        Ok (mkParseState (keywords st) (phrases st ++ [py_strip p]) "" false)
      else
        Ok (mkParseState (keywords st) (phrases st) (phrase st ++ term ++ " ") (isPhrase st))
  else
    Ok (mkParseState (keywords st ++ [term]) (phrases st) (phrase st) (isPhrase st)).

(** Lines 168-201: one term. *)
Definition parseQuery_term (term : string) (st : parse_state) : result parse_state :=
  st1 <- parseQuery_toggle term st ;;
  parseQuery_collect term st1.

Definition parse_init : parse_state := mkParseState [] [] "" false.

(** The loop of [parseQuery], from any state. *)
Definition parseQuery_loop (query : list string) (st : parse_state) : result parse_state :=
  fold_result parseQuery_term query st.

(** [parseQuery(query)]. *)
Definition parseQuery (query : list string) : result (list string * list string) :=
  st <- parseQuery_loop query parse_init ;;
  Ok (keywords st, phrases st).

(** ** query.py: [getPhraseResults] *)

(** [list(set(docs) & set(postings))]: the documents of [docs] that occur in
    [ps], each once. The order in which Python iterates the set is not
    specified; the results below are sorted or counted. *)
Definition inter_ids (docs : list Z) (ps : list (option Z)) : list Z :=
  nodup Z.eq_dec (filter (fun d => id_mem (Some d) ps) docs).

(** Lines 81-88: the loop over the terms of a phrase; a term that is not in
    the index leaves the loop ([break]). *)
Fixpoint getPhraseResults_terms (index : index_t) (terms : list string)
    (docs : list Z) : list Z :=
  match terms with
  | [] => docs
  | term :: rest =>
      match get_entry term index with
      | None => docs
      | Some e => getPhraseResults_terms index rest (inter_ids docs (postings e))
      end
  end.

(** Lines 90-97: the loop over the documents left for a phrase. *)
Fixpoint getPhraseResults_docs (docIndex : docindex_t) (p : string) (docs : list Z)
    (phraseResults consideredDocs : list Z) : result (list Z * list Z) :=
  match docs with
  | [] => Ok (phraseResults, consideredDocs)
  | doc :: rest =>
      match dict_get Z.eqb doc docIndex with
      | None => Raise KeyError
      | Some text =>
          let phraseResults' :=
            if py_contains (py_strip p) text && negb (Z_mem doc phraseResults)
            then phraseResults ++ [doc] else phraseResults in
          let consideredDocs' :=
            if negb (Z_mem doc consideredDocs)
            then consideredDocs ++ [doc] else consideredDocs in
          getPhraseResults_docs docIndex p rest phraseResults' consideredDocs'
      end
  end.

(** Lines 76-97: one phrase. *)
Definition getPhraseResults_phrase (index : index_t) (docIndex : docindex_t)
    (p : string) (acc : list Z * list Z) : result (list Z * list Z) :=
  let docs := getPhraseResults_terms index (py_split p) (dict_keys docIndex) in
  getPhraseResults_docs docIndex p docs (fst acc) (snd acc).

(** [getPhraseResults(index, docIndex, phrases)]. *)
Definition getPhraseResults (index : index_t) (docIndex : docindex_t)
    (ps : list string) : result (list Z * Z) :=
  match ps with
  | [] => Ok (sorted_Z (dict_keys docIndex), Z.of_nat (List.length (dict_keys docIndex)))
  | _ =>
      ' (phraseResults, consideredDocs) <-
          fold_result (getPhraseResults_phrase index docIndex) ps ([], []) ;;
      Ok (sorted_Z phraseResults, Z.of_nat (List.length consideredDocs))
  end.

(** ** query.py: [cosineScore] *)

(** [float(n)] for a length [n]; exact below 2^53. *)
Definition py_float (n : nat) : PrimFloat.float := PrimFloat.of_uint63 (Uint63.of_Z (Z.of_nat n)).

(** Lines 24-27. [lengths[doc]] is [float(n)] for the number [n] of words of
    the document; the model keeps [n] and converts it where line 48 divides,
    [float(n)] being [0.0] exactly when [n] is 0. *)
Fixpoint cosineScore_init (docIndex : docindex_t) (docs : list Z)
    (scores : list (Z * PrimFloat.float)) (lengths : list (Z * nat))
    : result (list (Z * PrimFloat.float) * list (Z * nat)) :=
  match docs with
  | [] => Ok (scores, lengths)
  | doc :: rest =>
      let scores' := dict_set Z.eqb doc PrimFloat.zero scores in
      match dict_get Z.eqb doc docIndex with
      | None => Raise KeyError
      | Some text =>
          cosineScore_init docIndex rest scores'
            (dict_set Z.eqb doc (List.length (py_split text)) lengths)
      end
  end.

(** Lines 39-43. *)
Fixpoint cosineScore_add (termWeight : PrimFloat.float) (intersect : list Z)
    (scores : list (Z * PrimFloat.float)) : list (Z * PrimFloat.float) :=
  match intersect with
  | [] => scores
  | doc :: rest =>
      let scores' :=
        match dict_get Z.eqb doc scores with
        | Some s => dict_set Z.eqb doc (PrimFloat.add s termWeight) scores
        | None => dict_set Z.eqb doc termWeight scores
        end in
      cosineScore_add termWeight rest scores'
  end.

(** Lines 29-43: the loop over the keywords, [n] being [len(keywords)]. *)
Fixpoint cosineScore_terms (index : index_t) (n : nat) (terms : list string)
    (docs : list Z) (scores : list (Z * PrimFloat.float)) : list (Z * PrimFloat.float) :=
  match terms with
  | [] => scores
  | term :: rest =>
      let termWeight := PrimFloat.div PrimFloat.one (py_float n) in
      match get_entry term index with
      | None => cosineScore_terms index n rest docs scores
      | Some e =>
          cosineScore_terms index n rest docs
            (cosineScore_add termWeight (inter_ids docs (postings e)) scores)
      end
  end.

(** Lines 46-48: the division raises on a document without words. *)
Fixpoint cosineScore_divide (scores : list (Z * PrimFloat.float)) (lengths : list (Z * nat))
    (cosineScores : list (Z * PrimFloat.float)) : result (list (Z * PrimFloat.float)) :=
  match lengths with
  | [] => Ok cosineScores
  | (doc, n) :: rest =>
      match dict_get Z.eqb doc scores with
      | None => Raise KeyError
      | Some s =>
          if Nat.eqb n 0 then Raise ZeroDivisionError
          else cosineScore_divide scores rest
                 (dict_set Z.eqb doc (PrimFloat.div s (py_float n)) cosineScores)
      end
  end.

(** The order of [sorted(..., key=..., reverse=True)]: descending and stable. *)
Definition score_geb (a b : Z * PrimFloat.float) : bool := negb (PrimFloat.ltb (snd a) (snd b)).

Definition positive_score (item : Z * PrimFloat.float) : bool := PrimFloat.ltb PrimFloat.zero (snd item).

(** [l[0:k]]. *)
Definition list_slice0 {A : Type} (l : list A) (k : Z) : list A :=
  firstn (Z.to_nat (slice_bound (Z.of_nat (List.length l)) k)) l.

(** [cosineScore(index, docIndex, keywords, docs, numResults)]. *)
Definition cosineScore (index : index_t) (docIndex : docindex_t) (kws : list string)
    (docs : list Z) (numResults : Z) : result (list (Z * PrimFloat.float) * Z) :=
  ' (scores, lengths) <- cosineScore_init docIndex docs [] [] ;;
  let scores' := cosineScore_terms index (List.length kws) kws docs scores in
  cosineScores <- cosineScore_divide scores' lengths [] ;;
  let ranked := filter positive_score (sort_by score_geb cosineScores) in
  Ok (list_slice0 ranked numResults, Z.of_nat (List.length ranked)).

(** ** query.py: [main], after the checks of the command line *)

Record query_output : Type := mkOutput {
  numDocsConsidered : Z;
  nonZeroScoreDocs : Z;
  scores_out : list (Z * PrimFloat.float)
}.

Definition query_main (indexPath : string) (numResults : Z) (query : list string)
    (fs : filesystem) : result query_output :=
  ' (kws, ps) <- parseQuery query ;;
  ' (index, docIndex) <- buildIndexes indexPath fs ;;
  let kws' := kws ++ flat_map py_split ps in
  ' (docs, considered) <- getPhraseResults index docIndex ps ;;
  ' (scores, nonZero) <- cosineScore index docIndex kws' docs numResults ;;
  Ok (mkOutput considered nonZero scores).


(** ** Statements used below *)

(** What one step of the parser can do, by the shape of the token. *)
Definition term_outcome (term : string) (r : result parse_state) : Prop :=
  match r with
  | Ok _ => term <> "" /\ term <> ":"
  | Raise IndexError => term = ""
  | Raise SystemExit => term = ":"
  | Raise _ => False
  end.

(** Strict ascent on identifiers; [None] is not comparable. *)
Definition id_lt (a b : option Z) : Prop :=
  match a, b with
  | Some x, Some y => x < y
  | _, _ => False
  end.

(** The invariant of a postings entry. *)
Definition entry_ok (e : entry) : Prop :=
  DF e = Z.of_nat (List.length (postings e))
  /\ StronglySorted id_lt (postings e)
  /\ NoDup (postings e).

Definition index_ok (index : index_t) : Prop :=
  forall t e, In (t, e) index -> entry_ok e.

Definition lower_word (c : ascii) : bool := is_word c && Ascii.eqb (lower c) c.

(** The text a zone adds to the document string. *)
Definition zone_text (tokens : list string) : string :=
  str_concat (map (fun t => t ++ " ")%string tokens).

(** The first identifier field of a document, when it converts. *)
Definition doc_id_of (doc : document) : option Z :=
  match dict_get String.eqb "doc_id" doc with
  | Some v => match py_int v with Ok z => Some z | Raise _ => None end
  | None => None
  end.

(** The four violations of the validation rules. *)
Definition too_few_fields (doc : document) : bool := (List.length doc <=? 1)%nat.

Definition has_empty_content (doc : document) : bool :=
  existsb (fun kv => is_empty_content (snd kv)) doc.

Definition lacks_identifier (doc : document) : bool :=
  negb (existsb (fun kv => String.eqb (fst kv) "doc_id") doc).

Definition duplicate_identifier (c : corpus) : Prop :=
  exists i j di dj z,
    (i < j)%nat /\ nth_error c i = Some di /\ nth_error c j = Some dj
    /\ doc_id_of di = Some z /\ doc_id_of dj = Some z.

Definition violation (c : corpus) : Prop :=
  (exists doc, In doc c
     /\ (too_few_fields doc = true \/ has_empty_content doc = true
         \/ lacks_identifier doc = true))
  \/ duplicate_identifier c.

Definition no_space (s : string) : bool := str_forallb (fun c => negb (is_space c)) s.

Definition token_shape (t : string) : Prop := t <> "" /\ str_forallb lower_word t = true.

(** ** Sample inputs *)

Definition fox_corpus : corpus :=
  [ [("doc_id", JStr "2"); ("title", JStr "The quick, brown fox!"); ("body", JStr "fox  dog")];
    [("doc_id", JInt 1); ("body", JStr "Brown dog -- fox ...")] ].

Definition fox_index : index_t :=
  [ ("brown", mkEntry 2 [Some 1; Some 2]);
    ("dog", mkEntry 2 [Some 1; Some 2]);
    ("fox", mkEntry 2 [Some 1; Some 2]);
    ("quick", mkEntry 1 [Some 2]);
    ("the", mkEntry 1 [Some 2]) ].

Definition fox_docIndex : docindex_t :=
  [ (1, "brown dog fox "); (2, "the quick brown fox fox dog ") ].


Definition duplicate_corpus : corpus :=
  [ [("doc_id", JInt 7); ("body", JStr "first")];
    [("doc_id", JStr "7"); ("body", JStr "second")] ].

(** The term [t] has postings that hold [None]. *)
Definition has_null (t : string) (index : index_t) : Prop :=
  exists e, get_entry t index = Some e /\ In None (postings e).

Definition zone_first_corpus : corpus :=
  [ [("body", JStr "Hello world"); ("doc_id", JInt 5)] ].

Definition mixed_corpus : corpus :=
  [ [("doc_id", JInt 1); ("body", JStr "hello")];
    [("body", JStr "hello"); ("doc_id", JInt 2)] ].

(** *** The scorer, the way the specification words it *)

(** The postings of [term] hold the document [doc]. *)
Definition term_hits (index : index_t) (doc : Z) (term : string) : bool :=
  match get_entry term index with
  | Some e => id_mem (Some doc) (postings e)
  | None => false
  end.

(** The uniform weight [1 / numberOfKeywordTerms]. *)
Definition uniform_weight (kws : list string) : PrimFloat.float :=
  PrimFloat.div PrimFloat.one (py_float (List.length kws)).

(** The raw score: the weights of the keyword entries whose postings hold
    the document, added up in the order of the keyword list. *)
Definition raw_score (index : index_t) (kws : list string) (doc : Z) : PrimFloat.float :=
  fold_left
    (fun acc term =>
       if term_hits index doc term then PrimFloat.add acc (uniform_weight kws) else acc)
    kws PrimFloat.zero.

(** The number of whitespace-delimited tokens of the stored text. *)
Definition document_length (docIndex : docindex_t) (doc : Z) : nat :=
  match dict_get Z.eqb doc docIndex with
  | Some text => List.length (py_split text)
  | None => O
  end.

Definition normalized_score (index : index_t) (docIndex : docindex_t)
    (kws : list string) (doc : Z) : PrimFloat.float :=
  PrimFloat.div (raw_score index kws doc) (py_float (document_length docIndex doc)).

(** The candidates, each once, in the order of their first occurrence. *)
Definition dedup_from (seen docs : list Z) : list Z :=
  fold_left (fun acc d => if Z_mem d acc then acc else acc ++ [d]) docs seen.

Definition dedup (docs : list Z) : list Z := dedup_from [] docs.

(** The candidates with a positive score, by descending score. *)
Definition ranking (index : index_t) (docIndex : docindex_t) (kws : list string)
    (docs : list Z) : list (Z * PrimFloat.float) :=
  filter positive_score
    (sort_by score_geb
       (map (fun d => (d, normalized_score index docIndex kws d)) (dedup docs))).

Definition punctuation_corpus : corpus :=
  [ [("doc_id", JInt 7); ("body", JStr "?!")] ].

(** The step of the raw score for one keyword. *)
Definition score_step (index : index_t) (w : PrimFloat.float) (d : Z)
    (acc : PrimFloat.float) (term : string) : PrimFloat.float :=
  if term_hits index d term then PrimFloat.add acc w else acc.

(** The forward index of [fox_corpus] as [buildIndexes] reads it back. *)
Definition fox_loaded_docIndex : docindex_t :=
  [ (1, "brown dog fox"); (2, "the quick brown fox fox dog") ].

(** The string [s] does not hold the character [x]. *)
Definition lacks (x : ascii) (s : string) : bool :=
  str_forallb (fun c => negb (Ascii.eqb c x)) s.

(** The characters of a numeral. *)
Definition num_char (c : ascii) : bool := is_digit c || is_code 45 c.

(** The string [s] without its last character. *)
Definition chop (s : string) : string :=
  String.substring 0 (String.length s - 1) s.

(** The characters of a document string: those of the tokens, and blanks. *)
Definition text_char (c : ascii) : bool := lower_word c || Ascii.eqb c " ".

(** The forward index as [buildIndexes] reads it back after a build. *)
Definition chop_texts (docIndex : docindex_t) : docindex_t :=
  map (fun it => (fst it, chop (snd it))) docIndex.

(** The characters of a written postings list when no posting is [None]. *)
Definition ids_char (c : ascii) : bool :=
  num_char c || Ascii.eqb c "," || Ascii.eqb c " " || Ascii.eqb c "[" || Ascii.eqb c "]".

(** The written lines without their newline. *)
Definition index_body (item : string * entry) : string :=
  fst item ++ str1 tab ++ py_str (DF (snd item)) ++ str1 tab
  ++ py_str_ids (postings (snd item)).

Definition docIndex_body (doc : Z * string) : string :=
  py_str (fst doc) ++ str1 tab ++ snd doc.

(** What the reader of index.tsv needs of an entry: a term without tab,
    newline or carriage return, and postings that are a non-empty list of
    integers. *)
Definition readable_item (item : string * entry) : Prop :=
  lacks tab (fst item) = true /\ lacks nl (fst item) = true
  /\ lacks cr (fst item) = true
  /\ exists zs, zs <> [] /\ postings (snd item) = map Some zs.

Definition readable_doc (doc : Z * string) : Prop :=
  str_forallb text_char (snd doc) = true.

Definition keys_distinct_postings_nonempty (index : index_t) : Prop :=
  NoDup (dict_keys index) /\ forall t e, In (t, e) index -> postings e <> [].

Definition docIndex_readable (docIndex : docindex_t) : Prop :=
  NoDup (dict_keys docIndex) /\ Forall readable_doc docIndex.

Definition starts_with_colon (t : string) : bool :=
  match t with
  | String c _ => Ascii.eqb c colon
  | EmptyString => false
  end.

Fixpoint last_char (t : string) : option ascii :=
  match t with
  | EmptyString => None
  | String c EmptyString => Some c
  | String _ t' => last_char t'
  end.

Definition ends_with_colon (t : string) : bool :=
  match last_char t with
  | Some c => Ascii.eqb c colon
  | None => false
  end.

(** A token that is a keyword wherever the parser is outside a phrase. *)
Definition plain_keyword (t : string) : Prop := t <> "" /\ starts_with_colon t = false.

(** A token that neither opens nor closes a phrase. *)
Definition inner_token (t : string) : Prop :=
  t <> "" /\ starts_with_colon t = false /\ ends_with_colon t = false.

(** The terms of a phrase up to the first one that is not in the index: the
    terms the loop of lines 81-88 intersects before it leaves. *)
Fixpoint known_prefix (index : index_t) (terms : list string) : list string :=
  match terms with
  | [] => []
  | term :: rest =>
      match get_entry term index with
      | Some _ => term :: known_prefix index rest
      | None => []
      end
  end.

(** The text of the document holds the stripped phrase (line 92). *)
Definition holds_phrase (docIndex : docindex_t) (p : string) (d : Z) : Prop :=
  exists text, dict_get Z.eqb d docIndex = Some text /\ py_contains (py_strip p) text = true.

(** The documents line 90 goes through for a phrase. *)
Definition considered_for (index : index_t) (docIndex : docindex_t) (p : string) (d : Z) : Prop :=
  In d (dict_keys docIndex)
  /\ forall term, In term (known_prefix index (py_split p)) -> term_hits index d term = true.

(** The candidates the scorer can score: documents of the forward index with
    at least one token in their stored text. *)
Definition scorable (docIndex : docindex_t) (docs : list Z) : Prop :=
  forall d, In d docs ->
    exists text, dict_get Z.eqb d docIndex = Some text /\ py_split text <> [].

(** The (identifier, token) pairs the loop over the fields of a document
    records, in order; [docId] is the identifier read so far. *)
Fixpoint emitted_fields (fields : document) (docId : option Z) : list (option Z * string) :=
  match fields with
  | [] => []
  | (key, v) :: rest =>
      if String.eqb key "doc_id"
      then emitted_fields rest (match py_int v with Ok z => Some z | Raise _ => docId end)
      else (match v with
            | JStr s => map (pair docId) (tokens_of s)
            | _ => []
            end) ++ emitted_fields rest docId
  end.

Definition emitted (c : corpus) : list (option Z * string) :=
  flat_map (fun doc => emitted_fields doc None) c.

(** The tokens of the zones of a document, in field order. *)
Definition doc_tokens (doc : document) : list string :=
  flat_map (fun kv =>
              if String.eqb (fst kv) "doc_id" then []
              else match snd kv with
                   | JStr s => tokens_of s
                   | _ => []
                   end) doc.

(** The identifier [d] is in the postings of the term [t]. *)
Definition posted (index : index_t) (t : string) (d : option Z) : Prop :=
  exists e, get_entry t index = Some e /\ In d (postings e).

(** A document whose first field is the identifier, with an identifier that
    converts, and whose other fields are not the identifier field. *)
Definition identifier_first (doc : document) : Prop :=
  exists v zones z,
    doc = ("doc_id", v) :: zones /\ py_int v = Ok z /\ ~ In "doc_id" (map fst zones).

(** No postings list of the index holds [None]. *)
Definition ints_only (index : index_t) : Prop :=
  forall t e, In (t, e) index -> ~ In None (postings e).

(** A document the build accepts: the identifier comes first and converts,
    at least one zone follows, and every zone is a non-empty string. *)
Definition well_formed_doc (doc : document) : Prop :=
  identifier_first doc
  /\ (2 <= List.length doc)%nat
  /\ forall key v, In (key, v) doc -> key <> "doc_id" -> exists s, v = JStr s /\ s <> "".

(** [main(args)] of query.py: the help request and the checks of the
    arguments (lines 215-232) end the program; [int] fails on the text of
    the limit with [ValueError] only, which line 230 turns into the end of
    the program. *)
Definition query_cli (args : list string) (fs : filesystem) : result query_output :=
  if existsb (String.eqb "-h") args || existsb (String.eqb "--help") args
     || (List.length args =? 0)%nat
  then Raise SystemExit
  else if (List.length args <? 3)%nat then Raise SystemExit
  else
    match args with
    | indexPath :: num :: query =>
        match py_int_str num with
        | Ok n => if n <=? 0 then Raise SystemExit else query_main indexPath n query fs
        | Raise ValueError => Raise SystemExit
        | Raise e => Raise e
        end
    | _ => Raise IndexError
    end.

(** [main(args)] of index.py; [load] stands for the opening and the parsing
    of the corpus file, [None] for a file that is not found. The help
    request and a wrong number of arguments are reported, and the program
    returns (lines 155-162). *)
Definition index_cli (args : list string) (load : string -> option corpus)
    (fs : filesystem) : result unit * filesystem :=
  if existsb (String.eqb "-h") args || existsb (String.eqb "--help") args
     || (List.length args =? 0)%nat
  then (Ok tt, fs)
  else if negb (List.length args =? 2)%nat then (Ok tt, fs)
  else
    match args with
    | [corpusPath; indexPath] => buildIndex (load corpusPath) indexPath fs
    | _ => (Ok tt, fs)
    end.

(** The document holds the term as a token of one of its zones. *)
Definition has_token (t : string) (doc : document) : bool :=
  existsb (String.eqb t) (doc_tokens doc).

(** CPython's default limit on the conversions between [int] and [str]: a
    numeral of more than 4300 digits is refused with [ValueError]. The
    models of [int] and [str] have no such limit; where a statement depends
    on the conversions going through, the limit is a hypothesis on the
    integers. *)
Definition within_digit_limit (z : Z) : Prop :=
  (String.length (py_str (Z.abs z)) <= 4300)%nat.

Definition item_within_limit (item : string * entry) : Prop :=
  within_digit_limit (DF (snd item))
  /\ forall z, In (Some z) (postings (snd item)) -> within_digit_limit z.

(** * Properties *)

(** ** Strings and indexing *)

Lemma str_len_String (c : ascii) (s : string) : str_len (String c s) = str_len s + 1.
Proof. unfold str_len; simpl String.length; lia. Qed.

Lemma str_len_nonneg (s : string) : 0 <= str_len s.
Proof. unfold str_len; lia. Qed.

Lemma get_in_range (s : string) (n : nat) :
  (n < String.length s)%nat -> exists c, String.get n s = Some c.
Proof.
  revert n; induction s as [|a s IH]; intros n Hn; simpl in Hn.
  - lia.
  - destruct n as [|n]; simpl.
    + now exists a.
    + apply IH; lia.
Qed.

Lemma py_index_empty (i : Z) : py_index "" i = Raise IndexError.
Proof.
  unfold py_index; change (str_len "") with 0.
  destruct (i <? 0) eqn:Hi.
  - rewrite Z.add_0_r, Hi; reflexivity.
  - replace (0 <=? i) with true by (symmetry; apply Z.leb_le; apply Z.ltb_ge in Hi; lia).
    now rewrite orb_true_r.
Qed.

Lemma py_index_first (c : ascii) (s : string) : py_index (String c s) 0 = Ok c.
Proof.
  unfold py_index; rewrite str_len_String.
  pose proof (str_len_nonneg s) as Hs.
  change (0 <? 0) with false; cbv iota.
  replace (str_len s + 1 <=? 0) with false by (symmetry; apply Z.leb_gt; lia).
  reflexivity.
Qed.

Lemma py_index_last (c : ascii) (s : string) :
  exists d, py_index (String c s) (str_len (String c s) - 1) = Ok d.
Proof.
  unfold py_index; rewrite str_len_String.
  pose proof (str_len_nonneg s) as Hs.
  replace (str_len s + 1 - 1) with (str_len s) by lia.
  assert (H1 : (str_len s <? 0) = false) by (apply Z.ltb_ge; lia).
  assert (H2 : (str_len s + 1 <=? str_len s) = false) by (apply Z.leb_gt; lia).
  rewrite H1, H1, H2; cbv [orb].
  destruct (get_in_range (String c s) (Z.to_nat (str_len s))) as [d Hd].
  - unfold str_len; rewrite Nat2Z.id; simpl; lia.
  - exists d; now rewrite Hd.
Qed.

(** ** The parser never fails but on an empty token or a lone delimiter *)

Lemma parseQuery_term_outcome (term : string) (st : parse_state) :
  term_outcome term (parseQuery_term term st).
Proof.
  destruct term as [|c s].
  - unfold parseQuery_term, parseQuery_toggle; rewrite py_index_empty; reflexivity.
  - unfold parseQuery_term, parseQuery_toggle.
    rewrite py_index_first; cbn [bind].
    destruct (py_index_last c s) as [d Hd].
    assert (Hcollect : forall st', exists st'', parseQuery_collect (String c s) st' = Ok st'').
    { intros st'; unfold parseQuery_collect.
      rewrite py_index_first, Hd; cbn [bind].
      destruct (isPhrase st'), (Ascii.eqb c colon), (Ascii.eqb d colon); eexists; reflexivity. }
    destruct (Ascii.eqb c colon) eqn:Hc.
    + destruct (str_len (String c s) =? 1) eqn:Hl.
      * cbn [bind term_outcome].
        apply Ascii.eqb_eq in Hc; subst c.
        rewrite str_len_String in Hl; apply Z.eqb_eq in Hl.
        destruct s; [reflexivity|].
        rewrite str_len_String in Hl; pose proof (str_len_nonneg s); lia.
      * cbn [bind].
        match goal with |- term_outcome _ (parseQuery_collect _ ?x) =>
          destruct (Hcollect x) as [st'' ->] end.
        cbn [term_outcome]; split; [discriminate|].
        intros E; rewrite E in Hl; discriminate.
    + cbn [bind]; destruct (Hcollect st) as [st'' ->].
      cbn [term_outcome]; split; [discriminate|].
      intros E; injection E as -> _; discriminate.
Qed.

Lemma parseQuery_term_lone (st : parse_state) : parseQuery_term ":" st = Raise SystemExit.
Proof.
  pose proof (parseQuery_term_outcome ":" st) as H.
  destruct (parseQuery_term ":" st) as [st'|[]]; cbn in H;
    try reflexivity; try contradiction; try discriminate.
  now destruct H as [_ H].
Qed.

Lemma parseQuery_term_blank (st : parse_state) : parseQuery_term "" st = Raise IndexError.
Proof.
  unfold parseQuery_term, parseQuery_toggle; rewrite py_index_empty; reflexivity.
Qed.

(** The loop stops at the first token that is empty or a lone delimiter. *)
Lemma parseQuery_loop_stops_lone (pre post : list string) (st : parse_state) :
  ~ In "" pre -> parseQuery_loop (pre ++ ":" :: post) st = Raise SystemExit.
Proof.
  revert st; induction pre as [|t pre IH]; intros st Hpre; unfold parseQuery_loop in *; cbn [app fold_result].
  - now rewrite parseQuery_term_lone.
  - pose proof (parseQuery_term_outcome t st) as H.
    destruct (parseQuery_term t st) as [st'|e]; cbn [bind].
    + apply IH; intros Hin; apply Hpre; now right.
    + destruct e; cbn in H; try contradiction; try reflexivity.
      exfalso; apply Hpre; left; now symmetry.
Qed.

Lemma parseQuery_loop_stops_blank (pre post : list string) (st : parse_state) :
  ~ In ":" pre -> parseQuery_loop (pre ++ "" :: post) st = Raise IndexError.
Proof.
  revert st; induction pre as [|t pre IH]; intros st Hpre; unfold parseQuery_loop in *; cbn [app fold_result].
  - now rewrite parseQuery_term_blank.
  - pose proof (parseQuery_term_outcome t st) as H.
    destruct (parseQuery_term t st) as [st'|e]; cbn [bind].
    + apply IH; intros Hin; apply Hpre; now right.
    + destruct e; cbn in H; try contradiction; try reflexivity.
      exfalso; apply Hpre; left; now symmetry.
Qed.

Lemma substring_whole_prefix (b x : string) :
  String.substring 0 (String.length b) (b ++ x) = b.
Proof.
  induction b as [|a b IH]; simpl.
  - now destruct x.
  - now rewrite IH.
Qed.

Lemma str_len_app (a b : string) : str_len (a ++ b) = str_len a + str_len b.
Proof.
  unfold str_len; induction a as [|c a IH]; simpl String.length.
  - simpl; lia.
  - rewrite !Nat2Z.inj_succ; lia.
Qed.

Lemma py_index_last_app (a : string) (c : ascii) :
  py_index (a ++ str1 c) (str_len (a ++ str1 c) - 1) = Ok c.
Proof.
  unfold py_index; rewrite str_len_app.
  change (str_len (str1 c)) with 1.
  pose proof (str_len_nonneg a) as Ha.
  replace (str_len a + 1 - 1) with (str_len a) by lia.
  assert (H1 : (str_len a <? 0) = false) by (apply Z.ltb_ge; lia).
  assert (H2 : (str_len a + 1 <=? str_len a) = false) by (apply Z.leb_gt; lia).
  rewrite H1, H1, H2; cbv [orb].
  unfold str_len; rewrite Nat2Z.id.
  clear; induction a as [|x a IH]; simpl; [reflexivity|exact IH].
Qed.

(** The slice between the two delimiters of a one-token phrase. *)
Lemma py_slice_between (body : string) :
  let term := String colon (body ++ str1 colon) in
  py_slice term 1 (str_len term - 1) = body.
Proof.
  cbv zeta; unfold py_slice, slice_bound.
  rewrite str_len_String, str_len_app; change (str_len (str1 colon)) with 1.
  pose proof (str_len_nonneg body) as Hb.
  change (1 <? 0) with false; cbv iota.
  assert (H1 : (str_len body + 1 + 1 - 1 <? 0) = false) by (apply Z.ltb_ge; lia).
  rewrite H1.
  rewrite (Z.min_l 1) by lia.
  rewrite Z.min_l by lia.
  destruct (str_len body + 1 + 1 - 1 <=? 1) eqn:Hle.
  - apply Z.leb_le in Hle. destruct body; [reflexivity|].
    rewrite str_len_String in Hle; pose proof (str_len_nonneg body); lia.
  - replace (Z.to_nat (str_len body + 1 + 1 - 1 - 1)) with (String.length body)
      by (unfold str_len; lia).
    change (Z.to_nat 1) with 1%nat; simpl String.substring.
    apply substring_whole_prefix.
Qed.

(** A one-token phrase met outside a phrase is recorded, and leaves the
    flag raised. *)
Lemma parseQuery_term_wrapped (body : string) (st : parse_state) :
  isPhrase st = false ->
  parseQuery_term (String colon (body ++ str1 colon)) st
  = Ok (mkParseState (keywords st) (phrases st ++ [py_strip body]) "" true).
Proof.
  intros Hst; unfold parseQuery_term, parseQuery_toggle.
  rewrite py_index_first; cbn [bind].
  rewrite Ascii.eqb_refl, Hst; cbn [negb].
  assert (Hl : (str_len (String colon (body ++ str1 colon)) =? 1) = false).
  { rewrite str_len_String, str_len_app; change (str_len (str1 colon)) with 1.
    pose proof (str_len_nonneg body); apply Z.eqb_neq; lia. }
  rewrite Hl; cbn [bind]; unfold parseQuery_collect; cbn [isPhrase keywords phrases phrase].
  rewrite py_index_first; cbn [bind]; rewrite Ascii.eqb_refl.
  pose proof (py_index_last_app (String colon body) colon) as Hd.
  cbn [String.append] in Hd; rewrite Hd; cbn [bind]; rewrite Ascii.eqb_refl.
  pose proof (py_slice_between body) as Hs; cbv zeta in Hs; rewrite Hs.
  reflexivity.
Qed.

(** ** C4 *)

(** C4 (the code departs from the claim). Outside a phrase, a token wrapped
    by the delimiter on both ends is recorded as a phrase, but the parser is
    then inside a phrase: the plain token that follows is not returned as a
    keyword. *)
Theorem C4_single_token_phrase_leaves_flag_raised (body : string) :
  parseQuery [String colon (body ++ str1 colon); "bar"] = Ok ([], [py_strip body])
  /\ (exists st, parseQuery_loop [String colon (body ++ str1 colon)] parse_init = Ok st
                 /\ isPhrase st = true).
Proof.
  unfold parseQuery, parseQuery_loop; cbn [fold_result].
  rewrite (parseQuery_term_wrapped body parse_init eq_refl); cbn [bind].
  split; [reflexivity|].
  eexists; split; reflexivity.
Qed.

Example C4_failing_input : parseQuery [":foo:"; "bar"] = Ok ([], ["foo"]).
Proof. reflexivity. Qed.

(** ** C5 *)

(** C5, as amended. A query with a lone delimiter token and no empty token
    before it is rejected with the parse error, by [parseQuery] and so by
    [main] before any index is read. *)
Theorem C5_lone_delimiter_rejected (pre post : list string) :
  ~ In "" pre ->
  parseQuery (pre ++ ":" :: post) = Raise SystemExit
  /\ forall indexPath numResults fs,
       query_main indexPath numResults (pre ++ ":" :: post) fs = Raise SystemExit.
Proof.
  intros Hpre.
  assert (H : parseQuery (pre ++ ":" :: post) = Raise SystemExit).
  { unfold parseQuery; now rewrite parseQuery_loop_stops_lone. }
  split; [exact H|].
  intros; unfold query_main; now rewrite H.
Qed.

Lemma C5_witness :
  parseQuery (["fox"; ":quick"] ++ ":" :: ["brown:"]) = Raise SystemExit
  /\ forall indexPath numResults fs,
       query_main indexPath numResults (["fox"; ":quick"] ++ ":" :: ["brown:"]) fs
       = Raise SystemExit.
Proof.
  apply (C5_lone_delimiter_rejected ["fox"; ":quick"] ["brown:"]).
  intros [H|[H|[]]]; discriminate H.
Defined.

(** The claim as stated fails: an empty token in front of the lone delimiter
    ends the parse with the indexing error, not the parse error. *)
Lemma C5_counterexample :
  In ":" [""; ":"] /\ parseQuery [""; ":"] = Raise IndexError.
Proof. split; [right; left; reflexivity|reflexivity]. Qed.

(** Whatever comes first, a query with a lone delimiter yields no result. *)
Lemma parseQuery_lone_no_result (query : list string) :
  In ":" query -> is_ok (parseQuery query) = false.
Proof.
  intros Hin; unfold parseQuery.
  assert (H : forall st, is_ok (parseQuery_loop query st) = false).
  { induction query as [|t q IH]; [destruct Hin|].
    intros st; unfold parseQuery_loop in *; cbn [fold_result].
    destruct Hin as [->|Hin].
    - now rewrite parseQuery_term_lone.
    - destruct (parseQuery_term t st); cbn [bind]; [now apply IH|reflexivity]. }
  specialize (H parse_init); destruct (parseQuery_loop query parse_init); [discriminate|reflexivity].
Qed.

(** ** C9 *)

(** C9, as amended. A query with an empty token and no lone delimiter
    before it ends with the indexing error of [term[0]]. *)
Theorem C9_empty_token_index_error (pre post : list string) :
  ~ In ":" pre ->
  parseQuery (pre ++ "" :: post) = Raise IndexError.
Proof.
  intros Hpre; unfold parseQuery; now rewrite parseQuery_loop_stops_blank.
Qed.

Lemma C9_witness : parseQuery (["fox"] ++ "" :: [":"]) = Raise IndexError.
Proof.
  apply (C9_empty_token_index_error ["fox"] [":"]).
  intros [H|[]]; discriminate H.
Defined.

(** The claim as stated fails: a lone delimiter in front of the empty token
    ends the parse with the parse error before the empty token is read. *)
Lemma C9_counterexample :
  In "" [":"; ""] /\ parseQuery [":"; ""] = Raise SystemExit.
Proof. split; [right; left; reflexivity|reflexivity]. Qed.

(** ** Dictionaries *)

Section DictFacts.
Context {K V : Type} (keq : K -> K -> bool).
Hypothesis keq_eq : forall a b, keq a b = true <-> a = b.

Lemma dict_get_In (k : K) (v : V) (d : list (K * V)) :
  dict_get keq k d = Some v -> In (k, v) d.
Proof.
  induction d as [|[k' v'] d IH]; simpl; [discriminate|].
  destruct (keq k k') eqn:E.
  - intros [= ->]; apply keq_eq in E; subst; now left.
  - intros H; right; now apply IH.
Qed.

Lemma dict_get_set (k k' : K) (v : V) (d : list (K * V)) :
  dict_get keq k (dict_set keq k' v d)
  = if keq k k' then Some v else dict_get keq k d.
Proof.
  induction d as [|[k0 v0] d IH]; simpl.
  - reflexivity.
  - destruct (keq k' k0) eqn:E0; simpl.
    + apply keq_eq in E0; subst k0.
      now destruct (keq k k').
    + destruct (keq k k0) eqn:E1.
      * destruct (keq k k') eqn:E2; [|reflexivity].
        apply keq_eq in E1, E2; subst.
        assert (keq k0 k0 = true) by now apply keq_eq.
        congruence.
      * exact IH.
Qed.

Lemma dict_set_In (k : K) (v : V) (d : list (K * V)) (x : K * V) :
  In x (dict_set keq k v d) -> x = (k, v) \/ In x d.
Proof.
  induction d as [|[k0 v0] d IH]; simpl.
  - intros [<-|[]]; now left.
  - destruct (keq k k0); simpl.
    + intros [<-|H]; [now left|right; now right].
    + intros [<-|H]; [right; now left|].
      destruct (IH H) as [->|H']; [now left|right; now right].
Qed.

Lemma dict_get_None_notin (k : K) (d : list (K * V)) :
  dict_get keq k d = None -> ~ In k (dict_keys d).
Proof.
  induction d as [|[k0 v0] d IH]; simpl; [tauto|].
  destruct (keq k k0) eqn:E; [discriminate|].
  intros H [->|Hin]; [|now apply IH].
  assert (keq k k = true) by now apply keq_eq.
  congruence.
Qed.

Lemma dict_get_Some_in (k : K) (d : list (K * V)) :
  In k (dict_keys d) -> exists v, dict_get keq k d = Some v.
Proof.
  induction d as [|[k0 v0] d IH]; simpl; [tauto|].
  destruct (keq k k0) eqn:E; [eauto|].
  intros [->|Hin]; [|now apply IH].
  assert (keq k k = true) by now apply keq_eq.
  congruence.
Qed.
End DictFacts.

Lemma get_entry_In (t : string) (e : entry) (index : index_t) :
  get_entry t index = Some e -> In (t, e) index.
Proof. apply dict_get_In, String.eqb_eq. Qed.

Lemma get_set_entry (t t' : string) (e : entry) (index : index_t) :
  get_entry t (set_entry t' e index)
  = if String.eqb t t' then Some e else get_entry t index.
Proof. apply dict_get_set, String.eqb_eq. Qed.

Lemma set_entry_In (t : string) (e : entry) (index : index_t) (x : string * entry) :
  In x (set_entry t e index) -> x = (t, e) \/ In x index.
Proof. apply dict_set_In. Qed.

(** ** Sorting *)

Section SortFacts.
Context {A : Type} (leb : A -> A -> bool).

Lemma insert_by_perm (x : A) (l : list A) : Permutation (insert_by leb x l) (x :: l).
Proof.
  induction l as [|y l IH]; simpl; [reflexivity|].
  destruct (leb x y); [reflexivity|].
  rewrite IH; apply perm_swap.
Qed.

Lemma sort_by_perm (l : list A) : Permutation (sort_by leb l) l.
Proof.
  induction l as [|x l IH]; simpl; [reflexivity|].
  unfold sort_by in *; simpl; rewrite insert_by_perm; now constructor.
Qed.

Lemma sort_by_In (x : A) (l : list A) : In x (sort_by leb l) <-> In x l.
Proof.
  split; apply Permutation_in; [|symmetry]; apply sort_by_perm.
Qed.

Lemma sort_by_length (l : list A) : List.length (sort_by leb l) = List.length l.
Proof. apply Permutation_length, sort_by_perm. Qed.
End SortFacts.

Lemma insert_Z_sorted (x : Z) (l : list Z) :
  StronglySorted Z.le l -> StronglySorted Z.le (insert_by Z.leb x l).
Proof.
  induction 1 as [|y l Hs IH Hy]; simpl.
  - repeat constructor.
  - destruct (x <=? y) eqn:E.
    + apply Z.leb_le in E; constructor; [now constructor|].
      constructor; [exact E|].
      eapply Forall_impl; [|exact Hy]; intros; lia.
    + apply Z.leb_gt in E; constructor; [exact IH|].
      eapply Permutation_Forall; [symmetry; apply insert_by_perm|].
      constructor; [lia|exact Hy].
Qed.

Lemma sorted_Z_sorted (l : list Z) : StronglySorted Z.le (sorted_Z l).
Proof.
  induction l as [|x l IH]; [constructor|].
  apply insert_Z_sorted, IH.
Qed.

Lemma sorted_nodup_strict (l : list Z) :
  StronglySorted Z.le l -> NoDup l -> StronglySorted Z.lt l.
Proof.
  induction 1 as [|x l Hs IH Hx]; intros Hnd; [constructor|].
  inversion Hnd as [|? ? Hnotin Hnd']; subst.
  constructor; [now apply IH|].
  rewrite Forall_forall in *; intros y Hy.
  specialize (Hx y Hy).
  assert (x <> y) by (intros ->; contradiction).
  lia.
Qed.

Lemma strict_map_Some (l : list Z) :
  StronglySorted Z.lt l -> StronglySorted id_lt (map Some l).
Proof.
  induction 1 as [|x l Hs IH Hx]; simpl; constructor; [exact IH|].
  rewrite Forall_forall in *; intros y Hy.
  apply in_map_iff in Hy as [z [<- Hz]]; now apply Hx.
Qed.

Lemma NoDup_map_Some (l : list Z) : NoDup l -> NoDup (map Some l).
Proof.
  induction 1 as [|x l Hn Hnd IH]; simpl; constructor; [|exact IH].
  intros Hin; apply in_map_iff in Hin as [y [[= ->] Hy]]; contradiction.
Qed.

Lemma all_ints_map (l : list (option Z)) (zs : list Z) :
  all_ints l = Some zs -> l = map Some zs.
Proof.
  revert zs; induction l as [|[z|] l IH]; simpl; intros zs H.
  - now injection H as <-.
  - destruct (all_ints l) as [zs'|]; [|discriminate].
    injection H as <-; simpl; now rewrite (IH zs' eq_refl).
  - discriminate.
Qed.

Lemma id_mem_In (d : option Z) (l : list (option Z)) : id_mem d l = true <-> In d l.
Proof.
  unfold id_mem; rewrite existsb_exists; split.
  - intros [x [Hx E]]; destruct d, x; simpl in E; try discriminate.
    + apply Z.eqb_eq in E; now subst.
    + exact Hx.
  - intros H; exists d; split; [exact H|].
    destruct d; simpl; [apply Z.eqb_refl|reflexivity].
Qed.

Lemma Z_mem_In (z : Z) (l : list Z) : Z_mem z l = true <-> In z l.
Proof.
  unfold Z_mem; rewrite existsb_exists; split.
  - intros [x [Hx E]]; apply Z.eqb_eq in E; now subst.
  - intros H; exists z; split; [exact H|apply Z.eqb_refl].
Qed.

(** A sorted postings list of distinct identifiers is strictly ascending and
    keeps its length. *)
Lemma py_sort_ids_ok (l l' : list (option Z)) :
  NoDup l -> py_sort_ids l = Ok l' ->
  StronglySorted id_lt l' /\ NoDup l' /\ List.length l' = List.length l.
Proof.
  intros Hnd; unfold py_sort_ids.
  destruct l as [|a [|b l]].
  - intros [= <-]; repeat split; constructor.
  - intros [= <-]; repeat split; [repeat constructor|exact Hnd].
  - destruct (all_ints (a :: b :: l)) as [zs|] eqn:E; [|discriminate].
    intros [= <-]; apply all_ints_map in E.
    rewrite E in Hnd |- *.
    assert (Hzs : NoDup zs).
    { clear E; induction zs as [|z zs IH]; [constructor|].
      simpl in Hnd; inversion Hnd as [|? ? Hn Hnd']; subst; constructor.
      - intros Hin; apply Hn; now apply in_map.
      - now apply IH. }
    assert (Hs : NoDup (sorted_Z zs)).
    { eapply Permutation_NoDup; [symmetry; apply sort_by_perm|exact Hzs]. }
    repeat split.
    + apply strict_map_Some, sorted_nodup_strict; [apply sorted_Z_sorted|exact Hs].
    + apply NoDup_map_Some, Hs.
    + rewrite !length_map; apply sort_by_length.
Qed.

(** Line 62 fails on a list of two or more identifiers one of which is
    [None]. *)
Lemma py_sort_ids_None (l : list (option Z)) :
  In None l -> (2 <= List.length l)%nat -> py_sort_ids l = Raise TypeError.
Proof.
  intros Hin Hlen; unfold py_sort_ids.
  destruct l as [|a [|b l]]; simpl in Hlen; try lia.
  destruct (all_ints (a :: b :: l)) as [zs|] eqn:E; [|reflexivity].
  apply all_ints_map in E; rewrite E in Hin.
  apply in_map_iff in Hin as [z [Hz _]]; discriminate.
Qed.

(** ** Properties of the index kept by every step of the build *)

Ltac bind_ok H :=
  match type of H with
  | bind ?r _ = Ok _ =>
      let E := fresh "E" in
      destruct r eqn:E; cbn [bind] in H; [|discriminate H]
  end.

Section IndexInvariant.
Variable W : string -> Prop.
Hypothesis HW : forall text, Forall W (py_split text).
Variable P : index_t -> Prop.
Hypothesis Hstep : forall docId word index index',
  W word -> str_is_empty (normalize word) = false -> P index ->
  generateIndex_posting docId (normalize word) index = Ok index' -> P index'.

Lemma zone_preserves docId words : forall ds idx ds' idx',
  Forall W words ->
  P idx -> generateIndex_zone docId words ds idx = Ok (ds', idx') -> P idx'.
Proof.
  induction words as [|w words IH]; intros ds idx ds' idx' HWs HP H;
    cbn [generateIndex_zone] in H.
  - now injection H as _ <-.
  - inversion HWs as [|? ? Hw HWs']; subst.
    destruct (str_is_empty (normalize w)) eqn:Ew; cbn [negb] in H.
    + eapply IH; eassumption.
    + bind_ok H. eapply IH; [exact HWs'| |exact H]. eapply Hstep; eassumption.
Qed.

Lemma fields_preserves fields : forall st st',
  P (ds_index st) -> generateIndex_fields fields st = Ok st' -> P (ds_index st').
Proof.
  induction fields as [|[key v] fields IH]; intros st st' HP H; cbn [generateIndex_fields] in H.
  - now injection H as <-.
  - destruct (is_empty_content v); [discriminate|].
    destruct (String.eqb key "doc_id").
    + bind_ok H. destruct (Z_mem a (ds_docIDs st)); [discriminate|].
      eapply IH; [|exact H]; exact HP.
    + bind_ok H. bind_ok H. destruct a0 as [docString index].
      eapply IH; [|exact H]; cbn [ds_index].
      destruct v; try discriminate; injection E as <-.
      eapply zone_preserves; [apply HW|exact HP|exact E0].
Qed.

Lemma doc_preserves doc st st' :
  P (bs_index st) -> generateIndex_doc doc st = Ok st' -> P (bs_index st').
Proof.
  intros HP H; unfold generateIndex_doc in H.
  destruct (Z.of_nat (List.length doc) <=? 1); [discriminate|].
  bind_ok H. destruct (ds_docId a) eqn:Ed; [|discriminate].
  injection H as <-; cbn [bs_index].
  eapply fields_preserves; [|exact E]; exact HP.
Qed.

Lemma docs_preserves c : forall st st',
  P (bs_index st) -> generateIndex_docs c st = Ok st' -> P (bs_index st').
Proof.
  induction c as [|doc c IH]; intros st st' HP H; cbn [generateIndex_docs] in H.
  - now injection H as <-.
  - bind_ok H. eapply IH; [|exact H]. eapply doc_preserves; eassumption.
Qed.
End IndexInvariant.

(** Lines 59-66 keep the invariant of the postings. *)
Lemma posting_keeps_index_ok docId token index index' :
  index_ok index -> generateIndex_posting docId token index = Ok index' -> index_ok index'.
Proof.
  intros Hok H; unfold generateIndex_posting in H.
  destruct (get_entry token index) as [e|] eqn:Eg.
  - destruct (id_mem docId (postings e)) eqn:Em; cbn [negb] in H.
    + now injection H as <-.
    + bind_ok H. injection H as <-.
      destruct (Hok _ _ (get_entry_In _ _ _ Eg)) as [Hdf [_ Hnd]].
      assert (Hnd' : NoDup (postings e ++ [docId])).
      { apply NoDup_app; [exact Hnd|repeat constructor; tauto|].
        intros x Hx [<-|[]].
        apply id_mem_In in Hx; congruence. }
      destruct (py_sort_ids_ok _ _ Hnd' E) as [Hs [Hn Hl]].
      intros t e' Hin; apply set_entry_In in Hin as [[= -> ->]|Hin]; [|eapply Hok; eassumption].
      repeat split; cbn [DF postings]; [|exact Hs|exact Hn].
      rewrite Hl, length_app, Hdf; simpl; lia.
  - injection H as <-.
    intros t e' Hin; apply set_entry_In in Hin as [[= -> ->]|Hin]; [|eapply Hok; eassumption].
    repeat split; cbn [DF postings]; repeat constructor; tauto.
Qed.

Lemma index_ok_nil : index_ok [].
Proof. intros t e []. Qed.

Lemma build_index_ok c index docIndex :
  generateIndex c = Ok (index, docIndex) -> index_ok index.
Proof.
  intros H t e Hin.
  unfold generateIndex in H; bind_ok H; injection H as <- <-.
  apply sort_by_In in Hin.
  assert (Hok : index_ok (bs_index a)).
  { refine (docs_preserves (fun _ => True) _ index_ok _ c (mkBuildState [] [] []) a
              index_ok_nil E).
    - intros; apply Forall_forall; trivial.
    - intros; eapply posting_keeps_index_ok; eassumption. }
  exact (Hok t e Hin).
Qed.

(** ** C3 *)

(** C3. In the index a successful build returns, every term has a document
    frequency equal to the length of its postings, and its postings are
    strictly ascending without duplicates; each update of a postings list
    (lines 59-66) keeps this invariant. *)
Theorem C3_postings_invariant :
  (forall docId token index index',
      index_ok index -> generateIndex_posting docId token index = Ok index' ->
      index_ok index')
  /\ (forall c index docIndex,
        generateIndex c = Ok (index, docIndex) ->
        forall t e, In (t, e) index ->
          DF e = Z.of_nat (List.length (postings e))
          /\ StronglySorted id_lt (postings e)
          /\ NoDup (postings e)).
Proof.
  split; [exact posting_keeps_index_ok|].
  intros c index docIndex H t e Hin.
  exact (build_index_ok c index docIndex H t e Hin).
Qed.

(** ** The tokenizer *)

Ltac each_char c :=
  destruct c as [b0 b1 b2 b3 b4 b5 b6 b7];
  destruct b0, b1, b2, b3, b4, b5, b6, b7.

Lemma lower_keeps_word (c : ascii) : is_word c = true -> lower_word (lower c) = true.
Proof. each_char c; vm_compute; intros H; first [reflexivity|discriminate H]. Qed.

Lemma lower_word_not_space (c : ascii) : lower_word c = true -> is_space c = false.
Proof. each_char c; vm_compute; intros H; first [reflexivity|discriminate H]. Qed.

Lemma str_app_assoc (a b c : string) : ((a ++ b) ++ c = a ++ (b ++ c))%string.
Proof. induction a as [|x a IH]; simpl; [reflexivity|now rewrite IH]. Qed.

Lemma str_app_nil_r (a : string) : (a ++ "")%string = a.
Proof. induction a as [|x a IH]; simpl; [reflexivity|now rewrite IH]. Qed.

Lemma str_forallb_app (f : ascii -> bool) (a b : string) :
  str_forallb f (a ++ b) = str_forallb f a && str_forallb f b.
Proof. induction a as [|c a IH]; simpl; [reflexivity|]. now rewrite IH, andb_assoc. Qed.

Lemma flush_units (w u : string) : no_space w = true -> In u (flush w) -> u <> "" /\ no_space u = true.
Proof.
  destruct w; simpl; [tauto|].
  intros H [<-|[]]; split; [discriminate|exact H].
Qed.

(** The units [split()] delivers are non-empty and free of blanks. *)
Lemma split_ws_units (s : string) : forall w u,
  no_space w = true -> In u (split_ws w s) -> u <> "" /\ no_space u = true.
Proof.
  induction s as [|c s IH]; intros w u Hw Hu; cbn [split_ws] in Hu.
  - eapply flush_units; eassumption.
  - destruct (is_space c) eqn:Ec.
    + apply in_app_or in Hu as [Hu|Hu].
      * eapply flush_units; eassumption.
      * eapply IH; [|exact Hu]; reflexivity.
    + eapply IH; [|exact Hu].
      unfold no_space; rewrite str_forallb_app; unfold no_space in Hw; rewrite Hw.
      simpl; now rewrite Ec.
Qed.

Lemma py_split_units (text u : string) :
  In u (py_split text) -> u <> "" /\ no_space u = true.
Proof. apply split_ws_units; reflexivity. Qed.

(** A unit without blanks normalises to lowercase word characters. *)
Lemma normalize_shape (u : string) :
  no_space u = true -> str_forallb lower_word (normalize u) = true.
Proof.
  unfold normalize, no_space; induction u as [|c u IH]; simpl; [reflexivity|].
  intros H; apply andb_prop in H as [Hc Hu].
  destruct (is_word c) eqn:Ew; cbn [orb].
  - simpl; rewrite (lower_keeps_word c Ew); now apply IH.
  - apply negb_true_iff in Hc; rewrite Hc; now apply IH.
Qed.

Lemma str_is_empty_false (s : string) : str_is_empty s = false <-> s <> "".
Proof. destruct s; simpl; split; intros H; try discriminate; try reflexivity; now contradiction H. Qed.

Lemma tokens_of_shape (text t : string) : In t (tokens_of text) -> token_shape t.
Proof.
  unfold tokens_of; intros H; apply filter_In in H as [H Hne].
  apply in_map_iff in H as [u [<- Hu]].
  apply negb_true_iff, str_is_empty_false in Hne.
  split; [exact Hne|].
  apply normalize_shape; now apply (py_split_units text).
Qed.

(** The loop over the words of a zone appends, in order, the tokens of the
    zone to the document string. *)
Lemma zone_docString docId words : forall ds idx ds' idx',
  generateIndex_zone docId words ds idx = Ok (ds', idx') ->
  ds' = (ds ++ zone_text (filter (fun t => negb (str_is_empty t)) (map normalize words)))%string.
Proof.
  induction words as [|w words IH]; intros ds idx ds' idx' H; cbn [generateIndex_zone] in H.
  - injection H as <- _; unfold zone_text; simpl; now rewrite str_app_nil_r.
  - cbn [map filter].
    destruct (str_is_empty (normalize w)) eqn:Ew; cbn [negb] in H |- *.
    + eapply IH; exact H.
    + bind_ok H. apply IH in H; rewrite H.
      unfold zone_text; cbn [map str_concat].
      now rewrite !str_app_assoc.
Qed.

Lemma posting_keeps_shape docId token index index' :
  token_shape token ->
  (forall t e, In (t, e) index -> token_shape t) ->
  generateIndex_posting docId token index = Ok index' ->
  forall t e, In (t, e) index' -> token_shape t.
Proof.
  intros Ht Hok H; unfold generateIndex_posting in H.
  destruct (get_entry token index) as [e|] eqn:Eg.
  - destruct (id_mem docId (postings e)); cbn [negb] in H.
    + now injection H as <-.
    + bind_ok H; injection H as <-.
      intros t e' Hin; apply set_entry_In in Hin as [[= -> ->]|Hin]; [exact Ht|eapply Hok; eassumption].
  - injection H as <-.
    intros t e' Hin; apply set_entry_In in Hin as [[= -> ->]|Hin]; [exact Ht|eapply Hok; eassumption].
Qed.

Lemma build_terms_shape c index docIndex :
  generateIndex c = Ok (index, docIndex) ->
  forall t e, In (t, e) index -> token_shape t.
Proof.
  intros H t e Hin.
  unfold generateIndex in H; bind_ok H; injection H as <- <-.
  apply sort_by_In in Hin.
  refine (docs_preserves (fun u => u <> "" /\ no_space u = true) _
            (fun index => forall t e, In (t, e) index -> token_shape t) _
            c (mkBuildState [] [] []) a _ E t e Hin).
  - intros text; apply Forall_forall; intros u; apply py_split_units.
  - intros docId word index index' [_ Hw] Hne HP Hpost.
    eapply posting_keeps_shape; [|exact HP|exact Hpost].
    split; [now apply str_is_empty_false|now apply normalize_shape].
  - intros ? ? [].
Qed.

Lemma C3_witness :
  DF (mkEntry 2 [Some 1; Some 2]) = Z.of_nat (List.length (postings (mkEntry 2 [Some 1; Some 2])))
  /\ StronglySorted id_lt (postings (mkEntry 2 [Some 1; Some 2]))
  /\ NoDup (postings (mkEntry 2 [Some 1; Some 2])).
Proof.
  refine (proj2 C3_postings_invariant fox_corpus fox_index fox_docIndex _
            "fox" (mkEntry 2 [Some 1; Some 2]) _).
  - vm_compute; reflexivity.
  - vm_compute; tauto.
Defined.

(** ** Validation *)

(** What a successful pass over the fields of a document tells. *)
Lemma fields_ok_facts fields : forall st st',
  generateIndex_fields fields st = Ok st' ->
  has_empty_content fields = false
  /\ incl (ds_docIDs st) (ds_docIDs st')
  /\ (forall z, doc_id_of fields = Some z ->
        ~ In z (ds_docIDs st) /\ In z (ds_docIDs st'))
  /\ (ds_docId st = None -> lacks_identifier fields = true -> ds_docId st' = None).
Proof.
  induction fields as [|[key v] fields IH]; intros st st' H; cbn [generateIndex_fields] in H.
  - injection H as <-.
    split; [reflexivity|]. split; [intros ? ?; assumption|].
    split; [intros z Hz; discriminate|tauto].
  - unfold has_empty_content, lacks_identifier, doc_id_of in *.
    cbn [existsb dict_get fst snd].
    destruct (is_empty_content v) eqn:Ev; [discriminate|]; cbn [orb].
    rewrite (String.eqb_sym "doc_id" key).
    destruct (String.eqb key "doc_id") eqn:Ek; cbn [orb negb].
    + bind_ok H. destruct (Z_mem a (ds_docIDs st)) eqn:Em; [discriminate|].
      apply IH in H as [H1 [H2 [H3 H4]]]; cbn [ds_docIDs ds_docId] in *.
      split; [exact H1|]. split; [|split].
      * intros z Hz; apply H2, in_or_app; now left.
      * intros z0 Hz; injection Hz as <-.
        split; [intros Hin; apply Z_mem_In in Hin; congruence|].
        apply H2, in_or_app; right; now left.
      * intros _ Hf; discriminate.
    + bind_ok H. bind_ok H. destruct a0 as [docString index].
      apply IH in H as [H1 [H2 [H3 H4]]]; cbn [ds_docIDs ds_docId] in *.
      repeat split; try assumption; try (now apply H3); now apply H4.
Qed.

Lemma doc_ok_facts doc st st' :
  generateIndex_doc doc st = Ok st' ->
  too_few_fields doc = false
  /\ has_empty_content doc = false
  /\ lacks_identifier doc = false
  /\ incl (bs_docIDs st) (bs_docIDs st')
  /\ (forall z, doc_id_of doc = Some z ->
        ~ In z (bs_docIDs st) /\ In z (bs_docIDs st')).
Proof.
  intros H; unfold generateIndex_doc in H.
  destruct (Z.of_nat (List.length doc) <=? 1) eqn:El; [discriminate|].
  bind_ok H. destruct (ds_docId a) eqn:Ed; [|discriminate].
  injection H as <-; cbn [bs_docIDs].
  apply fields_ok_facts in E as [H1 [H2 [H3 H4]]]; cbn [ds_docIDs ds_docId] in *.
  repeat split; try assumption; try (now apply H3).
  - unfold too_few_fields; apply Nat.leb_gt; apply Z.leb_gt in El; lia.
  - destruct (lacks_identifier doc); [|reflexivity].
    rewrite H4 in Ed by reflexivity; discriminate.
Qed.

Lemma docs_ok_facts c : forall st st',
  generateIndex_docs c st = Ok st' ->
  (forall doc, In doc c ->
     too_few_fields doc = false /\ has_empty_content doc = false
     /\ lacks_identifier doc = false)
  /\ incl (bs_docIDs st) (bs_docIDs st')
  /\ (forall i di z, nth_error c i = Some di -> doc_id_of di = Some z ->
        ~ In z (bs_docIDs st) /\ In z (bs_docIDs st'))
  /\ ~ duplicate_identifier c.
Proof.
  induction c as [|doc c IH]; intros st st' H; cbn [generateIndex_docs] in H.
  - injection H as <-.
    split; [intros ? []|]. split; [intros ? ?; assumption|].
    split; [intros i di z Hi; destruct i; discriminate|].
    intros (i & j & di & dj & z & _ & Hi & _); destruct i; discriminate.
  - bind_ok H.
    apply doc_ok_facts in E as [D1 [D2 [D3 [D4 D5]]]].
    apply IH in H as [H1 [H2 [H3 H4]]].
    split; [|split; [|split]].
    + intros d [<-|Hd]; [tauto|now apply H1].
    + intros z Hz; now apply H2, D4.
    + intros [|i] di z Hi Hz; cbn [nth_error] in Hi.
      * injection Hi as <-; destruct (D5 z Hz); split; [assumption|now apply H2].
      * destruct (H3 i di z Hi Hz) as [Hn Hy]; split; [|exact Hy].
        intros Hin; apply Hn, D4, Hin.
    + intros (i & j & di & dj & z & Hlt & Hi & Hj & Hzi & Hzj).
      destruct j as [|j]; [lia|]; cbn [nth_error] in Hj.
      destruct i as [|i]; cbn [nth_error] in Hi.
      * injection Hi as <-.
        destruct (D5 z Hzi) as [_ Hin]; destruct (H3 j dj z Hj Hzj) as [Hn _]; contradiction.
      * apply H4; exists i, j, di, dj, z; repeat split; try assumption; lia.
Qed.

(** A corpus with a violation makes [generateIndex] raise. *)
Lemma violation_raises (c : corpus) :
  violation c -> exists e, generateIndex c = Raise e.
Proof.
  intros Hv; unfold generateIndex.
  destruct (generateIndex_docs c (mkBuildState [] [] [])) as [st|e] eqn:E;
    [|exists e; reflexivity].
  exfalso; apply docs_ok_facts in E as [H1 [_ [_ H4]]].
  destruct Hv as [[doc [Hin Hv]]|Hv]; [|contradiction].
  destruct (H1 doc Hin) as [A [B C]]; rewrite A, B, C in Hv.
  destruct Hv as [Hv|[Hv|Hv]]; discriminate.
Qed.

(** ** C8 *)

(** C8. When the corpus has a document with fewer than two fields, a field
    with null or empty content, a document without identifier field, or two
    documents with the same identifier, [generateIndex] raises, and
    [buildIndex] ends with that exception and leaves the file system as it
    was: no file is written. *)
Theorem C8_violation_aborts_build_without_output (c : corpus) :
  violation c ->
  exists e, generateIndex c = Raise e
    /\ forall indexPath fs, buildIndex (Some c) indexPath fs = (Raise e, fs).
Proof.
  intros Hv; destruct (violation_raises c Hv) as [e He].
  exists e; split; [exact He|].
  intros; unfold buildIndex; now rewrite He.
Qed.

Lemma C8_witness :
  exists e, generateIndex duplicate_corpus = Raise e
    /\ forall indexPath fs, buildIndex (Some duplicate_corpus) indexPath fs = (Raise e, fs).
Proof.
  apply (C8_violation_aborts_build_without_output duplicate_corpus).
  right.
  exists 0%nat, 1%nat, [("doc_id", JInt 7); ("body", JStr "first")],
    [("doc_id", JStr "7"); ("body", JStr "second")], 7.
  split; [lia|].
  vm_compute; repeat split.
Defined.

(** ** Postings recorded before the identifier is read *)

Lemma py_sort_ids_keeps_None (l l' : list (option Z)) :
  In None l -> py_sort_ids l = Ok l' -> In None l'.
Proof.
  intros Hin H.
  destruct (Nat.le_gt_cases 2 (List.length l)) as [Hl|Hl].
  - rewrite (py_sort_ids_None l Hin Hl) in H; discriminate.
  - destruct l as [|a [|b l]]; simpl in Hl; try lia; now injection H as <-.
Qed.

Lemma posting_null_recorded token index index' :
  generateIndex_posting None token index = Ok index' -> has_null token index'.
Proof.
  intros H; unfold generateIndex_posting in H.
  destruct (get_entry token index) as [e|] eqn:Eg.
  - destruct (id_mem None (postings e)) eqn:Em; cbn [negb] in H.
    + injection H as <-; exists e; split; [exact Eg|now apply id_mem_In].
    + bind_ok H; injection H as <-.
      eexists; split; [rewrite get_set_entry, String.eqb_refl; reflexivity|].
      cbn [postings]; eapply py_sort_ids_keeps_None; [|exact E].
      apply in_or_app; right; now left.
  - injection H as <-.
    eexists; split; [rewrite get_set_entry, String.eqb_refl; reflexivity|].
    now left.
Qed.

Lemma posting_keeps_null t docId token index index' :
  has_null t index -> generateIndex_posting docId token index = Ok index' ->
  has_null t index'.
Proof.
  intros [e [Hg Hn]] H; unfold generateIndex_posting in H.
  destruct (get_entry token index) as [e0|] eqn:Eg.
  - destruct (id_mem docId (postings e0)) eqn:Em; cbn [negb] in H.
    + injection H as <-; now exists e.
    + bind_ok H; injection H as <-.
      unfold has_null; rewrite get_set_entry.
      destruct (String.eqb t token) eqn:Et.
      * apply String.eqb_eq in Et; subst token.
        rewrite Hg in Eg; injection Eg as <-.
        eexists; split; [reflexivity|]; cbn [postings].
        eapply py_sort_ids_keeps_None; [|exact E].
        apply in_or_app; now left.
      * now exists e.
  - injection H as <-.
    unfold has_null; rewrite get_set_entry.
    destruct (String.eqb t token) eqn:Et.
    + apply String.eqb_eq in Et; subst token; congruence.
    + now exists e.
Qed.

Lemma zone_null_recorded words : forall ds idx ds' idx' t,
  generateIndex_zone None words ds idx = Ok (ds', idx') ->
  In t (filter (fun t => negb (str_is_empty t)) (map normalize words)) ->
  has_null t idx'.
Proof.
  induction words as [|w words IH]; intros ds idx ds' idx' t H Hin;
    cbn [generateIndex_zone] in H; cbn [map filter] in Hin.
  - destruct Hin.
  - destruct (str_is_empty (normalize w)) eqn:Ew; cbn [negb] in H, Hin.
    + eapply IH; eassumption.
    + bind_ok H. destruct Hin as [<-|Hin]; [|eapply IH; eassumption].
      refine (zone_preserves (fun _ => True) (has_null (normalize w)) _
                None words _ a ds' idx' _ _ H).
      * intros; eapply posting_keeps_null; eassumption.
      * apply Forall_forall; trivial.
      * eapply posting_null_recorded; exact E.
Qed.

Lemma fields_app (pre post : document) : forall st,
  generateIndex_fields (pre ++ post) st
  = (st1 <- generateIndex_fields pre st ;; generateIndex_fields post st1).
Proof.
  induction pre as [|[key v] pre IH]; intros st; cbn [app generateIndex_fields bind].
  - reflexivity.
  - destruct (is_empty_content v); [reflexivity|].
    destruct (String.eqb key "doc_id").
    + destruct (py_int v); cbn [bind]; [|reflexivity].
      destruct (Z_mem a (ds_docIDs st)); [reflexivity|apply IH].
    + destruct (py_split_json v); cbn [bind]; [|reflexivity].
      destruct (generateIndex_zone _ _ _ _) as [[docString index]|]; cbn [bind];
        [apply IH|reflexivity].
Qed.

Lemma docs_app (c1 c2 : corpus) : forall st,
  generateIndex_docs (c1 ++ c2) st
  = (st1 <- generateIndex_docs c1 st ;; generateIndex_docs c2 st1).
Proof.
  induction c1 as [|doc c1 IH]; intros st; cbn [app generateIndex_docs bind].
  - reflexivity.
  - destruct (generateIndex_doc doc st); cbn [bind]; [apply IH|reflexivity].
Qed.

Lemma lacks_identifier_keys (pre : document) :
  ~ In "doc_id" (map fst pre) -> lacks_identifier pre = true.
Proof.
  unfold lacks_identifier; intros H; apply negb_true_iff.
  destruct (existsb _ pre) eqn:E; [|reflexivity].
  apply existsb_exists in E as [[k v] [Hin Hk]]; apply String.eqb_eq in Hk.
  exfalso; apply H; cbn [fst] in Hk; subst k.
  change "doc_id" with (fst ("doc_id", v)); now apply in_map.
Qed.

Lemma keeps_null_step (t : string) :
  forall docId word index index',
    True -> str_is_empty (normalize word) = false -> has_null t index ->
    generateIndex_posting docId (normalize word) index = Ok index' -> has_null t index'.
Proof. intros; eapply posting_keeps_null; eassumption. Qed.

Lemma all_words_trivial : forall text, Forall (fun _ : string => True) (py_split text).
Proof. intros; apply Forall_forall; trivial. Qed.

(** A zone read while the identifier is still [None] leaves its tokens with
    postings that hold [None]. *)
Lemma fields_null_recorded pre key text post st st' t :
  ds_docId st = None ->
  ~ In "doc_id" (map fst pre) -> key <> "doc_id" ->
  generateIndex_fields (pre ++ (key, JStr text) :: post) st = Ok st' ->
  In t (tokens_of text) ->
  has_null t (ds_index st').
Proof.
  intros Hid Hpre Hkey H Hin.
  rewrite fields_app in H; bind_ok H.
  pose proof (fields_ok_facts _ _ _ E) as [_ [_ [_ Hnone]]].
  specialize (Hnone Hid (lacks_identifier_keys pre Hpre)).
  cbn [generateIndex_fields] in H.
  destruct (is_empty_content (JStr text)); [discriminate|].
  apply String.eqb_neq in Hkey; rewrite Hkey in H.
  cbn [py_split_json bind] in H. bind_ok H. destruct a0 as [docString index].
  rewrite Hnone in E0.
  refine (fields_preserves (fun _ => True) all_words_trivial (has_null t)
            (keeps_null_step t) post _ st' _ H).
  cbn [ds_index]; eapply zone_null_recorded; [exact E0|exact Hin].
Qed.

Lemma docs_null_recorded c : forall st st' doc pre key text post t,
  generateIndex_docs c st = Ok st' ->
  In doc c -> doc = pre ++ (key, JStr text) :: post ->
  ~ In "doc_id" (map fst pre) -> key <> "doc_id" ->
  In t (tokens_of text) ->
  has_null t (bs_index st').
Proof.
  intros st st' doc pre key text post t H Hdoc -> Hpre Hkey Hin.
  apply in_split in Hdoc as [c1 [c2 ->]].
  rewrite docs_app in H; bind_ok H.
  cbn [generateIndex_docs] in H; bind_ok H.
  refine (docs_preserves (fun _ => True) all_words_trivial (has_null t)
            (keeps_null_step t) c2 a0 st' _ H).
  unfold generateIndex_doc in E0.
  destruct (Z.of_nat _ <=? 1); [discriminate|].
  bind_ok E0. destruct (ds_docId a1); [|discriminate].
  injection E0 as <-; cbn [bs_index].
  eapply fields_null_recorded; [| | |exact E1|exact Hin]; [reflexivity|assumption|assumption].
Qed.

Lemma sorted_with_None (l : list (option Z)) :
  StronglySorted id_lt l -> In None l -> l = [None].
Proof.
  induction 1 as [|x l Hs IH Hx]; intros Hin; [destruct Hin|].
  destruct x as [x|].
  - destruct Hin as [Hin|Hin]; [discriminate|].
    rewrite Forall_forall in Hx; destruct (Hx None Hin).
  - destruct l as [|y l]; [reflexivity|].
    inversion Hx as [|? ? Hy _]; destruct Hy.
Qed.

(** ** C10 *)

(** C10. When a successful build has read a content zone of a document
    before the document's 'doc_id' field, every token of that zone has the
    postings [[None]] in the index; and sorting a postings list of two or
    more entries that holds [None], which is what line 62 does when such a
    token also occurs under an integer identifier, raises [TypeError]. *)
Theorem C10_zone_before_identifier_records_null :
  (forall c index docIndex doc pre key text post t,
      generateIndex c = Ok (index, docIndex) ->
      In doc c -> doc = pre ++ (key, JStr text) :: post ->
      ~ In "doc_id" (map fst pre) -> key <> "doc_id" ->
      In t (tokens_of text) ->
      In (t, mkEntry 1 [None]) index)
  /\ (forall l, In None l -> (2 <= List.length l)%nat -> py_sort_ids l = Raise TypeError)
  /\ (forall t z index e,
        get_entry t index = Some e -> In None (postings e) ->
        id_mem (Some z) (postings e) = false ->
        generateIndex_posting (Some z) t index = Raise TypeError)
  /\ (forall t index e,
        get_entry t index = Some e -> postings e <> [] ->
        id_mem None (postings e) = false ->
        generateIndex_posting None t index = Raise TypeError).
Proof.
  split; [|split; [exact py_sort_ids_None|split]].
  - intros c index docIndex doc pre key text post t H Hdoc Hshape Hpre Hkey Hin.
    pose proof (build_index_ok c index docIndex H) as Hok.
    unfold generateIndex in H; bind_ok H; injection H as <- <-.
    destruct (docs_null_recorded c _ a doc pre key text post t E Hdoc Hshape Hpre Hkey Hin)
      as [e [Hg Hn]].
    apply get_entry_In in Hg.
    assert (Hs : In (t, e) (sort_by key_leb (bs_index a))) by now apply sort_by_In.
    destruct (Hok t e Hs) as [Hdf [Hsorted _]].
    apply (sorted_with_None _ Hsorted) in Hn.
    destruct e as [df ps]; cbn [DF postings] in *; subst ps; simpl in Hdf; subst df.
    exact Hs.
  - intros t z index e Hg Hn Hm; unfold generateIndex_posting.
    rewrite Hg, Hm; cbn [negb].
    rewrite py_sort_ids_None; [reflexivity|apply in_or_app; now left|].
    rewrite length_app; simpl; destruct (postings e); [destruct Hn|simpl; lia].
  - intros t index e Hg Hne Hm; unfold generateIndex_posting.
    rewrite Hg, Hm; cbn [negb].
    rewrite py_sort_ids_None; [reflexivity|apply in_or_app; right; now left|].
    rewrite length_app; simpl; destruct (postings e); [congruence|simpl; lia].
Qed.

Lemma C10_witness :
  In ("hello", mkEntry 1 [None]) [("hello", mkEntry 1 [None]); ("world", mkEntry 1 [None])].
Proof.
  refine (proj1 C10_zone_before_identifier_records_null zone_first_corpus
            [("hello", mkEntry 1 [None]); ("world", mkEntry 1 [None])] [(5, "hello world ")]
            [("body", JStr "Hello world"); ("doc_id", JInt 5)] [] "body" "Hello world"
            [("doc_id", JInt 5)] "hello" _ _ _ _ _ _).
  - vm_compute; reflexivity.
  - left; reflexivity.
  - reflexivity.
  - intros [].
  - discriminate.
  - vm_compute; tauto.
Defined.

Example C10_mixed_build_fails : generateIndex mixed_corpus = Raise TypeError.
Proof. vm_compute; reflexivity. Qed.

(** ** The scorer *)

Section DictAsMap.
Context {V : Type}.

Lemma dict_keys_map (g : Z -> V) (L : list Z) :
  dict_keys (map (fun d => (d, g d)) L) = L.
Proof. unfold dict_keys; rewrite map_map; simpl; apply map_id. Qed.

Lemma dict_get_map (g : Z -> V) (L : list Z) (k : Z) :
  In k L -> dict_get Z.eqb k (map (fun d => (d, g d)) L) = Some (g k).
Proof.
  induction L as [|x L IH]; simpl; [tauto|].
  destruct (Z.eqb_spec k x) as [->|Hne]; [reflexivity|].
  intros [->|H]; [contradiction|now apply IH].
Qed.

Lemma dict_set_map_fresh (g : Z -> V) (L : list Z) (k : Z) :
  ~ In k L ->
  dict_set Z.eqb k (g k) (map (fun d => (d, g d)) L) = map (fun d => (d, g d)) (L ++ [k]).
Proof.
  induction L as [|x L IH]; simpl; [reflexivity|].
  intros H; destruct (Z.eqb_spec k x) as [->|Hne]; [tauto|].
  rewrite IH by tauto; reflexivity.
Qed.

Lemma dict_set_map_update (g : Z -> V) (L : list Z) (k : Z) (v : V) :
  NoDup L -> In k L ->
  dict_set Z.eqb k v (map (fun d => (d, g d)) L)
  = map (fun d => (d, if Z.eqb d k then v else g d)) L.
Proof.
  induction 1 as [|x L Hx Hnd IH]; simpl; [tauto|].
  intros Hin; destruct (Z.eqb_spec k x) as [->|Hne].
  - rewrite Z.eqb_refl; f_equal.
    apply map_ext_in; intros d Hd.
    destruct (Z.eqb_spec d x) as [->|_]; [contradiction|reflexivity].
  - destruct (Z.eqb_spec x k) as [->|_]; [contradiction|].
    rewrite IH by (destruct Hin; [congruence|assumption]); reflexivity.
Qed.

Lemma dict_set_map_same (g : Z -> V) (L : list Z) (k : Z) :
  In k L ->
  dict_set Z.eqb k (g k) (map (fun d => (d, g d)) L) = map (fun d => (d, g d)) L.
Proof.
  induction L as [|x L IH]; simpl; [tauto|].
  intros Hin; destruct (Z.eqb_spec k x) as [->|Hne]; [reflexivity|].
  rewrite IH by (destruct Hin; [congruence|assumption]); reflexivity.
Qed.
End DictAsMap.

Lemma dedup_from_step (seen docs : list Z) (d : Z) :
  dedup_from seen (d :: docs) = dedup_from (if Z_mem d seen then seen else seen ++ [d]) docs.
Proof. reflexivity. Qed.

Lemma dedup_from_spec (docs : list Z) : forall seen,
  NoDup seen ->
  NoDup (dedup_from seen docs)
  /\ forall d, In d (dedup_from seen docs) <-> In d seen \/ In d docs.
Proof.
  induction docs as [|x docs IH]; intros seen Hnd.
  - split; [exact Hnd|]; simpl; tauto.
  - rewrite dedup_from_step.
    destruct (Z_mem x seen) eqn:Em.
    + destruct (IH seen Hnd) as [H1 H2]; split; [exact H1|].
      intros d; rewrite H2; apply Z_mem_In in Em; simpl; split; [tauto|].
      intros [H|[<-|H]]; tauto.
    + assert (Hx : ~ In x seen) by (intros H; apply Z_mem_In in H; congruence).
      assert (Hnd' : NoDup (seen ++ [x])).
      { apply NoDup_app; [exact Hnd|repeat constructor; tauto|].
        intros y Hy [<-|[]]; contradiction. }
      destruct (IH _ Hnd') as [H1 H2]; split; [exact H1|].
      intros d; rewrite H2, in_app_iff; simpl; tauto.
Qed.

Lemma dedup_spec (docs : list Z) :
  NoDup (dedup docs) /\ forall d, In d (dedup docs) <-> In d docs.
Proof.
  destruct (dedup_from_spec docs [] (NoDup_nil _)) as [H1 H2]; split; [exact H1|].
  intros d; rewrite (H2 d); simpl; tauto.
Qed.

(** Lines 24-27: both dictionaries get the candidates, each once. *)
Lemma cosineScore_init_spec docIndex (docs : list Z) : forall seen,
  (forall d, In d docs -> exists text, dict_get Z.eqb d docIndex = Some text) ->
  cosineScore_init docIndex docs
    (map (fun d => (d, PrimFloat.zero)) seen)
    (map (fun d => (d, document_length docIndex d)) seen)
  = Ok (map (fun d => (d, PrimFloat.zero)) (dedup_from seen docs),
        map (fun d => (d, document_length docIndex d)) (dedup_from seen docs)).
Proof.
  induction docs as [|x docs IH]; intros seen Hdocs; cbn [cosineScore_init].
  - reflexivity.
  - destruct (Hdocs x (or_introl eq_refl)) as [text Ht]; rewrite Ht.
    rewrite dedup_from_step.
    replace (List.length (py_split text)) with (document_length docIndex x)
      by (unfold document_length; now rewrite Ht).
    destruct (Z_mem x seen) eqn:Em.
    + apply Z_mem_In in Em.
      rewrite (dict_set_map_same (fun _ => PrimFloat.zero) seen x Em).
      rewrite (dict_set_map_same (document_length docIndex) seen x Em).
      apply IH; intros d Hd; apply Hdocs; now right.
    + assert (Hx : ~ In x seen) by (intros H; apply Z_mem_In in H; congruence).
      rewrite (dict_set_map_fresh (fun _ => PrimFloat.zero) seen x Hx).
      rewrite (dict_set_map_fresh (document_length docIndex) seen x Hx).
      apply IH; intros d Hd; apply Hdocs; now right.
Qed.

(** Lines 39-43: the weight is added once to every document of the
    intersection. *)
Lemma cosineScore_add_spec (w : PrimFloat.float) (L : list Z) (inter : list Z) :
  NoDup L -> NoDup inter -> incl inter L ->
  forall f,
    cosineScore_add w inter (map (fun d => (d, f d)) L)
    = map (fun d => (d, if Z_mem d inter then PrimFloat.add (f d) w else f d)) L.
Proof.
  intros HL; induction inter as [|x inter IH]; intros Hnd Hincl f; cbn [cosineScore_add].
  - reflexivity.
  - inversion Hnd as [|? ? Hx Hnd']; subst.
    assert (HxL : In x L) by (apply Hincl; now left).
    rewrite (dict_get_map f L x HxL).
    rewrite (dict_set_map_update f L x _ HL HxL).
    rewrite (IH Hnd' (fun d Hd => Hincl d (or_intror Hd))
               (fun d => if Z.eqb d x then PrimFloat.add (f x) w else f d)).
    apply map_ext_in; intros d Hd; f_equal.
    unfold Z_mem; cbn [existsb].
    destruct (Z.eqb_spec d x) as [->|Hne]; cbn [orb].
    + fold (Z_mem x inter).
      destruct (Z_mem x inter) eqn:Em; [apply Z_mem_In in Em; contradiction|reflexivity].
    + reflexivity.
Qed.

Lemma inter_ids_spec (docs : list Z) (ps : list (option Z)) :
  NoDup (inter_ids docs ps)
  /\ forall d, In d (inter_ids docs ps) <-> In d docs /\ id_mem (Some d) ps = true.
Proof.
  unfold inter_ids; split; [apply NoDup_nodup|].
  intros d; rewrite nodup_In, filter_In; tauto.
Qed.

(** Lines 29-43: after the loop over the keywords, each candidate holds the
    weights of the keywords that hit it, added in keyword order. *)
Lemma cosineScore_terms_spec index (n : nat) (docs L : list Z) (terms : list string) :
  NoDup L -> (forall d, In d L <-> In d docs) ->
  forall f,
    cosineScore_terms index n terms docs (map (fun d => (d, f d)) L)
    = map (fun d => (d, fold_left
                          (score_step index (PrimFloat.div PrimFloat.one (py_float n)) d)
                          terms (f d))) L.
Proof.
  intros HL Hsame; induction terms as [|term terms IH]; intros f;
    cbn [cosineScore_terms fold_left].
  - reflexivity.
  - unfold score_step at 2, term_hits.
    destruct (get_entry term index) as [e|] eqn:Eg.
    + destruct (inter_ids_spec docs (postings e)) as [Hnd Hin].
      rewrite cosineScore_add_spec; [|exact HL|exact Hnd|].
      * rewrite IH; apply map_ext_in; intros d Hd; do 2 f_equal.
        destruct (Z_mem d (inter_ids docs (postings e))) eqn:Em.
        -- apply Z_mem_In, Hin in Em as [_ ->]; reflexivity.
        -- destruct (id_mem (Some d) (postings e)) eqn:Ei; [|reflexivity].
           assert (In d (inter_ids docs (postings e))) by (apply Hin; split; [now apply Hsame|exact Ei]).
           apply Z_mem_In in H; congruence.
      * intros d Hd; apply Hsame; now apply Hin in Hd.
    + apply IH.
Qed.

(** Lines 46-48: with no candidate of length 0 the division goes through. *)
Lemma cosineScore_divide_spec (s : Z -> PrimFloat.float) (len : Z -> nat) (L : list Z) :
  forall rest done,
    NoDup (done ++ rest) -> incl rest L ->
    (forall d, In d rest -> len d <> O) ->
    cosineScore_divide (map (fun d => (d, s d)) L)
      (map (fun d => (d, len d)) rest)
      (map (fun d => (d, PrimFloat.div (s d) (py_float (len d)))) done)
    = Ok (map (fun d => (d, PrimFloat.div (s d) (py_float (len d)))) (done ++ rest)).
Proof.
  induction rest as [|x rest IH]; intros done Hnd Hincl Hlen; cbn [map cosineScore_divide].
  - now rewrite app_nil_r.
  - rewrite (dict_get_map s L x (Hincl x (or_introl eq_refl))).
    destruct (Nat.eqb_spec (len x) 0) as [E|_]; [now apply Hlen in E; [|left]|].
    assert (Hx : ~ In x done).
    { intros Hin; apply NoDup_remove_2 in Hnd; apply Hnd, in_or_app; now left. }
    rewrite (dict_set_map_fresh (fun d => PrimFloat.div (s d) (py_float (len d))) done x Hx).
    rewrite IH.
    + now rewrite <- app_assoc.
    + now rewrite <- app_assoc.
    + intros d Hd; apply Hincl; now right.
    + intros d Hd; apply Hlen; now right.
Qed.

Lemma list_slice0_firstn {A : Type} (l : list A) (k : Z) :
  0 <= k -> list_slice0 l k = firstn (Z.to_nat k) l.
Proof.
  intros Hk; unfold list_slice0, slice_bound.
  replace (k <? 0) with false by (symmetry; apply Z.ltb_ge; lia).
  destruct (Z.le_ge_cases k (Z.of_nat (List.length l))) as [H|H].
  - now rewrite Z.min_l.
  - rewrite Z.min_r, Nat2Z.id by lia.
    rewrite firstn_all, firstn_all2; [reflexivity|lia].
Qed.

(** [cosineScore] computes the ranking, cut at the limit, and its size. *)
Lemma cosineScore_refines index docIndex kws docs numResults :
  (forall d, In d docs ->
     exists text, dict_get Z.eqb d docIndex = Some text /\ py_split text <> []) ->
  0 <= numResults ->
  cosineScore index docIndex kws docs numResults
  = Ok (firstn (Z.to_nat numResults) (ranking index docIndex kws docs),
        Z.of_nat (List.length (ranking index docIndex kws docs))).
Proof.
  intros Hdocs HK; unfold cosineScore.
  pose proof (cosineScore_init_spec docIndex docs []) as Hinit.
  cbn [map] in Hinit; rewrite Hinit; clear Hinit; cbn [bind].
  2:{ intros d Hd; destruct (Hdocs d Hd) as [text [Ht _]]; eauto. }
  fold (dedup docs).
  destruct (dedup_spec docs) as [Hnd Hsame].
  rewrite (cosineScore_terms_spec index (List.length kws) docs (dedup docs) kws Hnd Hsame
             (fun _ => PrimFloat.zero)).
  pose proof (cosineScore_divide_spec
                (fun d => fold_left
                            (score_step index
                               (PrimFloat.div PrimFloat.one (py_float (List.length kws))) d)
                            kws PrimFloat.zero)
                (document_length docIndex) (dedup docs) (dedup docs) []) as Hdiv.
  cbn [map app] in Hdiv; rewrite Hdiv; clear Hdiv; cbn [bind].
  - rewrite list_slice0_firstn by exact HK. reflexivity.
  - exact Hnd.
  - intros d Hd; exact Hd.
  - intros d Hd; apply Hsame in Hd; destruct (Hdocs d Hd) as [text [Ht Hne]].
    unfold document_length; rewrite Ht; destruct (py_split text); [congruence|discriminate].
Qed.

Lemma firstn_incl {A : Type} (n : nat) (l : list A) (x : A) : In x (firstn n l) -> In x l.
Proof.
  intros H; rewrite <- (firstn_skipn n l); apply in_or_app; now left.
Qed.

Lemma filter_shorter {A : Type} (f : A -> bool) (l : list A) :
  (List.length (filter f l) <= List.length l)%nat.
Proof.
  induction l as [|x l IH]; simpl; [lia|]; destruct (f x); simpl; lia.
Qed.

Lemma zero_quotient_not_positive (y : PrimFloat.float) :
  PrimFloat.ltb PrimFloat.zero (PrimFloat.div PrimFloat.zero y) = false.
Proof.
  rewrite FloatAxioms.ltb_spec, FloatAxioms.div_spec.
  change (FloatOps.Prim2SF PrimFloat.zero) with (SpecFloat.S754_zero false).
  destruct (FloatOps.Prim2SF y) as [s|s| |s m e]; reflexivity.
Qed.

Lemma raw_score_no_hit index kws d :
  (forall term, In term kws -> term_hits index d term = false) ->
  raw_score index kws d = PrimFloat.zero.
Proof.
  unfold raw_score; generalize (uniform_weight kws) as w; generalize PrimFloat.zero as acc.
  induction kws as [|term kws IH]; intros acc w H; cbn [fold_left]; [reflexivity|].
  rewrite (H term (or_introl eq_refl)); apply IH.
  intros t Ht; apply H; now right.
Qed.

Lemma ranking_In index docIndex kws docs d v :
  In (d, v) (ranking index docIndex kws docs) <->
  In d docs /\ v = normalized_score index docIndex kws d
  /\ PrimFloat.ltb PrimFloat.zero v = true.
Proof.
  unfold ranking; rewrite filter_In, sort_by_In, in_map_iff.
  destruct (dedup_spec docs) as [_ Hsame]; unfold positive_score; cbn [snd].
  split.
  - intros [[x [[= <- <-] Hx]] Hp]; apply Hsame in Hx; tauto.
  - intros [Hd [-> Hp]]; split; [|exact Hp].
    exists d; split; [reflexivity|now apply Hsame].
Qed.

(** ** C7 *)

(** C7, as amended. When every candidate is a document of the forward index
    whose stored text has at least one token, and the limit K is not
    negative, [cosineScore] returns the first K entries of the ranking and
    the size of the ranking. An entry of the result pairs a candidate with
    its normalized score: the weights [1 / numberOfKeywordTerms] of the
    keyword-list entries whose postings hold the candidate, added in keyword
    order, divided by the number of tokens of the stored text; the score is
    positive. A candidate whose score is exactly zero, or that no keyword
    entry hits, is not in the ranking, so it is neither returned nor counted;
    at most K entries are returned. *)
Theorem C7_cosineScore_ranks_normalized_scores index docIndex kws docs numResults :
  (forall d, In d docs ->
     exists text, dict_get Z.eqb d docIndex = Some text /\ py_split text <> []) ->
  0 <= numResults ->
  exists top count,
    cosineScore index docIndex kws docs numResults = Ok (top, count)
    /\ top = firstn (Z.to_nat numResults) (ranking index docIndex kws docs)
    /\ count = Z.of_nat (List.length (ranking index docIndex kws docs))
    /\ (forall d v, In (d, v) top ->
          In d docs /\ v = normalized_score index docIndex kws d
          /\ PrimFloat.ltb PrimFloat.zero v = true)
    /\ (forall d, normalized_score index docIndex kws d = PrimFloat.zero ->
          ~ In d (map fst (ranking index docIndex kws docs)))
    /\ (forall d, (forall term, In term kws -> term_hits index d term = false) ->
          ~ In d (map fst (ranking index docIndex kws docs)))
    /\ Z.of_nat (List.length top) <= numResults
    /\ count <= Z.of_nat (List.length (dedup docs)).
Proof.
  intros Hdocs HK.
  exists (firstn (Z.to_nat numResults) (ranking index docIndex kws docs)).
  exists (Z.of_nat (List.length (ranking index docIndex kws docs))).
  split; [now apply cosineScore_refines|].
  split; [reflexivity|]. split; [reflexivity|].
  assert (Hpos : forall d, In d (map fst (ranking index docIndex kws docs)) ->
                 PrimFloat.ltb PrimFloat.zero (normalized_score index docIndex kws d) = true).
  { intros d Hin; apply in_map_iff in Hin as [[d' v] [Hfst Hin]]; cbn [fst] in Hfst; subst d'.
    apply ranking_In in Hin as [_ [-> Hp]]; exact Hp. }
  split; [|split; [|split; [|split]]].
  - intros d v Hin; apply firstn_incl in Hin; now apply ranking_In.
  - intros d Hz Hin; apply Hpos in Hin; rewrite Hz in Hin; discriminate.
  - intros d Hno Hin; apply Hpos in Hin.
    unfold normalized_score in Hin; rewrite (raw_score_no_hit index kws d Hno) in Hin.
    rewrite zero_quotient_not_positive in Hin; discriminate.
  - pose proof (firstn_le_length (Z.to_nat numResults) (ranking index docIndex kws docs)); lia.
  - unfold ranking; apply inj_le.
    eapply Nat.le_trans; [apply filter_shorter|].
    rewrite sort_by_length, length_map; apply Nat.le_refl.
Qed.

Lemma C7_witness :
  exists top count,
    cosineScore fox_index fox_loaded_docIndex ["fox"; "cat"] [1; 2] 1 = Ok (top, count)
    /\ Z.of_nat (List.length top) <= 1
    /\ count <= Z.of_nat (List.length (dedup [1; 2])).
Proof.
  destruct (C7_cosineScore_ranks_normalized_scores
              fox_index fox_loaded_docIndex ["fox"; "cat"] [1; 2] 1)
    as (top & count & H1 & _ & _ & _ & _ & _ & H2 & H3).
  - intros d [<-|[<-|[]]]; eexists; (split; [vm_compute; reflexivity|vm_compute; discriminate]).
  - lia.
  - exists top, count; repeat split; assumption.
Defined.

(** The claim as stated fails: a candidate whose stored text has no token
    gets no score, the division of line 48 raises. Such a document comes out
    of the indexer for a zone made of punctuation. *)
Lemma C7_counterexample :
  cosineScore [] [(7, "")] ["fox"] [7] 10 = Raise ZeroDivisionError
  /\ query_main "C:\index" 10 ["fox"] (snd (buildIndex (Some punctuation_corpus) "C:" []))
     = Raise ZeroDivisionError.
Proof. split; vm_compute; reflexivity. Qed.

(** ** C6 *)

(** The loop over the terms of a phrase leaves at a term that is not in the
    index and keeps the documents found so far. *)
Lemma getPhraseResults_terms_break index term rest docs :
  get_entry term index = None ->
  getPhraseResults_terms index (term :: rest) docs = docs.
Proof. intros H; cbn [getPhraseResults_terms]; now rewrite H. Qed.

(** The loop over the documents left for a phrase: it goes through when the
    documents are keys of the forward index, and returns, besides those it
    had, the documents whose text holds the phrase. *)
Lemma getPhraseResults_docs_spec docIndex p docs : forall pr cd,
  incl docs (dict_keys docIndex) ->
  exists pr' cd',
    getPhraseResults_docs docIndex p docs pr cd = Ok (pr', cd')
    /\ forall d, In d pr' <->
         In d pr \/ (In d docs /\ exists text, dict_get Z.eqb d docIndex = Some text
                                   /\ py_contains (py_strip p) text = true).
Proof.
  induction docs as [|x docs IH]; intros pr cd Hincl; cbn [getPhraseResults_docs].
  - exists pr, cd; split; [reflexivity|]; intros d; simpl; tauto.
  - destruct (dict_get_Some_in Z.eqb Z.eqb_eq x docIndex (Hincl x (or_introl eq_refl)))
      as [text Ht]; rewrite Ht.
    match goal with
    | |- context [getPhraseResults_docs _ _ _ ?a ?b] =>
        destruct (IH a b (fun d Hd => Hincl d (or_intror Hd))) as (pr' & cd' & Hr & Hin)
    end.
    exists pr', cd'; split; [exact Hr|].
    intros d; rewrite Hin; clear Hin Hr.
    destruct (py_contains (py_strip p) text) eqn:Ec; cbn [andb].
    + destruct (Z_mem x pr) eqn:Em; cbn [negb].
      * apply Z_mem_In in Em; split.
        -- intros [H|[H1 H2]]; [now left|right; split; [now right|exact H2]].
        -- intros [H|[[<-|H1] H2]]; [now left|now left|right; now split].
      * rewrite in_app_iff; simpl; split.
        -- intros [[H|[<-|[]]]|[H1 H2]]; [now left| |right; split; [now right|exact H2]].
           right; split; [now left|now exists text].
        -- intros [H|[[<-|H1] H2]]; [left; now left|left; right; now left|right; now split].
    + split.
      * intros [H|[H1 H2]]; [now left|right; split; [now right|exact H2]].
      * intros [H|[[<-|H1] H2]]; [now left| |right; now split].
        destruct H2 as [text' [Ht' Hc]]; rewrite Ht in Ht'; injection Ht' as <-; congruence.
Qed.

(** A phrase whose first term is not in the index returns every document
    whose text holds the phrase as a substring. *)
Lemma absent_first_term_contributes index docIndex p term rest d text :
  py_split p = term :: rest -> get_entry term index = None ->
  dict_get Z.eqb d docIndex = Some text ->
  py_contains (py_strip p) text = true ->
  exists docs n, getPhraseResults index docIndex [p] = Ok (docs, n) /\ In d docs.
Proof.
  intros Hsplit Habsent Hd Hc; unfold getPhraseResults; cbn [fold_result].
  unfold getPhraseResults_phrase; rewrite Hsplit.
  rewrite (getPhraseResults_terms_break index term rest _ Habsent); cbn [fst snd].
  destruct (getPhraseResults_docs_spec docIndex p (dict_keys docIndex) [] []
              (fun x Hx => Hx)) as (pr & cd & Hr & Hin).
  rewrite Hr; cbn [bind].
  do 2 eexists; split; [reflexivity|].
  apply sort_by_In, Hin; right; split; [|now exists text].
  apply dict_get_In in Hd; [|exact Z.eqb_eq].
  change d with (fst (d, text)); now apply in_map.
Qed.

(** C6 (the code departs from the claim). The term "bro" of the phrase
    "quick bro" is in no postings of the index, yet the phrase returns
    document 2: the term loop stopped with the documents of "quick", and the
    text of document 2 holds the phrase as a substring. *)
Theorem C6_phrase_with_absent_term_contributes :
  get_entry "bro" fox_index = None
  /\ getPhraseResults fox_index fox_loaded_docIndex ["quick bro"] = Ok ([2], 1).
Proof. split; [reflexivity|vm_compute; reflexivity]. Qed.

(** ** C1 *)

(** C1 (the code departs from the claim). Reading back the files written for
    a build returns the inverted index as built, but each document string
    without its last character: line 145 of query.py cuts two characters,
    the newline and the blank that line 57 of index.py puts after every
    token. *)
Theorem C1_round_trip_drops_trailing_blank :
  generateIndex fox_corpus = Ok (fox_index, fox_docIndex)
  /\ deserialize (serialize (fox_index, fox_docIndex)) = Ok (fox_index, fox_loaded_docIndex)
  /\ buildIndexes "C:\index" (snd (buildIndex (Some fox_corpus) "C:" []))
     = Ok (fox_index, fox_loaded_docIndex)
  /\ dict_get Z.eqb 1 fox_docIndex = Some "brown dog fox "
  /\ dict_get Z.eqb 1 fox_loaded_docIndex = Some "brown dog fox".
Proof. repeat split; vm_compute; reflexivity. Qed.

(** A second way the round trip fails: the postings [[None]] of a zone read
    before the identifier are written as text that [int()] refuses. *)
Example round_trip_of_null_postings :
  generateIndex zone_first_corpus
  = Ok ([("hello", mkEntry 1 [None]); ("world", mkEntry 1 [None])], [(5, "hello world ")])
  /\ deserialize (serialize ([("hello", mkEntry 1 [None]); ("world", mkEntry 1 [None])],
                              [(5, "hello world ")]))
     = Raise ValueError.
Proof. split; vm_compute; reflexivity. Qed.

(** ** Integers written and read back *)

Lemma strip_nothing (f : ascii -> bool) (s : string) :
  str_forallb (fun c => negb (f c)) s = true ->
  lstrip_by f s = s /\ rstrip_by f s = s.
Proof.
  induction s as [|c s IH]; simpl; [tauto|].
  intros H; apply andb_prop in H as [Hc Hs]; apply negb_true_iff in Hc.
  rewrite Hc; split; [reflexivity|].
  destruct (IH Hs) as [_ ->]; now destruct s.
Qed.

Lemma digits_are_digits (d : Decimal.uint) :
  str_forallb is_digit (NilEmpty.string_of_uint d) = true.
Proof. induction d; simpl; [reflexivity|..]; exact IHd. Qed.

Lemma str_forallb_impl (f g : ascii -> bool) (s : string) :
  (forall c, f c = true -> g c = true) ->
  str_forallb f s = true -> str_forallb g s = true.
Proof.
  intros Hfg; induction s as [|c s IH]; simpl; [reflexivity|].
  intros H; apply andb_prop in H as [Hc Hs]; now rewrite (Hfg c Hc), IH.
Qed.

Lemma digit_not_int_space (c : ascii) : is_digit c = true -> negb (is_int_space c) = true.
Proof. each_char c; vm_compute; intros H; first [reflexivity|discriminate H]. Qed.

Lemma parse_digits_acc (d : Decimal.uint) : forall p : positive,
  parse_digits (Zpos p) true (NilEmpty.string_of_uint d) = Some (Zpos (Pos.of_uint_acc d p)).
Proof.
  induction d; intros p; cbn [NilEmpty.string_of_uint Pos.of_uint_acc parse_digits];
    [reflexivity|..];
    match goal with
    | |- context [is_digit ?c] => change (is_digit c) with true; cbv iota
    end;
    rewrite <- IHd; f_equal; vm_compute digit_val; lia.
Qed.

Lemma parse_digits_zero (d : Decimal.uint) :
  parse_digits 0 true (NilEmpty.string_of_uint d) = Some (Z.of_N (Pos.of_uint d)).
Proof.
  induction d; cbn [NilEmpty.string_of_uint Pos.of_uint parse_digits];
    [reflexivity|..];
    match goal with
    | |- context [is_digit ?c] => change (is_digit c) with true; cbv iota
    end;
    [exact IHd|..]; apply parse_digits_acc.
Qed.

Lemma parse_digits_start (d : Decimal.uint) :
  d <> Decimal.Nil ->
  parse_digits 0 false (NilEmpty.string_of_uint d) = Some (Z.of_N (Pos.of_uint d)).
Proof.
  intros Hd; rewrite <- parse_digits_zero; destruct d; [contradiction|..]; reflexivity.
Qed.

Lemma digits_not_int_space (d : Decimal.uint) :
  str_forallb (fun c => negb (is_int_space c)) (NilEmpty.string_of_uint d) = true.
Proof.
  apply (str_forallb_impl is_digit); [exact digit_not_int_space|apply digits_are_digits].
Qed.

Lemma py_int_str_digits (d : Decimal.uint) :
  d <> Decimal.Nil ->
  py_int_str (NilEmpty.string_of_uint d) = Ok (Z.of_N (Pos.of_uint d)).
Proof.
  intros Hd; unfold py_int_str.
  destruct (strip_nothing is_int_space _ (digits_not_int_space d)) as [-> ->].
  pose proof (parse_digits_start d Hd) as H.
  destruct d; [contradiction|..]; cbn [NilEmpty.string_of_uint] in H |- *;
    cbv iota; rewrite H; reflexivity.
Qed.

Lemma py_int_str_minus_digits (d : Decimal.uint) :
  d <> Decimal.Nil ->
  py_int_str (String "-" (NilEmpty.string_of_uint d)) = Ok (- Z.of_N (Pos.of_uint d)).
Proof.
  intros Hd; unfold py_int_str.
  destruct (strip_nothing is_int_space (String "-" (NilEmpty.string_of_uint d))) as [-> ->].
  { cbn [str_forallb]; apply andb_true_intro; split; [reflexivity|].
    apply digits_not_int_space. }
  cbv iota; rewrite (parse_digits_start d Hd); reflexivity.
Qed.

Lemma py_str_pos (p : positive) : py_str (Zpos p) = NilEmpty.string_of_uint (Pos.to_uint p).
Proof.
  unfold py_str; cbn [Z.to_int NilZero.string_of_int]; unfold NilZero.string_of_uint.
  pose proof (DecimalPos.Unsigned.to_uint_nonnil p).
  destruct (Pos.to_uint p); [contradiction|..]; reflexivity.
Qed.

Lemma py_str_neg (p : positive) :
  py_str (Zneg p) = String "-" (NilEmpty.string_of_uint (Pos.to_uint p)).
Proof.
  unfold py_str; cbn [Z.to_int NilZero.string_of_int]; unfold NilZero.string_of_uint.
  pose proof (DecimalPos.Unsigned.to_uint_nonnil p).
  destruct (Pos.to_uint p); [contradiction|..]; reflexivity.
Qed.

(** [int(str(z))] is [z]. *)
Lemma py_int_str_py_str (z : Z) : py_int_str (py_str z) = Ok z.
Proof.
  destruct z as [|p|p]; [reflexivity|..].
  - rewrite py_str_pos, py_int_str_digits by apply DecimalPos.Unsigned.to_uint_nonnil.
    now rewrite DecimalPos.Unsigned.of_to.
  - rewrite py_str_neg, py_int_str_minus_digits by apply DecimalPos.Unsigned.to_uint_nonnil.
    now rewrite DecimalPos.Unsigned.of_to.
Qed.

(** ** Splitting what was joined *)

Lemma prefix_app (a b : string) : String.prefix a (a ++ b) = true.
Proof.
  induction a as [|c a IH]; simpl; [now destruct b|].
  destruct (ascii_dec c c); [exact IH|contradiction].
Qed.

Lemma prefix_other_head (x c : ascii) (sep s : string) :
  Ascii.eqb c x = false -> String.prefix (String x sep) (String c s) = false.
Proof.
  intros H; simpl; destruct (ascii_dec x c) as [->|_]; [|reflexivity].
  rewrite Ascii.eqb_refl in H; discriminate.
Qed.

Section SplitSep.
Variable x : ascii.
Variable sep' : string.
Let sep := String x sep'.

Lemma split_sep_skip (rest w : string) : forall pre,
  split_sep_go sep (String.length pre) w (pre ++ rest) = split_sep_go sep O w rest.
Proof.
  induction pre as [|c pre IH]; [reflexivity|exact IH].
Qed.

Lemma split_sep_field (a rest : string) : forall w,
  lacks x a = true ->
  split_sep_go sep O w (a ++ sep ++ rest) = (w ++ a)%string :: split_sep_go sep O "" rest.
Proof.
  induction a as [|c a IH]; intros w Ha.
  - cbn [String.append]; rewrite str_app_nil_r.
    unfold sep at 2; cbn [String.append split_sep_go].
    change (String x (sep' ++ rest)) with (sep ++ rest)%string.
    rewrite prefix_app; f_equal.
    unfold sep at 2; cbn [String.length Nat.pred].
    apply split_sep_skip.
  - unfold lacks in Ha; cbn [str_forallb] in Ha; apply andb_prop in Ha as [Hc Ha].
    apply negb_true_iff in Hc.
    cbn [String.append split_sep_go].
    unfold sep at 1; rewrite (prefix_other_head x c sep' _ Hc).
    rewrite (IH (w ++ str1 c)%string Ha), str_app_assoc; reflexivity.
Qed.

Lemma split_sep_last (a : string) : forall w,
  lacks x a = true -> split_sep_go sep O w a = [(w ++ a)%string].
Proof.
  induction a as [|c a IH]; intros w Ha.
  - cbn [split_sep_go]; now rewrite str_app_nil_r.
  - unfold lacks in Ha; cbn [str_forallb] in Ha; apply andb_prop in Ha as [Hc Ha].
    apply negb_true_iff in Hc.
    cbn [split_sep_go]; unfold sep at 1; rewrite (prefix_other_head x c sep' _ Hc).
    rewrite (IH (w ++ str1 c)%string Ha), str_app_assoc; reflexivity.
Qed.

(** [sep.join(l).split(sep)] is [l] for a non-empty list of fields without
    the first character of [sep]. *)
Lemma split_sep_join (f : string) (l : list string) :
  Forall (fun a => lacks x a = true) (f :: l) ->
  py_split_sep sep (str_join sep (f :: l)) = f :: l.
Proof.
  unfold py_split_sep; revert f; induction l as [|g l IH]; intros f H.
  - inversion H; subst; cbn [str_join]; now rewrite split_sep_last.
  - inversion H as [|? ? Hf Hl]; subst.
    change (str_join sep (f :: g :: l)) with (f ++ sep ++ str_join sep (g :: l))%string.
    rewrite split_sep_field by exact Hf.
    cbn [String.append]; f_equal; now apply IH.
Qed.
End SplitSep.

Lemma lines_go_line (body rest : string) : forall cur,
  lacks nl body = true -> lacks cr body = true ->
  lines_go cur (body ++ String nl rest) = (cur ++ body ++ str1 nl)%string :: lines_go "" rest.
Proof.
  induction body as [|c body IH]; intros cur Hb Hr.
  - cbn [String.append lines_go]; rewrite Ascii.eqb_refl; reflexivity.
  - unfold lacks in Hb, Hr; cbn [str_forallb] in Hb, Hr.
    apply andb_prop in Hb as [Hc Hb]; apply andb_prop in Hr as [Hc' Hr].
    apply negb_true_iff in Hc, Hc'.
    cbn [String.append]; cbn [lines_go]; rewrite Hc, Hc', (IH _ Hb Hr), str_app_assoc.
    reflexivity.
Qed.

(** A file written line by line is read back line by line. *)
Lemma file_lines_written {A : Type} (body : A -> string) (items : list A) :
  Forall (fun it => lacks nl (body it) = true /\ lacks cr (body it) = true) items ->
  file_lines (write_lines (fun it => body it ++ str1 nl)%string items)
  = map (fun it => body it ++ str1 nl)%string items.
Proof.
  unfold file_lines, write_lines; induction 1 as [|it items [Hit Hcr] _ IH]; [reflexivity|].
  cbn [map str_concat].
  rewrite str_app_assoc; change (str1 nl ++ ?r)%string with (String nl r).
  rewrite (lines_go_line _ _ "" Hit Hcr); cbn [String.append]; now rewrite IH.
Qed.

Lemma substring_0_0 (s : string) : String.substring 0 0 s = "".
Proof. now destruct s. Qed.

Lemma substring_prefix_app (a b : string) : forall n,
  (n <= String.length a)%nat -> String.substring 0 n (a ++ b) = String.substring 0 n a.
Proof.
  induction a as [|c a IH]; intros n Hn; simpl in Hn.
  - replace n with O by lia; simpl; now rewrite substring_0_0.
  - destruct n as [|n]; [reflexivity|]; simpl; rewrite IH by lia; reflexivity.
Qed.

(** Line 134 of query.py: the text between the brackets. *)
Lemma py_slice_inner (a b c : ascii) (body : string) :
  let s := String a (body ++ String b (str1 c)) in
  py_slice s 1 (str_len s - 2) = body.
Proof.
  cbv zeta; unfold py_slice, slice_bound.
  rewrite str_len_String, str_len_app.
  change (str_len (String b (str1 c))) with 2.
  pose proof (str_len_nonneg body) as Hb.
  change (1 <? 0) with false; cbv iota.
  assert (H1 : (str_len body + 2 + 1 - 2 <? 0) = false) by (apply Z.ltb_ge; lia).
  rewrite H1, (Z.min_l 1) by lia.
  rewrite Z.min_l by lia.
  destruct (str_len body + 2 + 1 - 2 <=? 1) eqn:Hle.
  - apply Z.leb_le in Hle; destruct body; [reflexivity|].
    rewrite str_len_String in Hle; pose proof (str_len_nonneg body); lia.
  - replace (Z.to_nat (str_len body + 2 + 1 - 2 - 1)) with (String.length body)
      by (unfold str_len; lia).
    change (Z.to_nat 1) with 1%nat; simpl String.substring.
    apply substring_whole_prefix.
Qed.

(** Line 145 of query.py: the newline goes, and the character before it. *)
Lemma py_slice_chop (text : string) :
  py_slice (text ++ str1 nl) 0 (str_len (text ++ str1 nl) - 2) = chop text.
Proof.
  unfold py_slice, slice_bound, chop.
  rewrite str_len_app; change (str_len (str1 nl)) with 1.
  pose proof (str_len_nonneg text) as Ht.
  change (0 <? 0) with false; cbv iota.
  rewrite (Z.min_l 0) by lia.
  destruct (str_len text + 1 - 2 <? 0) eqn:Hneg.
  - apply Z.ltb_lt in Hneg.
    assert (E : str_len text = 0) by lia.
    rewrite E; cbn.
    destruct text; [reflexivity|rewrite str_len_String in E; pose proof (str_len_nonneg text); lia].
  - apply Z.ltb_ge in Hneg; rewrite Z.min_l by lia.
    destruct (str_len text + 1 - 2 <=? 0) eqn:Hle.
    + apply Z.leb_le in Hle.
      replace (String.length text - 1)%nat with O by (unfold str_len in *; lia).
      now rewrite substring_0_0.
    + rewrite Z.sub_0_r; change (Z.to_nat 0) with O.
      replace (Z.to_nat (str_len text + 1 - 2)) with (String.length text - 1)%nat
        by (unfold str_len; lia).
      apply substring_prefix_app; lia.
Qed.

(** *** Characters of the written fields *)

Lemma lacks_of (P : ascii -> bool) (x : ascii) (s : string) :
  P x = false -> str_forallb P s = true -> lacks x s = true.
Proof.
  intros Hx; apply str_forallb_impl; intros c Hc.
  apply negb_true_iff; destruct (Ascii.eqb_spec c x) as [->|_]; [congruence|reflexivity].
Qed.

Lemma num_chars_py_str (z : Z) : str_forallb num_char (py_str z) = true.
Proof.
  assert (H : forall d, str_forallb num_char (NilEmpty.string_of_uint d) = true).
  { intros d; apply (str_forallb_impl is_digit); [|apply digits_are_digits].
    intros c Hc; unfold num_char; now rewrite Hc. }
  destruct z as [|p|p]; [reflexivity|rewrite py_str_pos|rewrite py_str_neg]; cbn [str_forallb];
    rewrite H; reflexivity.
Qed.

Lemma str_forallb_join (P : ascii -> bool) (sep : string) (l : list string) :
  str_forallb P sep = true -> Forall (fun a => str_forallb P a = true) l ->
  str_forallb P (str_join sep l) = true.
Proof.
  intros Hsep; induction 1 as [|a l Ha Hl IH]; [reflexivity|].
  destruct l as [|b l]; [exact Ha|].
  change (str_join sep (a :: b :: l)) with (a ++ sep ++ str_join sep (b :: l))%string.
  now rewrite !str_forallb_app, Ha, Hsep, IH.
Qed.

Lemma ids_chars_join (zs : list Z) :
  str_forallb ids_char (str_join ", " (map py_str zs)) = true.
Proof.
  apply str_forallb_join; [reflexivity|].
  apply Forall_forall; intros a Ha; apply in_map_iff in Ha as [z [<- _]].
  apply (str_forallb_impl num_char); [|apply num_chars_py_str].
  intros c Hc; unfold ids_char; now rewrite Hc.
Qed.

Lemma lower_word_lacks (x : ascii) (t : string) :
  lower_word x = false -> str_forallb lower_word t = true -> lacks x t = true.
Proof. apply lacks_of. Qed.

Lemma text_chars_app (a b : string) :
  str_forallb text_char a = true -> str_forallb text_char b = true ->
  str_forallb text_char (a ++ b) = true.
Proof. intros Ha Hb; now rewrite str_forallb_app, Ha, Hb. Qed.

(** *** One line written, one entry read *)

Lemma map_result_ints (zs : list Z) : map_result py_int_str (map py_str zs) = Ok zs.
Proof.
  induction zs as [|z zs IH]; [reflexivity|].
  cbn [map map_result]; rewrite py_int_str_py_str; cbn [bind]; now rewrite IH.
Qed.

Lemma py_str_lacks (x : ascii) (z : Z) : num_char x = false -> lacks x (py_str z) = true.
Proof. intros Hx; apply (lacks_of num_char x); [exact Hx|apply num_chars_py_str]. Qed.

Lemma py_str_ids_ints (zs : list Z) :
  py_str_ids (map Some zs) = String "[" (str_join ", " (map py_str zs) ++ "]").
Proof. unfold py_str_ids; now rewrite map_map. Qed.

Lemma py_str_ids_lacks (x : ascii) (zs : list Z) :
  ids_char x = false -> lacks x (py_str_ids (map Some zs)) = true.
Proof.
  intros Hx; apply (lacks_of ids_char x _ Hx).
  rewrite py_str_ids_ints; cbn [str_forallb]; rewrite str_forallb_app, ids_chars_join.
  reflexivity.
Qed.

Lemma lacks_app (x : ascii) (a b : string) :
  lacks x a = true -> lacks x b = true -> lacks x (a ++ b) = true.
Proof. unfold lacks; intros Ha Hb; now rewrite str_forallb_app, Ha, Hb. Qed.

(** Lines 132-139 of query.py read an entry back from the line that line 118
    of index.py writes for it. *)
Lemma index_line_read (t : string) (df : Z) (zs : list Z) (index : index_t) :
  lacks tab t = true -> zs <> [] ->
  buildIndexes_index_line (index_line (t, mkEntry df (map Some zs))) index
  = Ok (set_entry t (mkEntry df (map Some zs)) index).
Proof.
  intros Ht Hzs; unfold buildIndexes_index_line, index_line, py_split_sep.
  cbn [fst snd DF postings]; unfold str1 at 1 2 3 4.
  rewrite (split_sep_field tab "" t _ "" Ht).
  rewrite (split_sep_field tab "" (py_str df) _ "" (py_str_lacks tab df eq_refl)).
  rewrite (split_sep_last tab "" _ "");
    [|apply lacks_app; [now apply py_str_ids_lacks|reflexivity]].
  cbn [String.append].
  rewrite py_str_ids_ints; cbn [String.append]; rewrite str_app_assoc.
  change ("]" ++ String nl "")%string with (String "]" (str1 nl)).
  pose proof (py_slice_inner "[" "]" nl (str_join ", " (map py_str zs))) as Hs.
  cbv zeta in Hs; rewrite Hs; clear Hs.
  destruct zs as [|z zs]; [contradiction|]; cbn [map].
  pose proof (split_sep_join "," " " (py_str z) (map py_str zs)) as Hj.
  unfold py_split_sep in Hj; rewrite Hj; clear Hj.
  - change (py_str z :: map py_str zs) with (map py_str (z :: zs)).
    rewrite map_result_ints; cbn [bind].
    rewrite py_int_str_py_str; reflexivity.
  - change (py_str z :: map py_str zs) with (map py_str (z :: zs)).
    apply Forall_forall; intros a Ha; apply in_map_iff in Ha as [y [<- _]].
    now apply py_str_lacks.
Qed.

(** Lines 143-145 of query.py read a document back, without the last
    character of its text, from the line that line 113 of index.py writes. *)
Lemma docIndex_line_read (d : Z) (text : string) (docIndex : docindex_t) :
  lacks tab text = true ->
  buildIndexes_doc_line (docIndex_line (d, text)) docIndex
  = Ok (dict_set Z.eqb d (chop text) docIndex).
Proof.
  intros Ht; unfold buildIndexes_doc_line, docIndex_line, py_split_sep.
  cbn [fst snd]; unfold str1 at 1 2.
  rewrite (split_sep_field tab "" (py_str d) _ "" (py_str_lacks tab d eq_refl)).
  rewrite (split_sep_last tab "" _ ""); [|apply lacks_app; [exact Ht|reflexivity]].
  cbn [String.append bind].
  rewrite py_int_str_py_str; cbn [bind].
  change (String nl "") with (str1 nl); now rewrite py_slice_chop.
Qed.

(** *** Files written, indexes read *)

Section DictKeys.
Context {K V : Type} (keq : K -> K -> bool).
Hypothesis keq_eq : forall a b, keq a b = true <-> a = b.

Lemma dict_set_fresh (k : K) (v : V) (d : list (K * V)) :
  ~ In k (dict_keys d) -> dict_set keq k v d = d ++ [(k, v)].
Proof.
  induction d as [|[k0 v0] d IH]; simpl; [reflexivity|].
  intros H; destruct (keq k k0) eqn:E.
  - apply keq_eq in E; subst; tauto.
  - rewrite IH by tauto; reflexivity.
Qed.

Lemma dict_set_NoDup (k : K) (v : V) (d : list (K * V)) :
  NoDup (dict_keys d) -> NoDup (dict_keys (dict_set keq k v d)).
Proof.
  induction d as [|[k0 v0] d IH]; simpl; intros H.
  - repeat constructor; tauto.
  - inversion H as [|? ? Hk0 Hd]; subst.
    destruct (keq k k0) eqn:E; simpl.
    + apply keq_eq in E; subst; now constructor.
    + constructor; [|now apply IH].
      intros Hin; apply in_map_iff in Hin as [[k1 v1] [Hk Hin]]; simpl in Hk; subst k1.
      apply dict_set_In in Hin as [[= -> _]|Hin].
      * assert (keq k k = true) by now apply keq_eq.
        congruence.
      * apply Hk0; change k0 with (fst (k0, v1)); now apply in_map.
Qed.
End DictKeys.

Lemma index_line_body (item : string * entry) :
  index_line item = (index_body item ++ str1 nl)%string.
Proof. unfold index_line, index_body; now rewrite !str_app_assoc. Qed.

Lemma docIndex_line_body (doc : Z * string) :
  docIndex_line doc = (docIndex_body doc ++ str1 nl)%string.
Proof. unfold docIndex_line, docIndex_body; now rewrite !str_app_assoc. Qed.

Lemma index_body_lacks_nl (item : string * entry) :
  readable_item item ->
  lacks nl (index_body item) = true /\ lacks cr (index_body item) = true.
Proof.
  intros [_ [Hnl [Hcr [zs [_ Hps]]]]]; unfold index_body; rewrite Hps; split.
  - apply lacks_app; [exact Hnl|].
    apply lacks_app; [reflexivity|].
    apply lacks_app; [now apply py_str_lacks|].
    apply lacks_app; [reflexivity|now apply py_str_ids_lacks].
  - apply lacks_app; [exact Hcr|].
    apply lacks_app; [reflexivity|].
    apply lacks_app; [now apply py_str_lacks|].
    apply lacks_app; [reflexivity|now apply py_str_ids_lacks].
Qed.

Lemma docIndex_body_lacks_nl (doc : Z * string) :
  readable_doc doc ->
  lacks nl (docIndex_body doc) = true /\ lacks cr (docIndex_body doc) = true.
Proof.
  intros H; unfold docIndex_body; split.
  - apply lacks_app; [now apply py_str_lacks|].
    apply lacks_app; [reflexivity|now apply (lacks_of text_char nl)].
  - apply lacks_app; [now apply py_str_lacks|].
    apply lacks_app; [reflexivity|now apply (lacks_of text_char cr)].
Qed.

Lemma read_index_lines (items : list (string * entry)) : forall acc,
  NoDup (dict_keys (acc ++ items)) -> Forall readable_item items ->
  fold_result buildIndexes_index_line (map index_line items) acc = Ok (acc ++ items).
Proof.
  induction items as [|[t e] items IH]; intros acc Hnd Hit; cbn [map fold_result].
  - now rewrite app_nil_r.
  - inversion Hit as [|? ? [Htab [_ [_ [zs [Hzs Hps]]]]] Hit']; subst.
    cbn [fst snd] in *; destruct e as [df ps]; cbn [postings] in Hps; subst ps.
    rewrite (index_line_read t df zs acc Htab Hzs); cbn [bind].
    unfold set_entry; rewrite (dict_set_fresh String.eqb String.eqb_eq).
    + rewrite IH; [now rewrite <- app_assoc|now rewrite <- app_assoc|exact Hit'].
    + unfold dict_keys in *; rewrite map_app in Hnd; cbn [map fst] in Hnd.
      apply NoDup_remove_2 in Hnd; intros Hin; apply Hnd, in_or_app; now left.
Qed.

Lemma read_docIndex_lines (docs : list (Z * string)) : forall acc,
  NoDup (dict_keys (acc ++ docs)) -> Forall readable_doc docs ->
  fold_result buildIndexes_doc_line (map docIndex_line docs) acc
  = Ok (acc ++ chop_texts docs).
Proof.
  induction docs as [|[d text] docs IH]; intros acc Hnd Hit; cbn [map fold_result].
  - unfold chop_texts; cbn [map]; now rewrite app_nil_r.
  - inversion Hit as [|? ? Hd Hit']; subst; unfold readable_doc in Hd; cbn [snd] in Hd.
    rewrite (docIndex_line_read d text acc); [|now apply (lacks_of text_char tab)].
    cbn [bind]; rewrite (dict_set_fresh Z.eqb Z.eqb_eq).
    + rewrite IH; [unfold chop_texts; cbn [map fst snd]; now rewrite <- app_assoc| |exact Hit'].
      unfold dict_keys in *; rewrite !map_app in *; cbn [map fst] in *.
      now rewrite <- app_assoc.
    + unfold dict_keys in *; rewrite map_app in Hnd; cbn [map fst] in Hnd.
      apply NoDup_remove_2 in Hnd; intros Hin; apply Hnd, in_or_app; now left.
Qed.

(** Reading back what was written for readable indexes with distinct keys. *)
Lemma deserialize_serialize (index : index_t) (docIndex : docindex_t) :
  NoDup (dict_keys index) -> Forall readable_item index ->
  NoDup (dict_keys docIndex) -> Forall readable_doc docIndex ->
  deserialize (serialize (index, docIndex)) = Ok (index, chop_texts docIndex).
Proof.
  intros Hk Hi Hd Ht; unfold deserialize, serialize; cbn [fst snd].
  assert (E1 : write_lines index_line index
               = write_lines (fun it => index_body it ++ str1 nl)%string index).
  { unfold write_lines; f_equal; apply map_ext; exact index_line_body. }
  assert (E2 : write_lines docIndex_line docIndex
               = write_lines (fun it => docIndex_body it ++ str1 nl)%string docIndex).
  { unfold write_lines; f_equal; apply map_ext; exact docIndex_line_body. }
  rewrite E1, E2, !file_lines_written.
  - rewrite (map_ext _ index_line) by (intros; symmetry; apply index_line_body).
    rewrite (map_ext _ docIndex_line) by (intros; symmetry; apply docIndex_line_body).
    rewrite (read_index_lines index [] Hk Hi); cbn [bind].
    rewrite (read_docIndex_lines docIndex [] Hd Ht); reflexivity.
  - eapply Forall_impl; [|exact Ht]; exact docIndex_body_lacks_nl.
  - eapply Forall_impl; [|exact Hi]; exact index_body_lacks_nl.
Qed.

(** *** What a build returns can be read *)

Lemma py_sort_ids_length (l l' : list (option Z)) :
  py_sort_ids l = Ok l' -> List.length l' = List.length l.
Proof.
  unfold py_sort_ids; destruct l as [|a [|b l]]; try (intros [= <-]; reflexivity).
  destruct (all_ints (a :: b :: l)) as [zs|] eqn:E; [|discriminate].
  intros [= <-]; apply all_ints_map in E; rewrite E, !length_map.
  apply sort_by_length.
Qed.

Lemma posting_keeps_keys docId token index index' :
  keys_distinct_postings_nonempty index ->
  generateIndex_posting docId token index = Ok index' ->
  keys_distinct_postings_nonempty index'.
Proof.
  intros [Hnd Hne] H; unfold generateIndex_posting in H.
  destruct (get_entry token index) as [e|] eqn:Eg.
  - destruct (id_mem docId (postings e)); cbn [negb] in H.
    + injection H as <-; now split.
    + bind_ok H; injection H as <-; split.
      * apply (dict_set_NoDup String.eqb String.eqb_eq), Hnd.
      * intros t e' Hin; apply set_entry_In in Hin as [[= -> ->]|Hin];
          [|eapply Hne; eassumption].
        cbn [postings]; apply py_sort_ids_length in E.
        rewrite length_app in E; simpl in E; destruct a; [simpl in E; lia|discriminate].
  - injection H as <-; split.
    + apply (dict_set_NoDup String.eqb String.eqb_eq), Hnd.
    + intros t e' Hin; apply set_entry_In in Hin as [[= -> ->]|Hin];
        [discriminate|eapply Hne; eassumption].
Qed.

Lemma ints_of_postings (l : list (option Z)) :
  ~ In None l -> exists zs, l = map Some zs.
Proof.
  induction l as [|[z|] l IH]; intros H.
  - now exists [].
  - destruct IH as [zs ->]; [intros Hin; apply H; now right|]; now exists (z :: zs).
  - exfalso; apply H; now left.
Qed.

Lemma build_index_readable c index docIndex :
  generateIndex c = Ok (index, docIndex) ->
  (forall t e, In (t, e) index -> ~ In None (postings e)) ->
  NoDup (dict_keys index) /\ Forall readable_item index.
Proof.
  intros H Hnone.
  pose proof (build_terms_shape c index docIndex H) as Hshape.
  unfold generateIndex in H; bind_ok H; injection H as <- <-.
  assert (Hk : keys_distinct_postings_nonempty (bs_index a)).
  { refine (docs_preserves (fun _ => True) all_words_trivial
              keys_distinct_postings_nonempty _ c (mkBuildState [] [] []) a _ E).
    - intros; eapply posting_keeps_keys; eassumption.
    - split; [constructor|intros ? ? []]. }
  destruct Hk as [Hnd Hne]; split.
  - unfold dict_keys; eapply Permutation_NoDup; [|exact Hnd].
    apply Permutation_map; symmetry; apply sort_by_perm.
  - apply Forall_forall; intros [t e] Hin.
    destruct (Hshape t e Hin) as [_ Hw].
    repeat split; cbn [fst snd].
    + now apply (lower_word_lacks tab).
    + now apply (lower_word_lacks nl).
    + now apply (lower_word_lacks cr).
    + destruct (ints_of_postings _ (Hnone t e Hin)) as [zs Hzs]; exists zs; split; [|exact Hzs].
      apply sort_by_In in Hin; apply Hne in Hin; rewrite Hzs in Hin.
      now destruct zs.
Qed.

Lemma lower_word_text_char (s : string) :
  str_forallb lower_word s = true -> str_forallb text_char s = true.
Proof.
  apply str_forallb_impl; intros c Hc; unfold text_char; now rewrite Hc.
Qed.

Lemma zone_text_chars (words : list string) :
  Forall (fun u => no_space u = true) words ->
  str_forallb text_char
    (zone_text (filter (fun t => negb (str_is_empty t)) (map normalize words))) = true.
Proof.
  induction 1 as [|w words Hw _ IH]; [reflexivity|]; cbn [map filter].
  destruct (str_is_empty (normalize w)); cbn [negb]; [exact IH|].
  unfold zone_text; cbn [map str_concat]; fold (zone_text (filter (fun t => negb (str_is_empty t)) (map normalize words))).
  rewrite !str_forallb_app, IH, (lower_word_text_char _ (normalize_shape w Hw)); reflexivity.
Qed.

Lemma fields_text_chars fields : forall st st',
  generateIndex_fields fields st = Ok st' ->
  str_forallb text_char (ds_docString st) = true ->
  str_forallb text_char (ds_docString st') = true.
Proof.
  induction fields as [|[key v] fields IH]; intros st st' H Ht; cbn [generateIndex_fields] in H.
  - now injection H as <-.
  - destruct (is_empty_content v); [discriminate|].
    destruct (String.eqb key "doc_id").
    + bind_ok H. destruct (Z_mem a (ds_docIDs st)); [discriminate|].
      eapply IH; [exact H|exact Ht].
    + bind_ok H. bind_ok H. destruct a0 as [docString index].
      eapply IH; [exact H|]; cbn [ds_docString].
      destruct v; try discriminate; injection E as <-.
      rewrite (zone_docString _ _ _ _ _ _ E0).
      apply text_chars_app; [exact Ht|].
      apply zone_text_chars, Forall_forall; intros u Hu; now apply (py_split_units s).
Qed.

Lemma docs_docIndex_readable c : forall st st',
  generateIndex_docs c st = Ok st' ->
  docIndex_readable (bs_docIndex st) -> docIndex_readable (bs_docIndex st').
Proof.
  induction c as [|doc c IH]; intros st st' H HQ; cbn [generateIndex_docs] in H.
  - now injection H as <-.
  - bind_ok H; eapply IH; [exact H|].
    unfold generateIndex_doc in E.
    destruct (Z.of_nat (List.length doc) <=? 1); [discriminate|].
    bind_ok E. destruct (ds_docId a0); [|discriminate].
    injection E as <-; cbn [bs_docIndex].
    apply fields_text_chars in E0; [|reflexivity].
    destruct HQ as [Hnd Hall]; split.
    + apply (dict_set_NoDup Z.eqb Z.eqb_eq), Hnd.
    + apply Forall_forall; intros x Hx; apply dict_set_In in Hx as [->|Hx]; [exact E0|].
      rewrite Forall_forall in Hall; now apply Hall.
Qed.

Lemma build_docIndex_readable c index docIndex :
  generateIndex c = Ok (index, docIndex) -> docIndex_readable docIndex.
Proof.
  intros H; unfold generateIndex in H; bind_ok H; injection H as <- <-.
  destruct (docs_docIndex_readable c _ a E) as [Hnd Hall]; [split; constructor|].
  split.
  - unfold dict_keys; eapply Permutation_NoDup; [|exact Hnd].
    apply Permutation_map; symmetry; apply sort_by_perm.
  - apply Forall_forall; intros x Hx; apply sort_by_In in Hx.
    rewrite Forall_forall in Hall; now apply Hall.
Qed.

(** The round trip of a build whose postings hold no [None]: the inverted
    index is read back as built, the forward index with every document
    string cut by its last character. *)
Lemma build_round_trip c index docIndex :
  generateIndex c = Ok (index, docIndex) ->
  (forall t e, In (t, e) index -> ~ In None (postings e)) ->
  deserialize (serialize (index, docIndex)) = Ok (index, chop_texts docIndex).
Proof.
  intros H Hnone.
  destruct (build_index_readable c index docIndex H Hnone) as [Hk Hi].
  destruct (build_docIndex_readable c index docIndex H) as [Hd Ht].
  now apply deserialize_serialize.
Qed.

(** *** The order in which a set is iterated does not matter to the scorer *)

Lemma Z_mem_perm (d : Z) (l l' : list Z) : Permutation l l' -> Z_mem d l = Z_mem d l'.
Proof.
  intros Hp; destruct (Z_mem d l) eqn:E; symmetry.
  - apply Z_mem_In; apply Z_mem_In in E; eapply Permutation_in; eassumption.
  - destruct (Z_mem d l') eqn:E'; [|reflexivity].
    apply Z_mem_In in E'; apply Permutation_sym in Hp.
    assert (In d l) by (eapply Permutation_in; eassumption).
    apply Z_mem_In in H; congruence.
Qed.

Lemma cosineScore_add_any_order (w : PrimFloat.float) (L inter inter' : list Z)
    (f : Z -> PrimFloat.float) :
  NoDup L -> NoDup inter -> incl inter L -> Permutation inter inter' ->
  cosineScore_add w inter' (map (fun d => (d, f d)) L)
  = cosineScore_add w inter (map (fun d => (d, f d)) L).
Proof.
  intros HL Hnd Hincl Hp.
  assert (Hnd' : NoDup inter') by (eapply Permutation_NoDup; eassumption).
  assert (Hincl' : incl inter' L).
  { intros d Hd; apply Hincl; eapply Permutation_in; [symmetry|]; eassumption. }
  rewrite (cosineScore_add_spec w L inter HL Hnd Hincl f).
  rewrite (cosineScore_add_spec w L inter' HL Hnd' Hincl' f).
  apply map_ext; intros d; now rewrite (Z_mem_perm d inter inter' Hp).
Qed.

(** * Further properties of the query engine *)

(** ** [parseQuery]: when it returns, and what it returns *)

Lemma parseQuery_loop_ok_iff (query : list string) : forall st,
  is_ok (parseQuery_loop query st) = true <-> (~ In "" query /\ ~ In ":" query).
Proof.
  induction query as [|t q IH]; intros st; unfold parseQuery_loop in *; cbn [fold_result].
  - simpl; tauto.
  - pose proof (parseQuery_term_outcome t st) as H.
    destruct (parseQuery_term t st) as [st'|e]; cbn [bind term_outcome] in *.
    + rewrite IH; simpl; destruct H as [H1 H2]; split.
      * intros [A B]; split; intros [E|E]; try tauto; congruence.
      * tauto.
    + cbn [is_ok]; split; [discriminate|].
      intros [A B]; exfalso; destruct e; try contradiction; subst t; [apply B|apply A]; now left.
Qed.

Lemma split_last_char (t : string) :
  t <> "" -> exists a d, t = (a ++ str1 d)%string.
Proof.
  induction t as [|c t IH]; [congruence|]; intros _.
  destruct t as [|c' t'].
  - now exists "", c.
  - destruct IH as (a & d & E); [discriminate|].
    exists (String c a), d; cbn [String.append]; now rewrite <- E.
Qed.

Lemma last_char_app (a : string) (d : ascii) : last_char (a ++ str1 d) = Some d.
Proof.
  induction a as [|c a IH]; [reflexivity|].
  cbn [String.append last_char]; rewrite IH.
  destruct (a ++ str1 d)%string eqn:E; [|reflexivity].
  destruct a; discriminate.
Qed.

(** [term[len(term) - 1]] is the last character of a non-empty term. *)
Lemma py_index_last_char (t : string) :
  t <> "" -> exists d, last_char t = Some d /\ py_index t (str_len t - 1) = Ok d.
Proof.
  intros Ht; destruct (split_last_char t Ht) as (a & d & ->).
  exists d; split; [apply last_char_app|apply py_index_last_app].
Qed.

(** [term[1:]]. *)
Lemma py_slice_tail (c : ascii) (a : string) :
  py_slice (String c a) 1 (str_len (String c a)) = a.
Proof.
  unfold py_slice, slice_bound; rewrite str_len_String.
  pose proof (str_len_nonneg a) as Ha.
  change (1 <? 0) with false; cbv iota.
  assert (H1 : (str_len a + 1 <? 0) = false) by (apply Z.ltb_ge; lia).
  rewrite H1, (Z.min_l 1), Z.min_id by lia.
  destruct (str_len a + 1 <=? 1) eqn:Hle.
  - apply Z.leb_le in Hle; destruct a as [|x a']; [reflexivity|].
    rewrite str_len_String in Hle; pose proof (str_len_nonneg a'); lia.
  - replace (Z.to_nat (str_len a + 1 - 1)) with (String.length a) by (unfold str_len; lia).
    change (Z.to_nat 1) with 1%nat; simpl String.substring.
    rewrite <- (str_app_nil_r a) at 2; apply substring_whole_prefix.
Qed.

(** [term[:len(term) - 1]]. *)
Lemma py_slice_init (z : string) (d : ascii) :
  py_slice (z ++ str1 d) 0 (str_len (z ++ str1 d) - 1) = z.
Proof.
  unfold py_slice, slice_bound; rewrite str_len_app; change (str_len (str1 d)) with 1.
  pose proof (str_len_nonneg z) as Hz.
  change (0 <? 0) with false; cbv iota.
  assert (H1 : (str_len z + 1 - 1 <? 0) = false) by (apply Z.ltb_ge; lia).
  rewrite H1, (Z.min_l 0), Z.min_l by lia.
  destruct (str_len z + 1 - 1 <=? 0) eqn:Hle.
  - apply Z.leb_le in Hle; destruct z as [|x z']; [reflexivity|].
    rewrite str_len_String in Hle; pose proof (str_len_nonneg z'); lia.
  - rewrite Z.sub_0_r.
    replace (Z.to_nat (str_len z + 1 - 1)) with (String.length z) by (unfold str_len; lia).
    apply substring_whole_prefix.
Qed.

Lemma toggle_passes (t : string) (st : parse_state) :
  t <> "" -> starts_with_colon t = false -> parseQuery_toggle t st = Ok st.
Proof.
  intros Ht Hc; destruct t as [|c s]; [congruence|].
  unfold parseQuery_toggle; rewrite py_index_first; cbn [bind].
  cbn [starts_with_colon] in Hc; now rewrite Hc.
Qed.

(** Outside a phrase a token that does not start with the delimiter becomes
    a keyword. *)
Lemma term_keyword (t : string) (st : parse_state) :
  plain_keyword t -> isPhrase st = false ->
  parseQuery_term t st
  = Ok (mkParseState (keywords st ++ [t]) (phrases st) (phrase st) false).
Proof.
  intros [Ht Hc] Hst; unfold parseQuery_term.
  rewrite (toggle_passes t st Ht Hc); cbn [bind].
  unfold parseQuery_collect; now rewrite Hst.
Qed.

(** Inside a phrase a token without delimiter is added to the phrase. *)
Lemma term_inner (t : string) (st : parse_state) :
  inner_token t -> isPhrase st = true ->
  parseQuery_term t st
  = Ok (mkParseState (keywords st) (phrases st) (phrase st ++ t ++ " ") true).
Proof.
  intros (Ht & Hc & He) Hst; unfold parseQuery_term.
  rewrite (toggle_passes t st Ht Hc); cbn [bind].
  unfold parseQuery_collect; rewrite Hst.
  destruct (py_index_last_char t Ht) as (d & Hl & Hd); rewrite Hd.
  unfold ends_with_colon in He; rewrite Hl in He.
  destruct t as [|c s]; [congruence|].
  rewrite py_index_first; cbn [bind]; cbn [starts_with_colon] in Hc.
  now rewrite Hc, He.
Qed.

(** Outside a phrase a token that starts with the delimiter and does not end
    with it opens a phrase with the rest of the token. *)
Lemma term_opens (a : string) (st : parse_state) :
  ends_with_colon (String colon a) = false -> isPhrase st = false ->
  parseQuery_term (String colon a) st
  = Ok (mkParseState (keywords st) (phrases st) (phrase st ++ a ++ " ") true).
Proof.
  intros He Hst; unfold parseQuery_term, parseQuery_toggle.
  rewrite py_index_first; cbn [bind]; rewrite Ascii.eqb_refl, Hst; cbn [negb].
  destruct (py_index_last_char (String colon a)) as (d & Hl & Hd); [discriminate|].
  unfold ends_with_colon in He; rewrite Hl in He.
  assert (Hlen : (str_len (String colon a) =? 1) = false).
  { destruct a as [|c a].
    - cbn in Hl; injection Hl as <-; rewrite Ascii.eqb_refl in He; discriminate.
    - rewrite !str_len_String; pose proof (str_len_nonneg a); apply Z.eqb_neq; lia. }
  rewrite Hlen; cbn [bind]; unfold parseQuery_collect; cbn [isPhrase keywords phrases phrase].
  rewrite py_index_first, Hd; cbn [bind]; rewrite Ascii.eqb_refl, He.
  now rewrite py_slice_tail.
Qed.

(** Inside a phrase a token that ends with the delimiter and does not start
    with it closes the phrase. *)
Lemma term_closes (z : string) (st : parse_state) :
  plain_keyword z -> isPhrase st = true ->
  parseQuery_term (z ++ str1 colon) st
  = Ok (mkParseState (keywords st)
          (phrases st ++ [py_strip (phrase st ++ z ++ " ")]) "" false).
Proof.
  intros [Hz Hc] Hst; unfold parseQuery_term.
  assert (Hne : (z ++ str1 colon)%string <> "") by (destruct z; discriminate).
  assert (Hs : starts_with_colon (z ++ str1 colon) = false)
    by (destruct z; [congruence|exact Hc]).
  rewrite (toggle_passes _ st Hne Hs); cbn [bind].
  unfold parseQuery_collect; rewrite Hst, py_index_last_app, py_slice_init.
  destruct z as [|c s]; [congruence|]; cbn [String.append].
  rewrite py_index_first; cbn [bind]; cbn [starts_with_colon] in Hc.
  now rewrite Hc, Ascii.eqb_refl.
Qed.

Lemma loop_keywords (q : list string) : forall st,
  Forall plain_keyword q -> isPhrase st = false ->
  parseQuery_loop q st
  = Ok (mkParseState (keywords st ++ q) (phrases st) (phrase st) false).
Proof.
  induction q as [|t q IH]; intros st Hq Hst; unfold parseQuery_loop in *; cbn [fold_result].
  - rewrite app_nil_r; destruct st; cbn in *; now subst.
  - inversion Hq as [|? ? Ht Hq']; subst.
    rewrite (term_keyword t st Ht Hst); cbn [bind].
    rewrite IH by (try assumption; reflexivity).
    cbn [keywords phrases phrase]; now rewrite <- app_assoc.
Qed.

Lemma loop_inner (q : list string) : forall st,
  Forall inner_token q -> isPhrase st = true ->
  parseQuery_loop q st
  = Ok (mkParseState (keywords st) (phrases st) (phrase st ++ zone_text q) true).
Proof.
  induction q as [|t q IH]; intros st Hq Hst; unfold parseQuery_loop in *; cbn [fold_result].
  - unfold zone_text; cbn; rewrite str_app_nil_r; destruct st; cbn in *; now subst.
  - inversion Hq as [|? ? Ht Hq']; subst.
    rewrite (term_inner t st Ht Hst); cbn [bind].
    rewrite IH by (try assumption; reflexivity).
    cbn [keywords phrases phrase]; unfold zone_text; cbn [map str_concat].
    now rewrite !str_app_assoc.
Qed.

Lemma loop_app (q1 q2 : list string) (st : parse_state) :
  parseQuery_loop (q1 ++ q2) st
  = (st1 <- parseQuery_loop q1 st ;; parseQuery_loop q2 st1).
Proof.
  revert st; induction q1 as [|t q1 IH]; intros st; unfold parseQuery_loop in *;
    cbn [app fold_result bind]; [reflexivity|].
  destruct (parseQuery_term t st); cbn [bind]; [apply IH|reflexivity].
Qed.

Lemma zone_text_app (l1 l2 : list string) :
  zone_text (l1 ++ l2) = (zone_text l1 ++ zone_text l2)%string.
Proof.
  unfold zone_text; induction l1 as [|x l1 IH]; cbn [app map str_concat]; [reflexivity|].
  now rewrite IH, !str_app_assoc.
Qed.

Lemma zone_text_one (t : string) : zone_text [t] = (t ++ " ")%string.
Proof. unfold zone_text; cbn [map str_concat]; now rewrite str_app_assoc. Qed.

(** X1. [parseQuery] returns a result exactly for the queries that hold
    neither an empty token nor a token that is the delimiter alone; every
    other failure is excluded. *)
Theorem X1_parseQuery_returns_iff_no_empty_no_lone (query : list string) :
  is_ok (parseQuery query) = true <-> (~ In "" query /\ ~ In ":" query).
Proof.
  rewrite <- (parseQuery_loop_ok_iff query parse_init); unfold parseQuery.
  destruct (parseQuery_loop query parse_init); cbn; tauto.
Qed.

(** X2. A query of tokens none of which is empty or starts with the
    delimiter is returned unchanged as the keyword list, in order, with no
    phrase (a token that only ends with the delimiter is a keyword too). *)
Theorem X2_parseQuery_keywords_only (query : list string) :
  Forall plain_keyword query -> parseQuery query = Ok (query, []).
Proof.
  intros Hq; unfold parseQuery.
  rewrite (loop_keywords query parse_init Hq eq_refl); reflexivity.
Qed.

Lemma X2_witness : parseQuery ["quick"; "fox:"; "a:b"] = Ok (["quick"; "fox:"; "a:b"], []).
Proof.
  apply (X2_parseQuery_keywords_only ["quick"; "fox:"; "a:b"]).
  repeat constructor; discriminate.
Defined.

(** X3. Between keywords, a phrase that is opened by a token starting with
    the delimiter, continued by tokens without delimiter at either end and
    closed by a token ending with the delimiter is returned as one phrase:
    its tokens without the two delimiters, each followed by a blank, the
    whole stripped; the keywords before and after it are returned in order. *)
Theorem X3_parseQuery_delimited_phrase (kw1 kw2 mids : list string) (a z : string) :
  Forall plain_keyword kw1 -> Forall plain_keyword kw2 ->
  ends_with_colon (String colon a) = false ->
  Forall inner_token mids -> plain_keyword z ->
  parseQuery (kw1 ++ [String colon a] ++ mids ++ [(z ++ str1 colon)%string] ++ kw2)
  = Ok (kw1 ++ kw2, [py_strip (zone_text (a :: mids ++ [z]))]).
Proof.
  intros H1 H2 Ha Hm Hz; unfold parseQuery.
  rewrite loop_app, (loop_keywords kw1 parse_init H1 eq_refl); cbn [bind].
  rewrite loop_app; unfold parseQuery_loop at 1; cbn [fold_result].
  rewrite term_opens by (try exact Ha; reflexivity); cbn [bind keywords phrases phrase].
  rewrite loop_app, loop_inner by (try exact Hm; reflexivity).
  cbn [bind keywords phrases phrase].
  rewrite loop_app; unfold parseQuery_loop at 1; cbn [fold_result].
  rewrite term_closes by (try exact Hz; reflexivity); cbn [bind keywords phrases phrase].
  rewrite loop_keywords by (try exact H2; reflexivity); cbn [bind keywords phrases app].
  change (keywords parse_init) with (@nil string).
  change (phrases parse_init) with (@nil string).
  change (phrase parse_init) with EmptyString.
  cbn [app String.append]; do 4 f_equal.
  change (a :: mids ++ [z]) with ([a] ++ mids ++ [z]).
  rewrite !zone_text_app, !zone_text_one, !str_app_assoc; reflexivity.
Qed.

Lemma X3_witness :
  parseQuery (["fox"] ++ [String colon "the"] ++ ["quick"] ++ [("brown" ++ str1 colon)%string]
              ++ ["dog"])
  = Ok (["fox"] ++ ["dog"], [py_strip (zone_text ("the" :: ["quick"] ++ ["brown"]))]).
Proof.
  apply (X3_parseQuery_delimited_phrase ["fox"] ["dog"] ["quick"] "the" "brown");
    repeat constructor; discriminate.
Defined.

(** ** [getPhraseResults]: what it returns *)

Lemma getPhraseResults_terms_spec index terms : forall docs d,
  In d (getPhraseResults_terms index terms docs) <->
  In d docs /\ forall term, In term (known_prefix index terms) -> term_hits index d term = true.
Proof.
  induction terms as [|term rest IH]; intros docs d; cbn [getPhraseResults_terms known_prefix].
  - simpl; tauto.
  - destruct (get_entry term index) as [e|] eqn:Eg.
    + rewrite IH; destruct (inter_ids_spec docs (postings e)) as [_ Hin]; rewrite Hin.
      split.
      * intros [[Hd Hm] Hrest]; split; [exact Hd|].
        intros t [<-|Ht]; [unfold term_hits; now rewrite Eg|now apply Hrest].
      * intros [Hd Hall]; split; [split; [exact Hd|]|].
        -- specialize (Hall term (or_introl eq_refl)); unfold term_hits in Hall.
           now rewrite Eg in Hall.
        -- intros t Ht; apply Hall; now right.
    + simpl; tauto.
Qed.

Lemma getPhraseResults_docs_full docIndex p docs : forall pr cd,
  incl docs (dict_keys docIndex) ->
  exists pr' cd',
    getPhraseResults_docs docIndex p docs pr cd = Ok (pr', cd')
    /\ (forall d, In d pr' <-> In d pr \/ (In d docs /\ holds_phrase docIndex p d))
    /\ (forall d, In d cd' <-> In d cd \/ In d docs)
    /\ (NoDup pr -> NoDup pr') /\ (NoDup cd -> NoDup cd').
Proof.
  induction docs as [|x docs IH]; intros pr cd Hincl; cbn [getPhraseResults_docs].
  - exists pr, cd; repeat split; try tauto; intros; simpl in *; tauto.
  - destruct (dict_get_Some_in Z.eqb Z.eqb_eq x docIndex (Hincl x (or_introl eq_refl)))
      as [text Ht]; rewrite Ht.
    match goal with
    | |- context [getPhraseResults_docs _ _ _ ?a ?b] =>
        destruct (IH a b (fun d Hd => Hincl d (or_intror Hd)))
          as (pr' & cd' & Hr & Hp & Hc & Hnp & Hnc)
    end.
    exists pr', cd'; split; [exact Hr|]; clear Hr IH.
    assert (Hx : holds_phrase docIndex p x <-> py_contains (py_strip p) text = true).
    { unfold holds_phrase; split.
      - intros (t' & Ht' & Hc'); rewrite Ht in Ht'; now injection Ht' as <-.
      - intros; now exists text. }
    split; [|split; [|split]].
    + intros d; rewrite Hp; clear Hp Hc Hnp Hnc.
      destruct (py_contains (py_strip p) text) eqn:Ec; cbn [andb].
      * destruct (Z_mem x pr) eqn:Em; cbn [negb].
        -- apply Z_mem_In in Em; simpl; split; [tauto|].
           intros [H|[[<-|H1] H2]]; tauto.
        -- rewrite in_app_iff; simpl; split; [|tauto].
           intros [[H|[<-|[]]]|[H1 H2]]; tauto.
      * simpl; split; [tauto|].
        intros [H|[[<-|H1] H2]]; try tauto.
        apply Hx in H2; discriminate.
    + intros d; rewrite Hc; clear Hp Hc Hnp Hnc.
      destruct (Z_mem x cd) eqn:Em; cbn [negb].
      * apply Z_mem_In in Em; simpl; split; [tauto|].
        intros [H|[<-|H]]; tauto.
      * rewrite in_app_iff; simpl; tauto.
    + intros Hnd; apply Hnp; clear Hp Hc Hnp Hnc.
      destruct (py_contains (py_strip p) text && negb (Z_mem x pr)) eqn:E; [|exact Hnd].
      apply andb_prop in E as [_ E]; apply negb_true_iff in E.
      apply NoDup_app; [exact Hnd|repeat constructor; tauto|].
      intros y Hy [<-|[]]; apply Z_mem_In in Hy; congruence.
    + intros Hnd; apply Hnc; clear Hp Hc Hnp Hnc.
      destruct (Z_mem x cd) eqn:E; cbn [negb]; [exact Hnd|].
      apply NoDup_app; [exact Hnd|repeat constructor; tauto|].
      intros y Hy [<-|[]]; apply Z_mem_In in Hy; congruence.
Qed.

Lemma getPhraseResults_fold index docIndex (ps : list string) : forall pr cd,
  exists pr' cd',
    fold_result (getPhraseResults_phrase index docIndex) ps (pr, cd) = Ok (pr', cd')
    /\ (forall d, In d pr' <->
          In d pr \/ exists p, In p ps /\ considered_for index docIndex p d
                               /\ holds_phrase docIndex p d)
    /\ (forall d, In d cd' <->
          In d cd \/ exists p, In p ps /\ considered_for index docIndex p d)
    /\ (NoDup pr -> NoDup pr') /\ (NoDup cd -> NoDup cd').
Proof.
  induction ps as [|p ps IH]; intros pr cd; cbn [fold_result].
  - exists pr, cd; split; [reflexivity|].
    repeat split; try tauto; try (intros [H|(p & [] & _)]; exact H).
  - unfold getPhraseResults_phrase at 1; cbn [fst snd].
    destruct (getPhraseResults_docs_full docIndex p
                (getPhraseResults_terms index (py_split p) (dict_keys docIndex)) pr cd)
      as (pr1 & cd1 & Hr & Hp & Hc & Hnp & Hnc).
    { intros d Hd; now apply getPhraseResults_terms_spec in Hd. }
    rewrite Hr; cbn [bind].
    destruct (IH pr1 cd1) as (pr' & cd' & Hr' & Hp' & Hc' & Hnp' & Hnc').
    exists pr', cd'; split; [exact Hr'|].
    assert (Hcand : forall d, In d (getPhraseResults_terms index (py_split p) (dict_keys docIndex))
                              <-> considered_for index docIndex p d).
    { intros d; apply getPhraseResults_terms_spec. }
    split; [|split; [|split]].
    + intros d; rewrite Hp', Hp, Hcand; split.
      * intros [[H|[H1 H2]]|(q & Hq & H)]; [now left| |].
        -- right; exists p; split; [now left|now split].
        -- right; exists q; split; [now right|exact H].
      * intros [H|(q & [<-|Hq] & H1 & H2)]; [left; now left|left; right; now split|].
        right; exists q; split; [exact Hq|split; assumption].
    + intros d; rewrite Hc', Hc, Hcand; split.
      * intros [[H|H]|(q & Hq & H)]; [now left| |].
        -- right; exists p; split; [now left|exact H].
        -- right; exists q; split; [now right|exact H].
      * intros [H|(q & [<-|Hq] & H)]; [left; now left|left; now right|].
        right; exists q; now split.
    + tauto.
    + tauto.
Qed.

Lemma sorted_Z_strict (l : list Z) : NoDup l -> StronglySorted Z.lt (sorted_Z l).
Proof.
  intros H; apply sorted_nodup_strict; [apply sorted_Z_sorted|].
  eapply Permutation_NoDup; [symmetry; apply sort_by_perm|exact H].
Qed.

(** X4. With at least one phrase [getPhraseResults] never raises. It returns
    the documents, strictly ascending, that some phrase both considers (keys
    of the forward index in the postings of every term of the phrase up to
    its first term that is not in the index) and holds as a substring of the
    stored text; the count is the number of documents some phrase considers,
    so it is at least the number of documents returned and at most the
    number of documents of the forward index. *)
Theorem X4_getPhraseResults_with_phrases index docIndex (ps : list string) :
  ps <> [] ->
  exists docs considered,
    getPhraseResults index docIndex ps = Ok (docs, Z.of_nat (List.length considered))
    /\ StronglySorted Z.lt docs
    /\ (forall d, In d docs <->
          exists p, In p ps /\ considered_for index docIndex p d /\ holds_phrase docIndex p d)
    /\ NoDup considered
    /\ (forall d, In d considered <-> exists p, In p ps /\ considered_for index docIndex p d)
    /\ (List.length docs <= List.length considered)%nat
    /\ (List.length considered <= List.length (dict_keys docIndex))%nat.
Proof.
  intros Hps.
  destruct (getPhraseResults_fold index docIndex ps [] [])
    as (pr & cd & Hr & Hp & Hc & Hnp & Hnc).
  specialize (Hnp (NoDup_nil _)); specialize (Hnc (NoDup_nil _)).
  exists (sorted_Z pr), cd.
  assert (Hp' : forall d, In d pr <->
            exists p, In p ps /\ considered_for index docIndex p d /\ holds_phrase docIndex p d).
  { intros d; rewrite Hp; simpl; tauto. }
  assert (Hc' : forall d, In d cd <-> exists p, In p ps /\ considered_for index docIndex p d).
  { intros d; rewrite Hc; simpl; tauto. }
  split; [|split; [|split; [|split; [|split; [|split]]]]].
  - unfold getPhraseResults; destruct ps as [|p ps']; [congruence|].
    rewrite Hr; reflexivity.
  - now apply sorted_Z_strict.
  - intros d; unfold sorted_Z; rewrite sort_by_In; apply Hp'.
  - exact Hnc.
  - exact Hc'.
  - unfold sorted_Z; rewrite sort_by_length.
    apply NoDup_incl_length; [exact Hnp|].
    intros d Hd; apply Hc'; apply Hp' in Hd as (p & Hin & Hcon & _); now exists p.
  - apply NoDup_incl_length; [exact Hnc|].
    intros d Hd; apply Hc' in Hd as (p & _ & [Hk _]); exact Hk.
Qed.

Lemma X4_witness :
  exists docs considered : list Z,
    getPhraseResults fox_index fox_loaded_docIndex ["quick brown"; "dog"]
    = Ok (docs, Z.of_nat (List.length considered))
    /\ StronglySorted Z.lt docs
    /\ (List.length docs <= List.length considered)%nat.
Proof.
  destruct (X4_getPhraseResults_with_phrases fox_index fox_loaded_docIndex
              ["quick brown"; "dog"])
    as (docs & cd & H1 & H2 & _ & _ & _ & H3 & _); [discriminate|].
  exists docs, cd; split; [exact H1|split; [exact H2|exact H3]].
Defined.

(** X5. Without phrase [getPhraseResults] returns the keys of the forward
    index in ascending order, and their number: every document is a
    candidate. *)
Theorem X5_getPhraseResults_without_phrase index docIndex :
  exists docs : list Z,
    getPhraseResults index docIndex [] = Ok (docs, Z.of_nat (List.length docs))
    /\ Permutation docs (dict_keys docIndex)
    /\ StronglySorted Z.le docs.
Proof.
  exists (sorted_Z (dict_keys docIndex)); split; [|split].
  - unfold getPhraseResults, sorted_Z; now rewrite sort_by_length.
  - apply sort_by_perm.
  - apply sorted_Z_sorted.
Qed.

(** ** [cosineScore]: when it returns *)

Lemma cosineScore_init_missing docIndex (docs : list Z) : forall scores lengths,
  (exists d, In d docs /\ dict_get Z.eqb d docIndex = None) ->
  cosineScore_init docIndex docs scores lengths = Raise KeyError.
Proof.
  induction docs as [|x docs IH]; intros scores lengths (d & Hd & Hm); [destruct Hd|].
  cbn [cosineScore_init].
  destruct (dict_get Z.eqb x docIndex) as [text|] eqn:E; [|reflexivity].
  apply IH; exists d; split; [|exact Hm].
  destruct Hd as [<-|Hd]; [congruence|exact Hd].
Qed.

Lemma cosineScore_divide_zero (s : Z -> PrimFloat.float) (len : Z -> nat) (L : list Z) :
  forall rest acc,
    incl rest L -> (exists d, In d rest /\ len d = O) ->
    cosineScore_divide (map (fun d => (d, s d)) L) (map (fun d => (d, len d)) rest) acc
    = Raise ZeroDivisionError.
Proof.
  induction rest as [|x rest IH]; intros acc Hincl (d & Hd & Hz); [destruct Hd|].
  cbn [map cosineScore_divide].
  rewrite (dict_get_map s L x (Hincl x (or_introl eq_refl))).
  destruct (Nat.eqb_spec (len x) 0) as [E|E]; [reflexivity|].
  apply IH; [intros y Hy; apply Hincl; now right|].
  exists d; split; [|exact Hz].
  destruct Hd as [<-|Hd]; [congruence|exact Hd].
Qed.

(** With scorable candidates [cosineScore] returns, whatever the limit. *)
Lemma cosineScore_scorable index docIndex kws docs numResults :
  scorable docIndex docs ->
  cosineScore index docIndex kws docs numResults
  = Ok (list_slice0 (ranking index docIndex kws docs) numResults,
        Z.of_nat (List.length (ranking index docIndex kws docs))).
Proof.
  intros Hdocs; unfold cosineScore.
  pose proof (cosineScore_init_spec docIndex docs []) as Hinit.
  cbn [map] in Hinit; rewrite Hinit; clear Hinit; cbn [bind].
  2:{ intros d Hd; destruct (Hdocs d Hd) as [text [Ht _]]; eauto. }
  fold (dedup docs).
  destruct (dedup_spec docs) as [Hnd Hsame].
  rewrite (cosineScore_terms_spec index (List.length kws) docs (dedup docs) kws Hnd Hsame
             (fun _ => PrimFloat.zero)).
  pose proof (cosineScore_divide_spec
                (fun d => fold_left
                            (score_step index
                               (PrimFloat.div PrimFloat.one (py_float (List.length kws))) d)
                            kws PrimFloat.zero)
                (document_length docIndex) (dedup docs) (dedup docs) []) as Hdiv.
  cbn [map app] in Hdiv; rewrite Hdiv; clear Hdiv; cbn [bind].
  - reflexivity.
  - exact Hnd.
  - intros d Hd; exact Hd.
  - intros d Hd; apply Hsame in Hd; destruct (Hdocs d Hd) as [text [Ht Hne]].
    unfold document_length; rewrite Ht; destruct (py_split text); [congruence|discriminate].
Qed.

Lemma cosineScore_missing index docIndex kws docs numResults :
  (exists d, In d docs /\ dict_get Z.eqb d docIndex = None) ->
  cosineScore index docIndex kws docs numResults = Raise KeyError.
Proof.
  intros H; unfold cosineScore; now rewrite cosineScore_init_missing.
Qed.

Lemma cosineScore_wordless index docIndex kws docs numResults :
  (forall d, In d docs -> dict_get Z.eqb d docIndex <> None) ->
  (exists d, In d docs /\ document_length docIndex d = O) ->
  cosineScore index docIndex kws docs numResults = Raise ZeroDivisionError.
Proof.
  intros Hall (d & Hd & Hz); unfold cosineScore.
  pose proof (cosineScore_init_spec docIndex docs []) as Hinit.
  cbn [map] in Hinit; rewrite Hinit; clear Hinit; cbn [bind].
  2:{ intros x Hx; specialize (Hall x Hx).
      destruct (dict_get Z.eqb x docIndex) as [text|]; [now exists text|congruence]. }
  fold (dedup docs).
  destruct (dedup_spec docs) as [Hnd Hsame].
  rewrite (cosineScore_terms_spec index (List.length kws) docs (dedup docs) kws Hnd Hsame
             (fun _ => PrimFloat.zero)).
  rewrite (cosineScore_divide_zero _ (document_length docIndex) (dedup docs) (dedup docs) []);
    [reflexivity|intros x Hx; exact Hx|].
  exists d; split; [now apply Hsame|exact Hz].
Qed.

Lemma scorable_dec docIndex (docs : list Z) :
  scorable docIndex docs
  \/ (exists d, In d docs /\ dict_get Z.eqb d docIndex = None)
  \/ ((forall d, In d docs -> dict_get Z.eqb d docIndex <> None)
      /\ exists d, In d docs /\ document_length docIndex d = O).
Proof.
  induction docs as [|x docs IH].
  - left; intros d [].
  - destruct (dict_get Z.eqb x docIndex) as [text|] eqn:E.
    + destruct IH as [IH|[(d & Hd & Hm)|[Hall (d & Hd & Hz)]]].
      * destruct (py_split text) as [|w ws] eqn:Es.
        -- right; right; split.
           ++ intros d [<-|Hd]; [congruence|].
              destruct (IH d Hd) as (t & Ht & _); congruence.
           ++ exists x; split; [now left|]; unfold document_length; now rewrite E, Es.
        -- left; intros d [<-|Hd]; [|now apply IH].
           exists text; split; [exact E|]; rewrite Es; discriminate.
      * right; left; exists d; split; [now right|exact Hm].
      * right; right; split.
        -- intros d' [<-|Hd']; [congruence|now apply Hall].
        -- exists d; split; [now right|exact Hz].
    + right; left; exists x; split; [now left|exact E].
Qed.

Lemma cosineScore_ok_iff index docIndex kws docs numResults :
  is_ok (cosineScore index docIndex kws docs numResults) = true <-> scorable docIndex docs.
Proof.
  split.
  - intros Hok.
    destruct (scorable_dec docIndex docs) as [H|[H|[H1 H2]]]; [exact H| |].
    + rewrite (cosineScore_missing index docIndex kws docs numResults H) in Hok; discriminate.
    + rewrite (cosineScore_wordless index docIndex kws docs numResults H1 H2) in Hok.
      discriminate.
  - intros H; now rewrite (cosineScore_scorable index docIndex kws docs numResults H).
Qed.

(** X6. [cosineScore] returns exactly when every candidate is a document of
    the forward index whose stored text has at least one token. It raises
    [KeyError] when a candidate is not in the forward index, and
    [ZeroDivisionError] when all candidates are in it and one of them has a
    text without token; neither the index, the keywords nor the limit can
    make it fail. *)
Theorem X6_cosineScore_outcomes index docIndex kws docs numResults :
  (is_ok (cosineScore index docIndex kws docs numResults) = true <-> scorable docIndex docs)
  /\ ((exists d, In d docs /\ dict_get Z.eqb d docIndex = None) ->
      cosineScore index docIndex kws docs numResults = Raise KeyError)
  /\ ((forall d, In d docs -> dict_get Z.eqb d docIndex <> None) ->
      (exists d, In d docs /\ document_length docIndex d = O) ->
      cosineScore index docIndex kws docs numResults = Raise ZeroDivisionError).
Proof.
  split; [apply cosineScore_ok_iff|].
  split; [apply cosineScore_missing|apply cosineScore_wordless].
Qed.

Lemma X6_witness :
  cosineScore fox_index fox_loaded_docIndex ["fox"] [1; 3] 10 = Raise KeyError.
Proof.
  apply (proj1 (proj2 (X6_cosineScore_outcomes fox_index fox_loaded_docIndex ["fox"] [1; 3] 10))).
  exists 3; split; [vm_compute; tauto|reflexivity].
Defined.

Lemma filter_none {A : Type} (f : A -> bool) (l : list A) :
  (forall x, In x l -> f x = false) -> filter f l = [].
Proof.
  induction l as [|x l IH]; intros H; [reflexivity|]; cbn [filter].
  rewrite (H x (or_introl eq_refl)); apply IH; intros y Hy; apply H; now right.
Qed.

Lemma ranking_empty index docIndex kws docs :
  (forall d term, In d docs -> In term kws -> term_hits index d term = false) ->
  ranking index docIndex kws docs = [].
Proof.
  intros Hno; unfold ranking; apply filter_none; intros [d v] Hin.
  apply sort_by_In, in_map_iff in Hin as (x & [= <- <-] & Hx).
  apply (proj2 (dedup_spec docs)) in Hx.
  unfold positive_score, normalized_score; cbn [snd].
  rewrite (raw_score_no_hit index kws x (fun term Ht => Hno x term Hx Ht)).
  apply zero_quotient_not_positive.
Qed.

Lemma list_slice0_nil {A : Type} (k : Z) : list_slice0 (@nil A) k = [].
Proof. unfold list_slice0; apply firstn_nil. Qed.

(** X7. When no keyword has a candidate in its postings (in particular when
    no keyword is in the index, or the keyword list is empty), [cosineScore]
    returns no result and the count 0 for scorable candidates, whatever the
    limit. *)
Theorem X7_cosineScore_without_hit index docIndex kws docs numResults :
  scorable docIndex docs ->
  (forall d term, In d docs -> In term kws -> term_hits index d term = false) ->
  cosineScore index docIndex kws docs numResults = Ok ([], 0).
Proof.
  intros Hs Hno.
  rewrite (cosineScore_scorable index docIndex kws docs numResults Hs).
  rewrite (ranking_empty index docIndex kws docs Hno), list_slice0_nil; reflexivity.
Qed.

Lemma X7_witness :
  cosineScore fox_index fox_loaded_docIndex ["cat"; "mouse"] [1; 2] 10 = Ok ([], 0).
Proof.
  apply (X7_cosineScore_without_hit fox_index fox_loaded_docIndex ["cat"; "mouse"] [1; 2] 10).
  - intros d [<-|[<-|[]]]; eexists; (split; [vm_compute; reflexivity|vm_compute; discriminate]).
  - intros d term _ [<-|[<-|[]]]; reflexivity.
Defined.

Lemma NoDup_map_fst_filter {A B : Type} (f : A * B -> bool) (l : list (A * B)) :
  NoDup (map fst l) -> NoDup (map fst (filter f l)).
Proof.
  induction l as [|x l IH]; cbn [map filter]; intros H; [constructor|].
  inversion H as [|? ? Hx Hl]; subst.
  destruct (f x); cbn [map]; [|now apply IH].
  constructor; [|now apply IH].
  intros Hin; apply Hx; apply in_map_iff in Hin as (y & Hy & Hin).
  apply filter_In in Hin as [Hin _]; rewrite <- Hy; now apply in_map.
Qed.

Lemma NoDup_firstn {A : Type} (n : nat) (l : list A) : NoDup l -> NoDup (firstn n l).
Proof.
  intros H; rewrite <- (firstn_skipn n l) in H; now apply NoDup_app_remove_r in H.
Qed.

Lemma ranking_distinct index docIndex kws docs :
  NoDup (map fst (ranking index docIndex kws docs)).
Proof.
  unfold ranking; apply NoDup_map_fst_filter.
  eapply Permutation_NoDup; [apply Permutation_map; symmetry; apply sort_by_perm|].
  rewrite map_map; cbn [fst]; rewrite map_id; apply dedup_spec.
Qed.

(** X8. Whenever [cosineScore] returns, no document is returned twice, every
    returned document is a candidate with a positive score, the returned
    list is not longer than the count of documents with a non-zero score,
    which is not larger than the number of distinct candidates, and with a
    limit that is not negative the returned list is not longer than the
    limit. *)
Theorem X8_cosineScore_result_shape index docIndex kws docs numResults top count :
  cosineScore index docIndex kws docs numResults = Ok (top, count) ->
  NoDup (map fst top)
  /\ (forall d v, In (d, v) top ->
        In d docs /\ PrimFloat.ltb PrimFloat.zero v = true)
  /\ Z.of_nat (List.length top) <= count
  /\ count <= Z.of_nat (List.length (dedup docs))
  /\ (0 <= numResults -> Z.of_nat (List.length top) <= numResults).
Proof.
  intros H.
  assert (Hs : scorable docIndex docs).
  { apply (cosineScore_ok_iff index docIndex kws docs numResults); now rewrite H. }
  rewrite (cosineScore_scorable index docIndex kws docs numResults Hs) in H.
  injection H as <- <-; unfold list_slice0.
  set (m := Z.to_nat _).
  split; [|split; [|split; [|split]]].
  - rewrite <- firstn_map; apply NoDup_firstn, ranking_distinct.
  - intros d v Hin; apply firstn_incl, ranking_In in Hin; tauto.
  - pose proof (firstn_le_length m (ranking index docIndex kws docs)) as H1.
    assert (H2 : (List.length (firstn m (ranking index docIndex kws docs))
                  <= List.length (ranking index docIndex kws docs))%nat).
    { rewrite <- (firstn_skipn m (ranking index docIndex kws docs)) at 2.
      rewrite length_app; lia. }
    lia.
  - unfold ranking; apply inj_le.
    eapply Nat.le_trans; [apply filter_shorter|].
    rewrite sort_by_length, length_map; apply Nat.le_refl.
  - intros HK; pose proof (firstn_le_length m (ranking index docIndex kws docs)) as H1.
    assert (Hm : Z.of_nat m <= numResults).
    { subst m; unfold slice_bound.
      replace (numResults <? 0) with false by (symmetry; apply Z.ltb_ge; lia).
      lia. }
    lia.
Qed.

Lemma X8_witness :
  NoDup (map fst (list_slice0 (ranking fox_index fox_loaded_docIndex ["fox"; "dog"] [1; 2]) 1))
  /\ Z.of_nat (List.length
                 (list_slice0 (ranking fox_index fox_loaded_docIndex ["fox"; "dog"] [1; 2]) 1))
     <= 1.
Proof.
  destruct (X8_cosineScore_result_shape fox_index fox_loaded_docIndex ["fox"; "dog"] [1; 2] 1
              (list_slice0 (ranking fox_index fox_loaded_docIndex ["fox"; "dog"] [1; 2]) 1)
              (Z.of_nat (List.length
                           (ranking fox_index fox_loaded_docIndex ["fox"; "dog"] [1; 2]))))
    as (A & _ & _ & _ & B).
  - vm_compute; reflexivity.
  - split; [exact A|apply B; lia].
Defined.

(** * Further properties of the indexer and of the files *)

(** ** The files of the index folder *)

Lemma eqb_app_same (a b c : string) : String.eqb (a ++ b) (a ++ c) = String.eqb b c.
Proof.
  induction a as [|x a IH]; [reflexivity|].
  cbn [String.append String.eqb]; now rewrite Ascii.eqb_refl.
Qed.

Lemma eqb_app_self (a b : string) : String.eqb (a ++ b) a = String.eqb b "".
Proof. rewrite <- (str_app_nil_r a) at 2; apply eqb_app_same. Qed.

Lemma eqb_self_app (a b : string) : String.eqb a (a ++ b) = String.eqb "" b.
Proof. rewrite <- (str_app_nil_r a) at 1; apply eqb_app_same. Qed.

Lemma fs_get_set (p q : string) (n : node) (fs : filesystem) :
  fs_get p (fs_set q n fs) = if String.eqb p q then Some n else fs_get p fs.
Proof. apply dict_get_set, String.eqb_eq. Qed.

(** After [generateIndexFiles] the index folder exists. *)
Lemma folder_exists_after (loc : string) indexes fs :
  fs_get (loc ++ "\index") (generateIndexFiles loc indexes fs) <> None.
Proof.
  unfold generateIndexFiles.
  destruct (fs_get (loc ++ "\index") fs) eqn:E; [congruence|].
  rewrite !fs_get_set, !eqb_self_app, String.eqb_refl; cbn; discriminate.
Qed.

(** The two files of a fresh index folder hold what was written. *)
Lemma files_after (loc : string) indexes fs :
  fs_get (loc ++ "\index") fs = None ->
  read_file ((loc ++ "\index") ++ "\index.tsv") (generateIndexFiles loc indexes fs)
  = Ok (fst (serialize indexes))
  /\ read_file ((loc ++ "\index") ++ "\docIndex.tsv") (generateIndexFiles loc indexes fs)
     = Ok (snd (serialize indexes)).
Proof.
  intros E; unfold generateIndexFiles, read_file; rewrite E.
  rewrite !fs_get_set, !eqb_app_same, !String.eqb_refl; cbn; split; reflexivity.
Qed.

Lemma buildIndexes_reads (path : string) (fs : filesystem) (files : string * string) :
  read_file (path ++ "\index.tsv") fs = Ok (fst files) ->
  read_file (path ++ "\docIndex.tsv") fs = Ok (snd files) ->
  buildIndexes path fs = deserialize files.
Proof.
  intros H1 H2; unfold buildIndexes, deserialize; rewrite H1, H2; reflexivity.
Qed.

(** X9. The codec round trip, with the preconditions it really has: for an
    inverted index with distinct terms free of tab, newline and carriage
    return whose postings are non-empty lists of integers, and a forward
    index with distinct identifiers whose texts are made of token characters
    and blanks, all integers being within the interpreter's limit of digits,
    reading back what was written returns the inverted index unchanged
    (whatever the stored document frequencies) and the forward index with
    every text cut by its last character. *)
Theorem X9_codec_round_trip (index : index_t) (docIndex : docindex_t) :
  NoDup (dict_keys index) -> Forall readable_item index ->
  NoDup (dict_keys docIndex) -> Forall readable_doc docIndex ->
  Forall item_within_limit index ->
  Forall within_digit_limit (dict_keys docIndex) ->
  deserialize (serialize (index, docIndex)) = Ok (index, chop_texts docIndex).
Proof. intros Hk Hi Hd Ht _ _; now apply deserialize_serialize. Qed.

Lemma X9_witness :
  deserialize (serialize ([("fox", mkEntry 7 [Some 3; Some 1])], [(4, "a fox ")]))
  = Ok ([("fox", mkEntry 7 [Some 3; Some 1])], chop_texts [(4, "a fox ")]).
Proof.
  apply (X9_codec_round_trip [("fox", mkEntry 7 [Some 3; Some 1])] [(4, "a fox ")]).
  - repeat constructor; intros [].
  - apply Forall_cons; [|apply Forall_nil].
    split; [reflexivity|]. split; [reflexivity|]. split; [reflexivity|].
    exists [3; 1]; split; [discriminate|reflexivity].
  - repeat constructor; intros [].
  - repeat constructor.
  - apply Forall_cons; [|apply Forall_nil].
    split; [unfold within_digit_limit; cbn; lia|].
    intros z [[= <-]|[[= <-]|[]]]; unfold within_digit_limit; cbn; lia.
  - apply Forall_cons; [|apply Forall_nil]; unfold within_digit_limit; cbn; lia.
Defined.

(** X10. The two pipelines composed through the files: when a build returns
    an index without [None] posting, with identifiers within the
    interpreter's limit of digits, and the two files of a folder hold the
    lines [generateIndexFiles] writes for it, [buildIndexes] reads from the
    folder the inverted index as built and the forward index with every
    document string cut by its last character (the blank after the last
    token). *)
Theorem X10_build_then_load c index docIndex (folder : string) (fs : filesystem) :
  generateIndex c = Ok (index, docIndex) ->
  (forall t e, In (t, e) index -> ~ In None (postings e)) ->
  Forall within_digit_limit (dict_keys docIndex) ->
  read_file (folder ++ "\index.tsv") fs = Ok (write_lines index_line index) ->
  read_file (folder ++ "\docIndex.tsv") fs = Ok (write_lines docIndex_line docIndex) ->
  buildIndexes folder fs = Ok (index, chop_texts docIndex).
Proof.
  intros H Hnone _ H1 H2.
  rewrite (buildIndexes_reads folder fs (serialize (index, docIndex)) H1 H2).
  now apply (build_round_trip c).
Qed.

Lemma X10_witness :
  buildIndexes "C:\index" (snd (buildIndex (Some fox_corpus) "C:" []))
  = Ok (fox_index, chop_texts fox_docIndex).
Proof.
  apply (X10_build_then_load fox_corpus fox_index fox_docIndex "C:\index"
           (snd (buildIndex (Some fox_corpus) "C:" []))).
  - vm_compute; reflexivity.
  - intros t e Hin Hn; vm_compute in Hin.
    repeat (destruct Hin as [Hin|Hin];
            [injection Hin as <- <-; vm_compute in Hn; intuition discriminate|]).
    exact Hin.
  - apply Forall_cons; [|apply Forall_cons; [|apply Forall_nil]];
      unfold within_digit_limit; cbn; lia.
  - vm_compute; reflexivity.
  - vm_compute; reflexivity.
Defined.

(** X11. The index folder is written once: after a first call of
    [generateIndexFiles] for a location a second call for the same location,
    with any indexes, leaves every file as it is. *)
Theorem X11_generateIndexFiles_writes_once (loc : string) i1 i2 (fs : filesystem) :
  generateIndexFiles loc i2 (generateIndexFiles loc i1 fs) = generateIndexFiles loc i1 fs.
Proof.
  pose proof (folder_exists_after loc i1 fs) as H.
  unfold generateIndexFiles at 1.
  destruct (fs_get (loc ++ "\index") (generateIndexFiles loc i1 fs)); [reflexivity|congruence].
Qed.

(** ** What [generateIndex] puts in the inverted index *)

Lemma py_sort_ids_perm (l l' : list (option Z)) :
  py_sort_ids l = Ok l' -> Permutation l l'.
Proof.
  unfold py_sort_ids; destruct l as [|a [|b l]]; try (intros [= <-]; reflexivity).
  destruct (all_ints (a :: b :: l)) as [zs|] eqn:E; [|discriminate].
  intros [= <-]; apply all_ints_map in E; rewrite E.
  apply Permutation_map; symmetry; apply sort_by_perm.
Qed.

Lemma posting_membership docId token index index' :
  generateIndex_posting docId token index = Ok index' ->
  forall t d, posted index' t d <-> posted index t d \/ (t = token /\ d = docId).
Proof.
  intros H t d; unfold generateIndex_posting in H; unfold posted.
  destruct (get_entry token index) as [e|] eqn:Eg.
  - destruct (id_mem docId (postings e)) eqn:Em; cbn [negb] in H.
    + injection H as <-; split; [tauto|].
      intros [H|[-> ->]]; [exact H|].
      exists e; split; [exact Eg|now apply id_mem_In].
    + bind_ok H; injection H as <-.
      apply py_sort_ids_perm in E.
      rewrite get_set_entry.
      destruct (String.eqb_spec t token) as [->|Hne].
      * split.
        -- intros (e' & [= <-] & Hin); cbn [postings] in Hin.
           apply (Permutation_in _ (Permutation_sym E)), in_app_or in Hin as [Hin|[<-|[]]].
           ++ left; now exists e.
           ++ now right.
        -- intros [(e' & He' & Hin)|[_ ->]]; eexists; (split; [reflexivity|]); cbn [postings];
             apply (Permutation_in _ E), in_or_app.
           ++ left; congruence.
           ++ right; now left.
      * split; [tauto|]; intros [H|[H _]]; [exact H|contradiction].
  - injection H as <-; rewrite get_set_entry.
    destruct (String.eqb_spec t token) as [->|Hne].
    + split.
      * intros (e' & [= <-] & [<-|[]]); now right.
      * intros [(e' & He' & _)|[_ ->]]; [congruence|].
        eexists; split; [reflexivity|now left].
    + split; [tauto|]; intros [H|[H _]]; [exact H|contradiction].
Qed.

Lemma zone_membership docId words : forall ds idx ds' idx',
  generateIndex_zone docId words ds idx = Ok (ds', idx') ->
  forall t d, posted idx' t d <->
    posted idx t d
    \/ (d = docId /\ In t (filter (fun t => negb (str_is_empty t)) (map normalize words))).
Proof.
  induction words as [|w words IH]; intros ds idx ds' idx' H t d;
    cbn [generateIndex_zone] in H; cbn [map filter].
  - injection H as _ <-; simpl; tauto.
  - destruct (str_is_empty (normalize w)) eqn:Ew; cbn [negb] in H |- *.
    + now apply (IH ds idx ds' idx').
    + bind_ok H. rewrite (IH _ _ _ _ H t d), (posting_membership _ _ _ _ E t d).
      simpl; split.
      * intros [[A|[-> ->]]|[-> B]]; [now left|right; split; [reflexivity|now left]|].
        right; split; [reflexivity|now right].
      * intros [A|[-> [<-|B]]]; [left; now left|left; right; now split|].
        right; now split.
Qed.

Lemma fields_membership fields : forall st st',
  generateIndex_fields fields st = Ok st' ->
  forall t d, posted (ds_index st') t d <->
    posted (ds_index st) t d \/ In (d, t) (emitted_fields fields (ds_docId st)).
Proof.
  induction fields as [|[key v] fields IH]; intros st st' H t d;
    cbn [generateIndex_fields emitted_fields] in *.
  - injection H as <-; simpl; tauto.
  - destruct (is_empty_content v); [discriminate|].
    destruct (String.eqb key "doc_id").
    + bind_ok H. destruct (Z_mem a (ds_docIDs st)); [discriminate|].
      now rewrite (IH _ _ H t d).
    + bind_ok H. bind_ok H. destruct a0 as [docString index].
      destruct v; try discriminate; injection E as <-.
      rewrite (IH _ _ H t d); cbn [ds_index ds_docId].
      rewrite (zone_membership _ _ _ _ _ _ E0 t d), in_app_iff, in_map_iff.
      unfold tokens_of; split.
      * intros [[A|[-> B]]|C]; [now left| |right; now right].
        right; left; now exists t.
      * intros [A|[(x & [= <- <-] & B)|C]]; [left; now left|left; right; now split|].
        now right.
Qed.

Lemma docs_membership c : forall st st',
  generateIndex_docs c st = Ok st' ->
  forall t d, posted (bs_index st') t d <-> posted (bs_index st) t d \/ In (d, t) (emitted c).
Proof.
  induction c as [|doc c IH]; intros st st' H t d; cbn [generateIndex_docs] in H.
  - injection H as <-; simpl; tauto.
  - bind_ok H; rewrite (IH _ _ H t d).
    unfold emitted; cbn [flat_map]; rewrite in_app_iff; fold (emitted c).
    unfold generateIndex_doc in E.
    destruct (Z.of_nat (List.length doc) <=? 1); [discriminate|].
    bind_ok E. destruct (ds_docId a0); [|discriminate].
    injection E as <-; cbn [bs_index].
    rewrite (fields_membership _ _ _ E0 t d); cbn [ds_index ds_docId]; tauto.
Qed.

Section DictPerm.
Context {K V : Type} (keq : K -> K -> bool).
Hypothesis keq_eq : forall a b, keq a b = true <-> a = b.

Lemma In_dict_get (k : K) (v : V) (d : list (K * V)) :
  NoDup (dict_keys d) -> In (k, v) d -> dict_get keq k d = Some v.
Proof.
  induction d as [|[k0 v0] d IH]; simpl; intros Hnd Hin; [destruct Hin|].
  inversion Hnd as [|? ? Hk Hd]; subst.
  destruct (keq k k0) eqn:E.
  - apply keq_eq in E; subst k0.
    destruct Hin as [[= <-]|Hin]; [reflexivity|].
    exfalso; apply Hk; change k with (fst (k, v)); now apply in_map.
  - destruct Hin as [[= -> ->]|Hin]; [|now apply IH].
    assert (keq k k = true) by now apply keq_eq.
    congruence.
Qed.

Lemma dict_get_perm (k : K) (d d' : list (K * V)) :
  NoDup (dict_keys d) -> Permutation d d' -> dict_get keq k d' = dict_get keq k d.
Proof.
  intros Hnd Hp.
  assert (Hnd' : NoDup (dict_keys d')).
  { eapply Permutation_NoDup; [apply Permutation_map; exact Hp|exact Hnd]. }
  destruct (dict_get keq k d) as [v|] eqn:E.
  - apply In_dict_get; [exact Hnd'|].
    eapply Permutation_in; [exact Hp|]; now apply (dict_get_In keq keq_eq).
  - destruct (dict_get keq k d') as [v'|] eqn:E'; [|reflexivity].
    apply (dict_get_In keq keq_eq) in E'.
    apply (Permutation_in _ (Permutation_sym Hp)) in E'.
    now rewrite (In_dict_get k v' d Hnd E') in E.
Qed.
End DictPerm.

Lemma build_keys_distinct c st :
  generateIndex_docs c (mkBuildState [] [] []) = Ok st ->
  keys_distinct_postings_nonempty (bs_index st).
Proof.
  intros E.
  refine (docs_preserves (fun _ => True) all_words_trivial
            keys_distinct_postings_nonempty _ c (mkBuildState [] [] []) st _ E).
  - intros; eapply posting_keeps_keys; eassumption.
  - split; [constructor|intros ? ? []].
Qed.

(** The postings of the index a build returns hold exactly the identifiers
    recorded with the term. *)
Lemma build_membership c index docIndex :
  generateIndex c = Ok (index, docIndex) ->
  forall t d, posted index t d <-> In (d, t) (emitted c).
Proof.
  intros H t d; unfold generateIndex in H; bind_ok H; injection H as <- <-.
  pose proof (build_keys_distinct c a E) as [Hnd _].
  unfold posted, get_entry.
  rewrite (dict_get_perm String.eqb String.eqb_eq t (bs_index a) _ Hnd
             (Permutation_sym (sort_by_perm key_leb (bs_index a)))).
  fold (get_entry t (bs_index a)); fold (posted (bs_index a) t d).
  rewrite (docs_membership c _ a E t d); cbn [bs_index]; unfold posted; cbn.
  split; [intros [(e & He & _)|H]; [discriminate|exact H]|now right].
Qed.

(** ** C2 *)











Lemma emitted_zones (zones : document) (d : option Z) :
  ~ In "doc_id" (map fst zones) ->
  emitted_fields zones d = map (pair d) (doc_tokens zones).
Proof.
  induction zones as [|[key v] zones IH]; intros H; [reflexivity|].
  cbn [emitted_fields doc_tokens flat_map fst snd map] in *.
  destruct (String.eqb_spec key "doc_id") as [->|Hne]; [exfalso; apply H; now left|].
  rewrite map_app, IH by (intros Hx; apply H; now right); now destruct v.
Qed.

Lemma identifier_first_emitted (doc : document) :
  identifier_first doc ->
  exists z, doc_id_of doc = Some z
            /\ emitted_fields doc None = map (pair (Some z)) (doc_tokens doc).
Proof.
  intros (v & zones & z & -> & Hv & Hz); exists z; split.
  - unfold doc_id_of; cbn; now rewrite Hv.
  - cbn [emitted_fields doc_tokens flat_map fst snd]; rewrite String.eqb_refl, Hv.
    cbn [app]; now apply emitted_zones.
Qed.

Lemma postings_exact c index docIndex :
  generateIndex c = Ok (index, docIndex) ->
  Forall identifier_first c ->
  forall t d,
    posted index t d <->
    exists doc z, In doc c /\ doc_id_of doc = Some z /\ d = Some z /\ In t (doc_tokens doc).
Proof.
  intros H Hc t d; rewrite (build_membership c index docIndex H t d).
  unfold emitted; rewrite in_flat_map; rewrite Forall_forall in Hc.
  split.
  - intros (doc & Hdoc & Hin).
    destruct (identifier_first_emitted doc (Hc doc Hdoc)) as (z & Hz & He).
    rewrite He in Hin; apply in_map_iff in Hin as (x & [= <- <-] & Hx).
    now exists doc, z.
  - intros (doc & z & Hdoc & Hz & -> & Ht); exists doc; split; [exact Hdoc|].
    destruct (identifier_first_emitted doc (Hc doc Hdoc)) as (z' & Hz' & He).
    rewrite He; replace z' with z by congruence.
    now apply in_map.
Qed.

(** X12. The inverted index is exact. When the build returns for a corpus
    whose documents all start with their identifier field, the postings of a
    term hold the identifier of a document exactly when the term is a token
    of one of the zones of that document, and they never hold [None]. *)
Theorem X12_postings_are_the_documents_with_the_term c index docIndex :
  generateIndex c = Ok (index, docIndex) ->
  Forall identifier_first c ->
  forall t d,
    posted index t d <->
    exists doc z, In doc c /\ doc_id_of doc = Some z /\ d = Some z /\ In t (doc_tokens doc).
Proof. apply postings_exact. Qed.

Lemma X12_witness :
  posted fox_index "quick" (Some 2) <->
  exists doc z, In doc fox_corpus /\ doc_id_of doc = Some z /\ Some 2 = Some z
                /\ In "quick" (doc_tokens doc).
Proof.
  apply (X12_postings_are_the_documents_with_the_term fox_corpus fox_index fox_docIndex).
  - vm_compute; reflexivity.
  - repeat constructor.
    + exists (JStr "2"), [("title", JStr "The quick, brown fox!"); ("body", JStr "fox  dog")], 2.
      split; [reflexivity|split; [reflexivity|]].
      intros [H|[H|[]]]; discriminate H.
    + exists (JInt 1), [("body", JStr "Brown dog -- fox ...")], 1.
      split; [reflexivity|split; [reflexivity|]].
      intros [H|[]]; discriminate H.
Defined.

(** *** The forward index *)

Lemma doc_tokens_cons key v (fields : document) :
  doc_tokens ((key, v) :: fields)
  = (if String.eqb key "doc_id" then []
     else match v with JStr s => tokens_of s | _ => [] end) ++ doc_tokens fields.
Proof. reflexivity. Qed.

Lemma fields_docString fields : forall st st',
  generateIndex_fields fields st = Ok st' ->
  ds_docString st' = (ds_docString st ++ zone_text (doc_tokens fields))%string.
Proof.
  induction fields as [|[key v] fields IH]; intros st st' H; cbn [generateIndex_fields] in H.
  - injection H as <-; unfold zone_text; cbn; now rewrite str_app_nil_r.
  - rewrite doc_tokens_cons.
    destruct (is_empty_content v); [discriminate|].
    destruct (String.eqb key "doc_id").
    + bind_ok H. destruct (Z_mem a (ds_docIDs st)); [discriminate|].
      apply IH in H; exact H.
    + bind_ok H. bind_ok H. destruct a0 as [docString index].
      apply IH in H; cbn [ds_docString] in H; rewrite H.
      destruct v; try discriminate; injection E as <-.
      rewrite (zone_docString _ _ _ _ _ _ E0), zone_text_app, str_app_assoc.
      reflexivity.
Qed.

Lemma doc_id_of_absent (fields : document) :
  ~ In "doc_id" (map fst fields) -> doc_id_of fields = None.
Proof.
  intros H; unfold doc_id_of.
  destruct (dict_get String.eqb "doc_id" fields) eqn:E; [|reflexivity].
  apply (dict_get_In String.eqb String.eqb_eq) in E.
  exfalso; apply H; change "doc_id" with (fst ("doc_id", j)); now apply in_map.
Qed.

(** The identifier a document ends with: the one of its identifier field;
    it was not seen before that field and is recorded as seen. *)
Lemma fields_docId fields : forall st st',
  generateIndex_fields fields st = Ok st' ->
  (forall k, ds_docId st' = Some k ->
     ds_docId st = Some k \/ (~ In k (ds_docIDs st) /\ In k (ds_docIDs st')))
  /\ (NoDup (map fst fields) ->
      ds_docId st' = match doc_id_of fields with Some z => Some z | None => ds_docId st end).
Proof.
  induction fields as [|[key v] fields IH]; intros st st' H; cbn [generateIndex_fields] in H.
  - injection H as <-; split; [intros k Hk; now left|reflexivity].
  - destruct (is_empty_content v); [discriminate|].
    destruct (String.eqb key "doc_id") eqn:Ek.
    + bind_ok H. destruct (Z_mem a (ds_docIDs st)) eqn:Em; [discriminate|].
      pose proof (fields_ok_facts _ _ _ H) as (_ & Hincl & _); cbn [ds_docIDs] in Hincl.
      apply IH in H as [H1 H2]; cbn [ds_docId ds_docIDs] in *.
      split.
      * intros k Hk; right; destruct (H1 k Hk) as [[= ->]|[Hn Hy]].
        -- split; [intros Hin; apply Z_mem_In in Hin; congruence|].
           apply Hincl, in_or_app; right; now left.
        -- split; [intros Hin; apply Hn, in_or_app; now left|exact Hy].
      * intros Hnd; cbn [map fst] in Hnd; inversion Hnd as [|? ? Hnot Hnd']; subst.
        apply String.eqb_eq in Ek; subst key.
        rewrite (H2 Hnd'), (doc_id_of_absent fields Hnot).
        unfold doc_id_of; cbn [dict_get]; rewrite String.eqb_refl, E; reflexivity.
    + bind_ok H. bind_ok H. destruct a0 as [docString index].
      apply IH in H as [H1 H2]; cbn [ds_docId ds_docIDs] in *.
      split; [exact H1|].
      intros Hnd; cbn [map fst] in Hnd; inversion Hnd as [|? ? Hnot Hnd']; subst.
      rewrite (H2 Hnd'); unfold doc_id_of; cbn [dict_get].
      rewrite String.eqb_sym, Ek; reflexivity.
Qed.

Lemma doc_forward doc st st' :
  generateIndex_doc doc st = Ok st' ->
  exists k,
    bs_docIndex st' = dict_set Z.eqb k (zone_text (doc_tokens doc)) (bs_docIndex st)
    /\ ~ In k (bs_docIDs st) /\ In k (bs_docIDs st')
    /\ incl (bs_docIDs st) (bs_docIDs st')
    /\ (NoDup (map fst doc) -> doc_id_of doc = Some k).
Proof.
  intros H; unfold generateIndex_doc in H.
  destruct (Z.of_nat (List.length doc) <=? 1); [discriminate|].
  bind_ok H. destruct (ds_docId a) as [k|] eqn:Ed; [|discriminate].
  injection H as <-; cbn [bs_docIndex bs_docIDs].
  pose proof (fields_docString _ _ _ E) as Hs; cbn [ds_docString] in Hs.
  pose proof (fields_ok_facts _ _ _ E) as (_ & Hincl & _); cbn [ds_docIDs] in Hincl.
  destruct (fields_docId _ _ _ E) as [H1 H2]; cbn [ds_docId ds_docIDs] in *.
  exists k; rewrite Hs; cbn [String.append].
  split; [reflexivity|].
  destruct (H1 k Ed) as [Hx|[Hn Hy]]; [discriminate|].
  split; [exact Hn|]. split; [exact Hy|]. split; [exact Hincl|].
  intros Hnd; rewrite (H2 Hnd) in Ed.
  destruct (doc_id_of doc); [exact Ed|discriminate].
Qed.

Lemma docs_forward c : forall st st',
  generateIndex_docs c st = Ok st' ->
  (forall k, In k (dict_keys (bs_docIndex st)) -> In k (bs_docIDs st)) ->
  (forall k, In k (dict_keys (bs_docIndex st')) -> In k (bs_docIDs st'))
  /\ List.length (bs_docIndex st') = (List.length (bs_docIndex st) + List.length c)%nat
  /\ (forall k text, dict_get Z.eqb k (bs_docIndex st) = Some text ->
        dict_get Z.eqb k (bs_docIndex st') = Some text)
  /\ (forall doc, In doc c -> NoDup (map fst doc) ->
        exists z, doc_id_of doc = Some z
                  /\ dict_get Z.eqb z (bs_docIndex st') = Some (zone_text (doc_tokens doc))).
Proof.
  induction c as [|doc c IH]; intros st st' H Hinv; cbn [generateIndex_docs] in H.
  - injection H as <-; split; [exact Hinv|]. split; [cbn; lia|].
    split; [tauto|intros ? []].
  - bind_ok H.
    destruct (doc_forward _ _ _ E) as (k & Hd & Hn & Hy & Hincl & Hid).
    assert (Hfresh : ~ In k (dict_keys (bs_docIndex st))) by (intros Hk; apply Hn, Hinv, Hk).
    rewrite (dict_set_fresh Z.eqb Z.eqb_eq _ _ _ Hfresh) in Hd.
    assert (Hinv' : forall k0, In k0 (dict_keys (bs_docIndex a)) -> In k0 (bs_docIDs a)).
    { intros k0; rewrite Hd; unfold dict_keys; rewrite map_app, in_app_iff; cbn.
      intros [Hk0|[<-|[]]]; [now apply Hincl, Hinv|exact Hy]. }
    destruct (IH _ _ H Hinv') as (I1 & I2 & I3 & I4).
    assert (Hkeep : forall k0 text, dict_get Z.eqb k0 (bs_docIndex st) = Some text ->
                      dict_get Z.eqb k0 (bs_docIndex a) = Some text).
    { intros k0 text Hg; rewrite Hd, <- (dict_set_fresh Z.eqb Z.eqb_eq _ _ _ Hfresh).
      rewrite (dict_get_set Z.eqb Z.eqb_eq).
      destruct (Z.eqb_spec k0 k) as [->|_]; [|exact Hg].
      exfalso; apply Hfresh.
      apply (dict_get_In Z.eqb Z.eqb_eq) in Hg.
      change k with (fst (k, text)); now apply in_map. }
    split; [exact I1|]. split; [|split].
    + rewrite I2, Hd, length_app; cbn; lia.
    + intros k0 text Hg; now apply I3, Hkeep.
    + intros d [<-|Hin] Hnd; [|now apply I4].
      exists k; split; [now apply Hid|].
      apply I3; rewrite Hd, <- (dict_set_fresh Z.eqb Z.eqb_eq _ _ _ Hfresh).
      now rewrite (dict_get_set Z.eqb Z.eqb_eq), Z.eqb_refl.
Qed.

(** X13. The forward index of a build that returns holds one entry for each
    document of the corpus, and the entry of a document, found under its
    identifier, is the text of its tokens in the order of the zones, each
    token followed by one blank. *)
Theorem X13_forward_index_holds_each_document c index docIndex :
  generateIndex c = Ok (index, docIndex) ->
  List.length docIndex = List.length c
  /\ forall doc, In doc c -> NoDup (map fst doc) ->
       exists z, doc_id_of doc = Some z
                 /\ dict_get Z.eqb z docIndex = Some (zone_text (doc_tokens doc)).
Proof.
  intros H; unfold generateIndex in H; bind_ok H; injection H as <- <-.
  destruct (docs_forward c _ a E) as (_ & I2 & _ & I4); [intros ? []|].
  destruct (docs_docIndex_readable c _ a E) as [Hnd _]; [split; constructor|].
  split; [rewrite sort_by_length, I2; reflexivity|].
  intros doc Hdoc Hk; destruct (I4 doc Hdoc Hk) as (z & Hz & Hg).
  exists z; split; [exact Hz|].
  now rewrite (dict_get_perm Z.eqb Z.eqb_eq z (bs_docIndex a) _ Hnd
                 (Permutation_sym (sort_by_perm id_leb (bs_docIndex a)))).
Qed.

Lemma X13_witness :
  List.length fox_docIndex = List.length fox_corpus
  /\ forall doc, In doc fox_corpus -> NoDup (map fst doc) ->
       exists z, doc_id_of doc = Some z
                 /\ dict_get Z.eqb z fox_docIndex = Some (zone_text (doc_tokens doc)).
Proof.
  apply (X13_forward_index_holds_each_document fox_corpus fox_index fox_docIndex).
  vm_compute; reflexivity.
Defined.

(** *** The order of the returned dictionaries *)

Section SortOrder.
Context {A : Type} (leb : A -> A -> bool) (Q : A -> Prop).
Hypothesis leb_total : forall a b, leb a b = true \/ leb b a = true.
Hypothesis leb_trans : forall a b c,
  Q b -> leb a b = true -> leb b c = true -> leb a c = true.

Lemma insert_by_sorted (x : A) (l : list A) :
  Forall Q l ->
  StronglySorted (fun a b => leb a b = true) l ->
  StronglySorted (fun a b => leb a b = true) (insert_by leb x l).
Proof.
  induction l as [|y l IH]; intros HQ H; cbn [insert_by].
  - constructor; constructor.
  - inversion H as [|? ? Hl Hy]; subst.
    inversion HQ as [|? ? Qy Ql]; subst.
    destruct (leb x y) eqn:E.
    + constructor; [exact H|].
      constructor; [exact E|].
      rewrite Forall_forall in Hy |- *; intros z Hz.
      apply (leb_trans x y z Qy E); now apply Hy.
    + constructor; [now apply IH|].
      rewrite Forall_forall in Hy |- *; intros z Hz.
      apply (Permutation_in _ (insert_by_perm leb x l)) in Hz as [<-|Hz]; [|now apply Hy].
      destruct (leb_total x y) as [Hxy|Hyx]; [congruence|exact Hyx].
Qed.

Lemma sort_by_sorted (l : list A) :
  Forall Q l -> StronglySorted (fun a b => leb a b = true) (sort_by leb l).
Proof.
  induction l as [|x l IH]; intros HQ; cbn; [constructor|].
  inversion HQ as [|? ? Qx Ql]; subst.
  apply insert_by_sorted; [|now apply IH].
  rewrite Forall_forall in Ql |- *; intros y Hy; apply Ql.
  now apply (Permutation_in _ (sort_by_perm leb l)).
Qed.
End SortOrder.

Lemma sorted_strict {A K : Type} (f : A -> K) (R R' : A -> A -> Prop) (l : list A) :
  (forall a b, R a b -> f a <> f b -> R' a b) ->
  StronglySorted R l -> NoDup (map f l) -> StronglySorted R' l.
Proof.
  intros HR; induction 1 as [|x l Hl IH Hx]; intros Hnd; [constructor|].
  cbn [map] in Hnd; inversion Hnd as [|? ? Hnot Hnd']; subst.
  constructor; [now apply IH|].
  rewrite Forall_forall in Hx |- *; intros y Hy; apply HR; [now apply Hx|].
  intros Heq; apply Hnot; rewrite Heq; now apply in_map.
Qed.

Lemma string_leb_trans (a b c : string) :
  String.leb a b = true -> String.leb b c = true -> String.leb a c = true.
Proof.
  unfold String.leb; revert b c.
  induction a as [|x a IH]; intros [|y b] [|z c]; cbn; try congruence.
  unfold Ascii.compare.
  destruct (N.compare_spec (N_of_ascii x) (N_of_ascii y)) as [E1|E1|E1];
  destruct (N.compare_spec (N_of_ascii y) (N_of_ascii z)) as [E2|E2|E2];
  destruct (N.compare_spec (N_of_ascii x) (N_of_ascii z)) as [E3|E3|E3];
  try congruence; try lia; try apply IH.
Qed.

(** X14. Both dictionaries a build returns are in ascending order of their
    keys, with no key twice: the terms of the inverted index by code point,
    the identifiers of the forward index by value. *)
Theorem X14_returned_dictionaries_ascend c index docIndex :
  generateIndex c = Ok (index, docIndex) ->
  StronglySorted (fun a b => String.ltb (fst a) (fst b) = true) index
  /\ StronglySorted (fun a b => fst a < fst b) docIndex.
Proof.
  intros H.
  destruct (build_docIndex_readable c index docIndex H) as [Hd _].
  unfold generateIndex in H; bind_ok H; injection H as <- <-.
  pose proof (build_keys_distinct c a E) as [Hk _].
  split.
  - apply (sorted_strict fst (fun x y => key_leb x y = true)).
    + unfold key_leb, String.leb, String.ltb; intros x y Hle Hne.
      destruct (String.compare (fst x) (fst y)) eqn:Ec; try reflexivity; try discriminate.
      now apply String.compare_eq_iff in Ec.
    + apply (sort_by_sorted key_leb (fun _ => True)); unfold key_leb.
      * intros x y; apply String.leb_total.
      * intros x y z _; apply string_leb_trans.
      * apply Forall_forall; intros; exact I.
    + eapply Permutation_NoDup; [|exact Hk].
      apply Permutation_map; symmetry; apply sort_by_perm.
  - apply (sorted_strict fst (fun x y => id_leb x y = true)).
    + unfold id_leb; intros x y Hle Hne; apply Z.leb_le in Hle; lia.
    + apply (sort_by_sorted id_leb (fun _ => True)); unfold id_leb.
      * intros x y; rewrite !Z.leb_le; lia.
      * intros x y z _; rewrite !Z.leb_le; lia.
      * apply Forall_forall; intros; exact I.
    + exact Hd.
Qed.

Lemma X14_witness :
  StronglySorted (fun a b => String.ltb (fst a) (fst b) = true) fox_index
  /\ StronglySorted (fun a b => fst a < fst b) fox_docIndex.
Proof.
  apply (X14_returned_dictionaries_ascend fox_corpus fox_index fox_docIndex).
  vm_compute; reflexivity.
Defined.

(** *** The length of a document as the scorer counts it *)

Lemma split_ws_word (t rest : string) : forall w,
  no_space t = true ->
  split_ws w (t ++ String " " rest) = flush (w ++ t) ++ split_ws "" rest.
Proof.
  induction t as [|c t IH]; intros w Ht.
  - cbn; now rewrite str_app_nil_r.
  - cbn in Ht; apply andb_prop in Ht as [Hc Ht]; apply negb_true_iff in Hc.
    cbn [String.append split_ws]; rewrite Hc, (IH _ Ht), str_app_assoc; reflexivity.
Qed.

Lemma split_ws_trailing_blank (a : string) : forall w,
  split_ws w (a ++ " ") = split_ws w a.
Proof.
  induction a as [|c a IH]; intros w; cbn [String.append split_ws].
  - cbn; now rewrite app_nil_r.
  - destruct (is_space c); now rewrite IH.
Qed.

Lemma py_split_zone_text (tokens : list string) :
  Forall token_shape tokens -> py_split (zone_text tokens) = tokens.
Proof.
  unfold py_split; induction 1 as [|t tokens [Hne Ht] _ IH]; [reflexivity|].
  unfold zone_text in *; cbn [map str_concat].
  rewrite str_app_assoc; cbn [String.append].
  rewrite split_ws_word, IH.
  - destruct t; [now contradiction Hne|reflexivity].
  - unfold no_space; eapply str_forallb_impl; [|exact Ht].
    intros c Hc; now rewrite (lower_word_not_space c Hc).
Qed.

Lemma chop_blank (a : string) : chop (a ++ " ") = a.
Proof.
  unfold chop.
  assert (E : String.length (a ++ " ") = S (String.length a))
    by (induction a as [|c a IH]; [reflexivity|cbn; now rewrite IH]).
  rewrite E, Nat.sub_1_r, Nat.pred_succ; clear E.
  induction a as [|c a IH]; [reflexivity|cbn; now rewrite IH].
Qed.

Lemma py_split_chop_zone_text (tokens : list string) :
  py_split (chop (zone_text tokens)) = py_split (zone_text tokens).
Proof.
  destruct tokens as [|t0 ts]; [reflexivity|].
  destruct (exists_last (l := t0 :: ts)) as (front & t & E); [discriminate|]; rewrite E.
  rewrite zone_text_app, zone_text_one, <- str_app_assoc, chop_blank.
  unfold py_split; now rewrite split_ws_trailing_blank.
Qed.

Lemma dict_get_chop_texts (z : Z) (docIndex : docindex_t) :
  dict_get Z.eqb z (chop_texts docIndex) = option_map chop (dict_get Z.eqb z docIndex).
Proof.
  induction docIndex as [|[k text] docIndex IH]; [reflexivity|].
  cbn; destruct (z =? k); [reflexivity|exact IH].
Qed.

Lemma doc_tokens_shape (doc : document) : Forall token_shape (doc_tokens doc).
Proof.
  apply Forall_forall; intros t Ht; unfold doc_tokens in Ht.
  apply in_flat_map in Ht as ([key v] & _ & Ht); cbn [fst snd] in Ht.
  destruct (String.eqb key "doc_id"); [destruct Ht|].
  destruct v; try destruct Ht; now apply (tokens_of_shape s).
Qed.

(** X15. The length the scorer divides by is the number of tokens the build
    recorded for the document, repetitions counted, both for the forward
    index as built and for the forward index as the loader reads it back. *)
Theorem X15_document_length_counts_tokens c index docIndex doc :
  generateIndex c = Ok (index, docIndex) ->
  In doc c -> NoDup (map fst doc) ->
  exists z, doc_id_of doc = Some z
            /\ document_length docIndex z = List.length (doc_tokens doc)
            /\ document_length (chop_texts docIndex) z = List.length (doc_tokens doc).
Proof.
  intros H Hdoc Hnd.
  unfold generateIndex in H; bind_ok H; injection H as <- <-.
  destruct (docs_forward c _ a E) as (_ & _ & _ & I4); [intros ? []|].
  destruct (docs_docIndex_readable c _ a E) as [Hk _]; [split; constructor|].
  destruct (I4 doc Hdoc Hnd) as (z & Hz & Hg).
  rewrite <- (dict_get_perm Z.eqb Z.eqb_eq z (bs_docIndex a) _ Hk
                (Permutation_sym (sort_by_perm id_leb (bs_docIndex a)))) in Hg.
  exists z; split; [exact Hz|].
  unfold document_length; rewrite dict_get_chop_texts, Hg; cbn [option_map].
  rewrite py_split_chop_zone_text, (py_split_zone_text _ (doc_tokens_shape doc)).
  split; reflexivity.
Qed.

Lemma X15_witness :
  exists z, doc_id_of [("doc_id", JInt 1); ("body", JStr "Brown dog -- fox ...")] = Some z
            /\ document_length fox_docIndex z = 3%nat
            /\ document_length (chop_texts fox_docIndex) z = 3%nat.
Proof.
  apply (X15_document_length_counts_tokens fox_corpus fox_index fox_docIndex
           [("doc_id", JInt 1); ("body", JStr "Brown dog -- fox ...")]).
  - vm_compute; reflexivity.
  - right; left; reflexivity.
  - repeat constructor; cbn; intuition discriminate.
Defined.

(** *** Corpora the build accepts *)

Lemma all_ints_of_map (zs : list Z) : all_ints (map Some zs) = Some zs.
Proof. induction zs as [|z zs IH]; [reflexivity|cbn; now rewrite IH]. Qed.

Lemma py_sort_ids_ints (l : list (option Z)) :
  ~ In None l -> exists l', py_sort_ids l = Ok l' /\ ~ In None l'.
Proof.
  intros H; destruct (ints_of_postings l H) as [zs ->].
  unfold py_sort_ids; rewrite all_ints_of_map.
  destruct zs as [|a [|b zs]]; cbn [map].
  - exists []; split; [reflexivity|intros []].
  - exists [Some a]; split; [reflexivity|exact H].
  - eexists; split; [reflexivity|].
    intros Hin; apply in_map_iff in Hin as (z & Hz & _); discriminate.
Qed.

Lemma posting_progress (z : Z) (token : string) (index : index_t) :
  ints_only index ->
  exists index', generateIndex_posting (Some z) token index = Ok index' /\ ints_only index'.
Proof.
  intros Hi; unfold generateIndex_posting.
  destruct (get_entry token index) as [e|] eqn:Eg.
  - destruct (id_mem (Some z) (postings e)); cbn [negb].
    + exists index; now split.
    + destruct (py_sort_ids_ints (postings e ++ [Some z])) as (ps & Hps & Hn).
      { intros Hin; apply in_app_or in Hin as [Hin|[Hin|[]]]; [|discriminate].
        apply get_entry_In in Eg; exact (Hi _ _ Eg Hin). }
      rewrite Hps; cbn [bind]; eexists; split; [reflexivity|].
      intros t e' Hin; apply set_entry_In in Hin as [[= -> ->]|Hin]; [exact Hn|].
      exact (Hi _ _ Hin).
  - eexists; split; [reflexivity|].
    intros t e' Hin; apply set_entry_In in Hin as [[= -> ->]|Hin].
    + cbn; intros [Hx|[]]; discriminate.
    + exact (Hi _ _ Hin).
Qed.

Lemma zone_progress (z : Z) (words : list string) : forall ds idx,
  ints_only idx ->
  exists ds' idx', generateIndex_zone (Some z) words ds idx = Ok (ds', idx') /\ ints_only idx'.
Proof.
  induction words as [|w words IH]; intros ds idx Hi; cbn [generateIndex_zone].
  - now exists ds, idx.
  - destruct (negb (str_is_empty (normalize w))); [|now apply IH].
    destruct (posting_progress z (normalize w) idx Hi) as (idx1 & -> & Hi1); cbn [bind].
    now apply IH.
Qed.

Lemma zones_progress (z : Z) (zones : document) : forall st,
  (forall key v, In (key, v) zones -> key <> "doc_id" /\ exists s, v = JStr s /\ s <> "") ->
  ds_docId st = Some z -> ints_only (ds_index st) ->
  exists st', generateIndex_fields zones st = Ok st'
              /\ ds_docId st' = Some z /\ ds_docIDs st' = ds_docIDs st
              /\ ints_only (ds_index st').
Proof.
  induction zones as [|[key v] zones IH]; intros st Hz Hid Hi; cbn [generateIndex_fields].
  - now exists st.
  - destruct (Hz key v (or_introl eq_refl)) as (Hk & s & -> & Hs).
    apply String.eqb_neq in Hk; rewrite Hk.
    cbn [is_empty_content]; destruct s as [|ch s]; [now contradiction Hs|cbn [str_is_empty]].
    cbn [py_split_json bind]; rewrite Hid.
    destruct (zone_progress z (py_split (String ch s)) (ds_docString st) (ds_index st) Hi)
      as (ds' & idx' & -> & Hi'); cbn [bind].
    destruct (IH (mkDocState (Some z) ds' (ds_docIDs st) idx')) as (st' & E & H1 & H2 & H3);
      try assumption; try reflexivity.
    + intros k w Hin; apply Hz; now right.
    + exists st'; now repeat split.
Qed.

Lemma py_int_not_empty (v : json) (z : Z) : py_int v = Ok z -> is_empty_content v = false.
Proof.
  destruct v as [| |s]; cbn; intros H; [discriminate|reflexivity|].
  destruct s; [vm_compute in H; discriminate|reflexivity].
Qed.

Lemma doc_progress (doc : document) (st : build_state) :
  well_formed_doc doc ->
  (forall z, doc_id_of doc = Some z -> ~ In z (bs_docIDs st)) ->
  ints_only (bs_index st) ->
  exists st' z, generateIndex_doc doc st = Ok st'
                /\ doc_id_of doc = Some z
                /\ bs_docIDs st' = bs_docIDs st ++ [z]
                /\ ints_only (bs_index st').
Proof.
  intros ((v & zones & z & -> & Hv & Hzones) & Hlen & Hstr) Hnew Hi.
  assert (Hid : doc_id_of (("doc_id", v) :: zones) = Some z)
    by (unfold doc_id_of; cbn; now rewrite Hv).
  unfold generateIndex_doc.
  destruct (Z.leb_spec (Z.of_nat (List.length (("doc_id", v) :: zones))) 1) as [Hle|_]; [lia|].
  cbn [generateIndex_fields]; rewrite (py_int_not_empty v z Hv), String.eqb_refl, Hv.
  cbn [bind ds_docIDs ds_docString ds_index].
  destruct (Z_mem z (bs_docIDs st)) eqn:Em;
    [apply Z_mem_In in Em; now contradiction (Hnew z Hid)|].
  destruct (zones_progress z zones
              (mkDocState (Some z) "" (bs_docIDs st ++ [z]) (bs_index st)))
    as (ds & -> & H1 & H2 & H3); try assumption; try reflexivity.
  - intros key w Hin.
    assert (Hk : key <> "doc_id").
    { intros ->; apply Hzones; change "doc_id" with (fst ("doc_id", w)); now apply in_map. }
    split; [exact Hk|]; apply (Hstr key w); [now right|exact Hk].
  - cbn [bind]; rewrite H1.
    eexists; exists z; split; [reflexivity|].
    cbn [bs_docIDs bs_index]; now repeat split.
Qed.

Lemma docs_progress (c : corpus) : forall st,
  Forall well_formed_doc c -> NoDup (map doc_id_of c) ->
  (forall doc z, In doc c -> doc_id_of doc = Some z -> ~ In z (bs_docIDs st)) ->
  ints_only (bs_index st) ->
  exists st', generateIndex_docs c st = Ok st' /\ ints_only (bs_index st').
Proof.
  induction c as [|doc c IH]; intros st Hwf Hnd Hnew Hi; cbn [generateIndex_docs].
  - now exists st.
  - inversion Hwf as [|? ? Hdoc Hwf']; subst.
    cbn [map] in Hnd; inversion Hnd as [|? ? Hnot Hnd']; subst.
    destruct (doc_progress doc st Hdoc) as (st1 & z & -> & Hz & Hids & Hi1);
      [intros z Hz; apply (Hnew doc z); [now left|exact Hz]|exact Hi|].
    cbn [bind]; apply IH; try assumption.
    intros d z' Hd Hz'; rewrite Hids; intros Hin.
    apply in_app_or in Hin as [Hin|[<-|[]]].
    + apply (Hnew d z'); [now right|exact Hz'|exact Hin].
    + apply Hnot; rewrite Hz, <- Hz'; now apply in_map.
Qed.

(** X16. A corpus is accepted when every document starts with an identifier
    that converts to an integer, followed by at least one zone, every zone
    being a non-empty string, and no identifier occurs twice: the build
    returns, and no postings list of the index holds [None]. *)
Theorem X16_well_formed_corpus_is_built (c : corpus) :
  Forall well_formed_doc c -> NoDup (map doc_id_of c) ->
  exists index docIndex,
    generateIndex c = Ok (index, docIndex) /\ ints_only index.
Proof.
  intros Hwf Hnd; unfold generateIndex.
  destruct (docs_progress c (mkBuildState [] [] []) Hwf Hnd) as (st & -> & Hi).
  - intros ? ? _ _ [].
  - intros ? ? [].
  - cbn [bind]; do 2 eexists; split; [reflexivity|].
    intros t e Hin; apply sort_by_In in Hin; exact (Hi t e Hin).
Qed.

Lemma X16_witness :
  exists index docIndex, generateIndex fox_corpus = Ok (index, docIndex) /\ ints_only index.
Proof.
  apply (X16_well_formed_corpus_is_built fox_corpus).
  - apply Forall_cons; [|apply Forall_cons; [|apply Forall_nil]].
    + split; [|split].
      * exists (JStr "2"), [("title", JStr "The quick, brown fox!"); ("body", JStr "fox  dog")], 2.
        split; [reflexivity|split; [reflexivity|]].
        intros [H|[H|[]]]; discriminate H.
      * cbn; lia.
      * intros key v [[= <- <-]|[[= <- <-]|[[= <- <-]|[]]]] Hk;
          try (now contradiction Hk); eexists; (split; [reflexivity|discriminate]).
    + split; [|split].
      * exists (JInt 1), [("body", JStr "Brown dog -- fox ...")], 1.
        split; [reflexivity|split; [reflexivity|]].
        intros [H|[]]; discriminate H.
      * cbn; lia.
      * intros key v [[= <- <-]|[[= <- <-]|[]]] Hk;
          try (now contradiction Hk); eexists; (split; [reflexivity|discriminate]).
  - vm_compute; repeat constructor; cbn; intuition discriminate.
Defined.

(** * The two programs from their command line *)

(** ** query.py: [main] *)

Lemma getPhraseResults_counts index docIndex (ps : list string) docs n :
  getPhraseResults index docIndex ps = Ok (docs, n) ->
  Z.of_nat (List.length docs) <= n /\ n <= Z.of_nat (List.length docIndex).
Proof.
  destruct ps as [|p ps]; unfold getPhraseResults.
  - intros [= <- <-]; unfold sorted_Z, dict_keys; rewrite sort_by_length, length_map; lia.
  - destruct (getPhraseResults_fold index docIndex (p :: ps) [] [])
      as (pr & cd & -> & Hp & Hc & Hnp & Hnc); cbn [bind].
    intros [= <- <-]; unfold sorted_Z; rewrite sort_by_length.
    specialize (Hnp (NoDup_nil _)); specialize (Hnc (NoDup_nil _)).
    split; apply inj_le.
    + apply NoDup_incl_length; [exact Hnp|].
      intros d Hd; apply Hc; right.
      apply Hp in Hd as [[]|(q & Hq & H1 & _)]; now exists q.
    + rewrite <- (length_map fst docIndex); apply NoDup_incl_length; [exact Hnc|].
      intros d Hd; apply Hc in Hd as [[]|(q & _ & [Hk _])]; exact Hk.
Qed.

Lemma cosineScore_counts index docIndex kws docs numResults top count :
  cosineScore index docIndex kws docs numResults = Ok (top, count) ->
  0 <= numResults ->
  Z.of_nat (List.length top) <= numResults
  /\ Z.of_nat (List.length top) <= count
  /\ count <= Z.of_nat (List.length docs).
Proof.
  intros H HK.
  assert (Hs : scorable docIndex docs).
  { apply (cosineScore_ok_iff index docIndex kws docs numResults); now rewrite H. }
  rewrite (cosineScore_scorable index docIndex kws docs numResults Hs) in H.
  injection H as <- <-; rewrite list_slice0_firstn by exact HK.
  set (r := ranking index docIndex kws docs).
  pose proof (firstn_le_length (Z.to_nat numResults) r) as H1.
  assert (H2 : (List.length (firstn (Z.to_nat numResults) r) <= List.length r)%nat).
  { rewrite <- (firstn_skipn (Z.to_nat numResults) r) at 2; rewrite length_app; lia. }
  assert (H3 : (List.length r <= List.length docs)%nat).
  { subst r; unfold ranking.
    eapply Nat.le_trans; [apply filter_shorter|].
    rewrite sort_by_length, length_map.
    destruct (dedup_spec docs) as [Hnd Hsame].
    apply NoDup_incl_length; [exact Hnd|intros d Hd; now apply Hsame]. }
  lia.
Qed.

(** X17. Whenever the query program gets to print its results, it was given
    an index folder, a limit that reads as a positive integer and at least
    one query token, and no help request; the indexes were read from the
    folder; the program prints at most as many scores as the limit and as
    the count of documents with a non-zero score, which is at most the number
    of documents considered, which is at most the number of documents of the
    forward index. *)
Theorem X17_query_program_output (args : list string) (fs : filesystem) (out : query_output) :
  query_cli args fs = Ok out ->
  exists indexPath num query n index docIndex,
    args = indexPath :: num :: query /\ query <> []
    /\ ~ In "-h" args /\ ~ In "--help" args
    /\ py_int_str num = Ok n /\ 0 < n
    /\ buildIndexes indexPath fs = Ok (index, docIndex)
    /\ Z.of_nat (List.length (scores_out out)) <= n
    /\ Z.of_nat (List.length (scores_out out)) <= nonZeroScoreDocs out
    /\ nonZeroScoreDocs out <= numDocsConsidered out
    /\ numDocsConsidered out <= Z.of_nat (List.length docIndex).
Proof.
  unfold query_cli; intros H.
  destruct (existsb (String.eqb "-h") args) eqn:Eh; [discriminate|].
  destruct (existsb (String.eqb "--help") args) eqn:Eh2; [discriminate|].
  destruct (List.length args =? 0)%nat; [discriminate|]; cbn [orb] in H.
  destruct (List.length args <? 3)%nat eqn:El; [discriminate|].
  destruct args as [|indexPath [|num query]]; try discriminate.
  destruct query as [|q0 query]; [discriminate|].
  destruct (py_int_str num) as [n|e] eqn:En; [|destruct e; discriminate].
  destruct (n <=? 0) eqn:Epos; [discriminate|]; apply Z.leb_gt in Epos.
  unfold query_main in H.
  bind_ok H. destruct a as [kws ps].
  bind_ok H. destruct a as [index docIndex].
  bind_ok H. destruct a as [docs considered].
  bind_ok H. destruct a as [scores nonZero].
  injection H as <-; cbn [scores_out nonZeroScoreDocs numDocsConsidered].
  destruct (getPhraseResults_counts _ _ _ _ _ E1) as [G1 G2].
  destruct (cosineScore_counts _ _ _ _ _ _ _ E2) as (S1 & S2 & S3); [lia|].
  exists indexPath, num, (q0 :: query), n, index, docIndex.
  split; [reflexivity|]. split; [discriminate|].
  split; [|split].
  - intros Hin; apply Bool.not_true_iff_false in Eh; apply Eh, existsb_exists.
    exists "-h"; split; [exact Hin|reflexivity].
  - intros Hin; apply Bool.not_true_iff_false in Eh2; apply Eh2, existsb_exists.
    exists "--help"; split; [exact Hin|reflexivity].
  - split; [exact En|]. split; [exact Epos|]. split; [exact E0|]. lia.
Qed.

Lemma X17_witness :
  exists out,
    query_cli ["C:\index"; "1"; "fox"; ":quick"; "brown:"]
      (snd (buildIndex (Some fox_corpus) "C:" [])) = Ok out
    /\ Z.of_nat (List.length (scores_out out)) <= 1
    /\ nonZeroScoreDocs out <= numDocsConsidered out.
Proof.
  destruct (query_cli ["C:\index"; "1"; "fox"; ":quick"; "brown:"]
              (snd (buildIndex (Some fox_corpus) "C:" []))) as [out|e] eqn:E;
    [|vm_compute in E; discriminate].
  exists out; split; [reflexivity|].
  destruct (X17_query_program_output _ _ out E)
    as (indexPath & num & query & n & index & docIndex & Ha & _ & _ & _ & Hn & _ & _
        & H1 & H2 & H3 & _).
  injection Ha as <- <- <-; vm_compute in Hn; injection Hn as <-.
  split; [exact H1|lia].
Defined.

(** ** index.py: [main] *)

Lemma generateIndexFiles_frame (loc : string) indexes (fs : filesystem) (p : string) :
  p <> (loc ++ "\index")%string ->
  p <> ((loc ++ "\index") ++ "\index.tsv")%string ->
  p <> ((loc ++ "\index") ++ "\docIndex.tsv")%string ->
  fs_get p (generateIndexFiles loc indexes fs) = fs_get p fs.
Proof.
  intros H1 H2 H3; unfold generateIndexFiles.
  destruct (fs_get (loc ++ "\index") fs); [reflexivity|].
  apply String.eqb_neq in H1, H2, H3.
  now rewrite !fs_get_set, H1, H2, H3.
Qed.

(** X18. The indexing program writes nowhere but in the index folder of its
    second argument: every other path keeps what it held, whatever the
    arguments and the corpus. When that folder exists already, or when the
    program is not given exactly two arguments, nothing at all is written. *)
Theorem X18_index_program_writes_only_its_folder (args : list string)
    (load : string -> option corpus) (fs : filesystem) :
  let folder := (nth 1 args "" ++ "\index")%string in
  let fs' := snd (index_cli args load fs) in
  (forall p, p <> folder -> p <> (folder ++ "\index.tsv")%string ->
             p <> (folder ++ "\docIndex.tsv")%string -> fs_get p fs' = fs_get p fs)
  /\ (fs_get folder fs <> None -> fs' = fs)
  /\ (List.length args <> 2%nat -> index_cli args load fs = (Ok tt, fs)).
Proof.
  cbv zeta; unfold index_cli.
  destruct (existsb (String.eqb "-h") args || existsb (String.eqb "--help") args
            || (List.length args =? 0)%nat); [cbn; tauto|].
  destruct (Nat.eqb_spec (List.length args) 2) as [El|El]; cbn [negb]; [|cbn; tauto].
  destruct args as [|corpusPath [|indexPath [|x args]]]; try discriminate.
  cbn [nth]; unfold buildIndex.
  destruct (load corpusPath) as [c|]; [|cbn; tauto].
  destruct (generateIndex c) as [indexes|e]; [|cbn; tauto].
  cbn [snd]; split; [|split].
  - intros p H1 H2 H3; now apply generateIndexFiles_frame.
  - intros H; unfold generateIndexFiles.
    destruct (fs_get (indexPath ++ "\index") fs); [reflexivity|congruence].
  - cbn; congruence.
Qed.

(** ** The order of the ranking *)

Lemma not_nan_spec (b : PrimFloat.float) :
  PrimFloat.is_nan b = false -> FloatOps.Prim2SF b <> SpecFloat.S754_nan.
Proof.
  unfold PrimFloat.is_nan; rewrite FloatAxioms.eqb_spec; intros H E.
  rewrite E in H; discriminate.
Qed.

Ltac cmp_cases :=
  repeat match goal with
         | |- context [Z.compare ?a ?b] => destruct (Z.compare_spec a b)
         | |- context [PosDef.Pos.compare_cont Eq ?a ?b] =>
             change (PosDef.Pos.compare_cont Eq a b) with (Pos.compare a b) in *;
             destruct (Pos.compare_spec a b)
         end.

Lemma SFltb_asym (x y : SpecFloat.spec_float) :
  SpecFloat.SFltb x y = true -> SpecFloat.SFltb y x = false.
Proof.
  unfold SpecFloat.SFltb, SpecFloat.SFcompare.
  destruct x as [sx|sx| |sx mx ex], y as [sy|sy| |sy my ey];
    try destruct sx; try destruct sy; cbn; try congruence;
    cmp_cases; cbn; try congruence; try lia.
Qed.

(** On binary64 "not less than" is transitive through a value that is a
    number. *)
Lemma SFltb_trans_neg (x y z : SpecFloat.spec_float) :
  y <> SpecFloat.S754_nan ->
  SpecFloat.SFltb x y = false -> SpecFloat.SFltb y z = false -> SpecFloat.SFltb x z = false.
Proof.
  unfold SpecFloat.SFltb, SpecFloat.SFcompare; intros Hy.
  destruct x as [sx|sx| |sx mx ex], y as [sy|sy| |sy my ey], z as [sz|sz| |sz mz ez];
    try congruence;
    try destruct sx; try destruct sy; try destruct sz; cbn; try congruence;
    cmp_cases; cbn; try congruence; try lia.
Qed.

Lemma score_geb_total (a b : Z * PrimFloat.float) :
  score_geb a b = true \/ score_geb b a = true.
Proof.
  unfold score_geb; rewrite !FloatAxioms.ltb_spec.
  destruct (SpecFloat.SFltb (FloatOps.Prim2SF (snd a)) (FloatOps.Prim2SF (snd b))) eqn:E;
    [right|now left].
  now rewrite (SFltb_asym _ _ E).
Qed.

Lemma score_geb_trans (a b c : Z * PrimFloat.float) :
  PrimFloat.is_nan (snd b) = false ->
  score_geb a b = true -> score_geb b c = true -> score_geb a c = true.
Proof.
  unfold score_geb; rewrite !FloatAxioms.ltb_spec, !negb_true_iff.
  intros Hb; apply SFltb_trans_neg, not_nan_spec, Hb.
Qed.

Lemma sorted_filter {A : Type} (R : A -> A -> Prop) (f : A -> bool) (l : list A) :
  StronglySorted R l -> StronglySorted R (filter f l).
Proof.
  induction 1 as [|x l Hl IH Hx]; cbn [filter]; [constructor|].
  destruct (f x); [|exact IH].
  constructor; [exact IH|].
  rewrite Forall_forall in Hx |- *; intros y Hy; apply filter_In in Hy as [Hy _]; now apply Hx.
Qed.

Lemma sorted_firstn {A : Type} (R : A -> A -> Prop) (n : nat) (l : list A) :
  StronglySorted R l -> StronglySorted R (firstn n l).
Proof.
  intros H; revert n; induction H as [|x l Hl IH Hx]; intros [|n]; cbn [firstn];
    try constructor; [apply IH|].
  rewrite Forall_forall in Hx |- *; intros y Hy; apply Hx; eapply firstn_incl; exact Hy.
Qed.

Lemma ranking_descends index docIndex kws docs :
  (forall d, In d docs ->
     PrimFloat.is_nan (normalized_score index docIndex kws d) = false) ->
  StronglySorted (fun a b => score_geb a b = true) (ranking index docIndex kws docs).
Proof.
  intros Hnum; unfold ranking; apply sorted_filter.
  apply (sort_by_sorted score_geb (fun it => PrimFloat.is_nan (snd it) = false)).
  - apply score_geb_total.
  - apply score_geb_trans.
  - apply Forall_forall; intros x Hx; apply in_map_iff in Hx as (d & <- & Hd); cbn [snd].
    apply Hnum; now apply (dedup_spec docs).
Qed.

(** X19. The ranking descends: when [cosineScore] returns and the normalized
    score of every candidate is a number, no returned document has a score
    below the score of a document returned after it. *)
Theorem X19_cosineScore_scores_descend index docIndex kws docs numResults top count :
  cosineScore index docIndex kws docs numResults = Ok (top, count) ->
  (forall d, In d docs ->
     PrimFloat.is_nan (normalized_score index docIndex kws d) = false) ->
  StronglySorted (fun a b => PrimFloat.ltb (snd a) (snd b) = false) top.
Proof.
  intros H Hnum.
  assert (Hs : scorable docIndex docs).
  { apply (cosineScore_ok_iff index docIndex kws docs numResults); now rewrite H. }
  rewrite (cosineScore_scorable index docIndex kws docs numResults Hs) in H.
  injection H as <- _; unfold list_slice0; apply sorted_firstn.
  pose proof (ranking_descends index docIndex kws docs Hnum) as Hr.
  induction Hr as [|x l Hl IH Hx]; constructor; [exact IH|].
  rewrite Forall_forall in Hx |- *; intros y Hy.
  specialize (Hx y Hy); unfold score_geb in Hx; now apply negb_true_iff in Hx.
Qed.

Lemma X19_witness :
  StronglySorted (fun a b => PrimFloat.ltb (snd a) (snd b) = false)
    (list_slice0 (ranking fox_index fox_loaded_docIndex ["fox"; "dog"; "quick"] [1; 2]) 2).
Proof.
  apply (X19_cosineScore_scores_descend fox_index fox_loaded_docIndex
           ["fox"; "dog"; "quick"] [1; 2] 2 _
           (Z.of_nat (List.length
                        (ranking fox_index fox_loaded_docIndex ["fox"; "dog"; "quick"] [1; 2])))).
  - vm_compute; reflexivity.
  - intros d [<-|[<-|[]]]; vm_compute; reflexivity.
Defined.

(** ** The document frequency *)

Lemma has_token_In (t : string) (doc : document) :
  has_token t doc = true <-> In t (doc_tokens doc).
Proof.
  unfold has_token; rewrite existsb_exists; split.
  - intros (x & Hx & E); apply String.eqb_eq in E; now subst.
  - intros H; exists t; split; [exact H|apply String.eqb_refl].
Qed.

Lemma NoDup_map_filter {A B : Type} (key : A -> B) (keep : A -> bool) :
  forall items : list A, NoDup (map key items) -> NoDup (map key (filter keep items)).
Proof.
  intros items; induction items as [|x items IH]; cbn [map filter]; intros H; [constructor|].
  inversion H as [|? ? Hx Hl]; subst.
  destruct (keep x); cbn [map]; [|now apply IH].
  constructor; [|now apply IH].
  intros Hin; apply Hx; apply in_map_iff in Hin as (y & Hy & Hin).
  apply filter_In in Hin as [Hin _]; rewrite <- Hy; now apply in_map.
Qed.

Lemma identifiers_distinct (c : corpus) :
  (forall doc, In doc c -> exists z, doc_id_of doc = Some z) ->
  ~ duplicate_identifier c -> NoDup (map doc_id_of c).
Proof.
  induction c as [|doc c IH]; intros Hall Hdup; cbn [map]; [constructor|].
  constructor.
  - intros Hin; apply in_map_iff in Hin as (d' & Heq & Hd').
    apply In_nth_error in Hd' as [j Hj].
    destruct (Hall doc (or_introl eq_refl)) as [z Hz].
    apply Hdup; exists O, (S j), doc, d', z.
    split; [lia|]. split; [reflexivity|]. split; [exact Hj|]. split; [exact Hz|congruence].
  - apply IH; [intros d Hd; apply Hall; now right|].
    intros (i & j & di & dj & z & Hlt & Hi & Hj & Hzi & Hzj); apply Hdup.
    exists (S i), (S j), di, dj, z; repeat split; try assumption; lia.
Qed.

(** X20. The document frequency counts documents. When the build returns for
    a corpus whose documents all start with their identifier field, a term
    is absent from the index exactly when no document holds it; otherwise
    its document frequency is the number of documents that hold it, which is
    positive, and its postings are the identifiers of these documents. *)
Theorem X20_document_frequency_counts_documents c index docIndex (t : string) :
  generateIndex c = Ok (index, docIndex) ->
  Forall identifier_first c ->
  match get_entry t index with
  | None => forall doc, In doc c -> has_token t doc = false
  | Some e =>
      DF e = Z.of_nat (List.length (filter (has_token t) c))
      /\ 0 < DF e
      /\ Permutation (postings e) (map doc_id_of (filter (has_token t) c))
  end.
Proof.
  intros H Hc.
  pose proof (postings_exact c index docIndex H Hc t) as Hex.
  pose proof (build_index_ok c index docIndex H) as Hok.
  assert (Hids : forall doc, In doc c -> exists z, doc_id_of doc = Some z).
  { rewrite Forall_forall in Hc; intros doc Hdoc.
    destruct (identifier_first_emitted doc (Hc doc Hdoc)) as (z & Hz & _); now exists z. }
  destruct (get_entry t index) as [e|] eqn:Eg.
  - destruct (Hok t e (get_entry_In _ _ _ Eg)) as (Hdf & _ & Hnd).
    assert (Hperm : Permutation (postings e) (map doc_id_of (filter (has_token t) c))).
    { apply NoDup_Permutation; [exact Hnd| |].
      - apply NoDup_map_filter, identifiers_distinct; [exact Hids|].
        unfold generateIndex in H; bind_ok H.
        now apply docs_ok_facts in E.
      - intros d; split.
        + intros Hd.
          assert (Hp : posted index t d) by (exists e; now split).
          apply Hex in Hp as (doc & z & Hdoc & Hz & -> & Ht).
          rewrite <- Hz; apply in_map, filter_In; split; [exact Hdoc|now apply has_token_In].
        + intros Hd; apply in_map_iff in Hd as (doc & <- & Hdoc).
          apply filter_In in Hdoc as [Hdoc Ht]; apply has_token_In in Ht.
          destruct (Hids doc Hdoc) as [z Hz].
          assert (Hp : posted index t (doc_id_of doc)) by (apply Hex; now exists doc, z).
          destruct Hp as (e' & He' & Hin); congruence. }
    pose proof (Permutation_length Hperm) as Hlen; rewrite length_map in Hlen.
    split; [rewrite Hdf, Hlen; reflexivity|]. split; [|exact Hperm].
    unfold generateIndex in H; bind_ok H; injection H as <- <-.
    pose proof (build_keys_distinct c a E) as [_ Hne].
    apply get_entry_In, sort_by_In in Eg; apply Hne in Eg.
    rewrite Hdf; destruct (postings e); [congruence|cbn [List.length]; lia].
  - intros doc Hdoc; destruct (has_token t doc) eqn:Et; [|reflexivity].
    apply has_token_In in Et; destruct (Hids doc Hdoc) as [z Hz].
    assert (Hp : posted index t (Some z)) by (apply Hex; now exists doc, z).
    destruct Hp as (e' & He' & _); congruence.
Qed.

Lemma X20_witness :
  match get_entry "fox" fox_index with
  | None => forall doc, In doc fox_corpus -> has_token "fox" doc = false
  | Some e =>
      DF e = Z.of_nat (List.length (filter (has_token "fox") fox_corpus))
      /\ 0 < DF e
      /\ Permutation (postings e) (map doc_id_of (filter (has_token "fox") fox_corpus))
  end.
Proof.
  apply (X20_document_frequency_counts_documents fox_corpus fox_index fox_docIndex "fox").
  - vm_compute; reflexivity.
  - apply Forall_cons; [|apply Forall_cons; [|apply Forall_nil]].
    + exists (JStr "2"), [("title", JStr "The quick, brown fox!"); ("body", JStr "fox  dog")], 2.
      split; [reflexivity|split; [reflexivity|]].
      intros [H|[H|[]]]; discriminate H.
    + exists (JInt 1), [("body", JStr "Brown dog -- fox ...")], 1.
      split; [reflexivity|split; [reflexivity|]].
      intros [H|[]]; discriminate H.
Defined.

(** ** A phrase that is never closed *)

(** X21. A phrase that is opened and never closed is dropped: for keywords
    followed by a token that starts with the delimiter and tokens without
    delimiter at either end, [parseQuery] returns the keywords and no phrase;
    the tokens from the opening one on are in neither list. *)
Theorem X21_parseQuery_unclosed_phrase_is_dropped (kw mids : list string) (a : string) :
  Forall plain_keyword kw ->
  ends_with_colon (String colon a) = false ->
  Forall inner_token mids ->
  parseQuery (kw ++ [String colon a] ++ mids) = Ok (kw, []).
Proof.
  intros H1 Ha Hm; unfold parseQuery.
  rewrite loop_app, (loop_keywords kw parse_init H1 eq_refl); cbn [bind].
  rewrite loop_app; unfold parseQuery_loop at 1; cbn [fold_result].
  rewrite term_opens by (try exact Ha; reflexivity); cbn [bind keywords phrases phrase].
  rewrite loop_inner by (try exact Hm; reflexivity).
  cbn [bind keywords phrases]; reflexivity.
Qed.

Lemma X21_witness :
  parseQuery (["fox"; "dog"] ++ [String colon "quick"] ++ ["brown"; "a:b"])
  = Ok (["fox"; "dog"], []).
Proof.
  apply (X21_parseQuery_unclosed_phrase_is_dropped ["fox"; "dog"] ["brown"; "a:b"] "quick");
    repeat constructor; discriminate.
Defined.

(** ** Keywords are looked up as they are typed *)

Lemma token_shape_normalized (t : string) : token_shape t -> normalize t = t.
Proof.
  intros [_ H]; unfold normalize; induction t as [|c t IH]; [reflexivity|].
  cbn in H; apply andb_prop in H as [Hc Ht].
  unfold lower_word in Hc; apply andb_prop in Hc as [Hw Hl]; apply Ascii.eqb_eq in Hl.
  cbn [str_filter]; rewrite Hw; cbn [orb str_map]; now rewrite Hl, IH.
Qed.

Lemma unnormalized_term_absent c index docIndex (t : string) :
  generateIndex c = Ok (index, docIndex) -> normalize t <> t -> get_entry t index = None.
Proof.
  intros H Ht; destruct (get_entry t index) as [e|] eqn:Eg; [|reflexivity].
  apply get_entry_In in Eg.
  now apply (build_terms_shape c index docIndex H), token_shape_normalized in Eg.
Qed.

(** X22. The query side does not normalize. For a corpus and keywords of
    code points up to U+00FF (the strings of the embedding, on which the
    tokenizer leaves its own tokens unchanged): a keyword that the tokenizer
    of the indexer would change (an uppercase letter, a punctuation
    character) is not a term of the index a build returns, and a query made
    of such keywords only gets no score and the count 0, whatever the
    candidates that can be scored. *)
Theorem X22_unnormalized_keywords_match_nothing c index docIndex loaded kws docs numResults :
  generateIndex c = Ok (index, docIndex) ->
  (forall t, In t kws -> normalize t <> t) ->
  scorable loaded docs ->
  (forall t, In t kws -> get_entry t index = None)
  /\ cosineScore index loaded kws docs numResults = Ok ([], 0).
Proof.
  intros H Hk Hs.
  assert (Hnone : forall t, In t kws -> get_entry t index = None).
  { intros t Ht; apply (unnormalized_term_absent c index docIndex t H), Hk, Ht. }
  split; [exact Hnone|].
  rewrite (cosineScore_scorable index loaded kws docs numResults Hs).
  rewrite ranking_empty, list_slice0_nil; [reflexivity|].
  intros d term _ Ht; unfold term_hits; now rewrite (Hnone term Ht).
Qed.

Lemma X22_witness :
  (forall t, In t ["Fox"; "dog!"] -> get_entry t fox_index = None)
  /\ cosineScore fox_index fox_loaded_docIndex ["Fox"; "dog!"] [1; 2] 10 = Ok ([], 0).
Proof.
  apply (X22_unnormalized_keywords_match_nothing fox_corpus fox_index fox_docIndex
           fox_loaded_docIndex ["Fox"; "dog!"] [1; 2] 10).
  - vm_compute; reflexivity.
  - intros t [<-|[<-|[]]]; vm_compute; discriminate.
  - intros d [<-|[<-|[]]]; eexists; (split; [vm_compute; reflexivity|vm_compute; discriminate]).
Defined.

(** ** The query pipeline on a loaded index *)

Lemma getPhraseResults_candidates index docIndex (ps : list string) :
  exists docs n,
    getPhraseResults index docIndex ps = Ok (docs, n)
    /\ incl docs (dict_keys docIndex).
Proof.
  destruct ps as [|p ps]; unfold getPhraseResults.
  - do 2 eexists; split; [reflexivity|].
    intros d Hd; unfold sorted_Z in Hd; now apply sort_by_In in Hd.
  - destruct (getPhraseResults_fold index docIndex (p :: ps) [] [])
      as (pr & cd & -> & Hp & _); cbn [bind].
    do 2 eexists; split; [reflexivity|].
    intros d Hd; unfold sorted_Z in Hd; apply sort_by_In in Hd.
    apply Hp in Hd as [[]|(q & _ & [Hk _] & _)]; exact Hk.
Qed.

(** X23. Once the indexes are loaded and every document of the forward index
    has at least one token in its text, the query pipeline cannot fail on a
    query that holds neither an empty token nor a lone delimiter: the
    candidates of [getPhraseResults] are documents of the forward index, so
    the scorer finds each of them and never divides by zero. *)
Theorem X23_query_pipeline_returns (indexPath : string) (numResults : Z)
    (query : list string) (fs : filesystem) index docIndex :
  buildIndexes indexPath fs = Ok (index, docIndex) ->
  (forall d text, In (d, text) docIndex -> py_split text <> []) ->
  ~ In "" query -> ~ In ":" query ->
  exists out, query_main indexPath numResults query fs = Ok out.
Proof.
  intros Hload Htext H1 H2; unfold query_main.
  destruct (parseQuery query) as [[kws ps]|e] eqn:Ep.
  2:{ assert (Hok : is_ok (parseQuery query) = true).
      { unfold parseQuery; destruct (parseQuery_loop query parse_init) eqn:El; [reflexivity|].
        assert (Hl : is_ok (parseQuery_loop query parse_init) = true)
          by now apply parseQuery_loop_ok_iff.
        rewrite El in Hl; discriminate. }
      rewrite Ep in Hok; discriminate. }
  cbn [bind]; rewrite Hload; cbn [bind].
  destruct (getPhraseResults_candidates index docIndex ps) as (docs & n & -> & Hin).
  cbn [bind].
  assert (Hs : scorable docIndex docs).
  { intros d Hd.
    destruct (dict_get_Some_in Z.eqb Z.eqb_eq d docIndex (Hin d Hd)) as [text Ht].
    exists text; split; [exact Ht|].
    apply (Htext d), (dict_get_In Z.eqb Z.eqb_eq), Ht. }
  rewrite (cosineScore_scorable index docIndex _ docs numResults Hs); cbn [bind].
  eexists; reflexivity.
Qed.

Lemma X23_witness :
  exists out,
    query_main "C:\index" 5 ["fox"; ":quick"; "brown:"]
      (snd (buildIndex (Some fox_corpus) "C:" [])) = Ok out.
Proof.
  apply (X23_query_pipeline_returns "C:\index" 5 ["fox"; ":quick"; "brown:"]
           (snd (buildIndex (Some fox_corpus) "C:" [])) fox_index fox_loaded_docIndex).
  - vm_compute; reflexivity.
  - intros d text [[= <- <-]|[[= <- <-]|[]]]; vm_compute; discriminate.
  - intros [H|[H|[H|[]]]]; discriminate H.
  - intros [H|[H|[H|[]]]]; discriminate H.
Defined.
